(** * discord-ipc: the IPC session engine of [src/index.js]

    A shallow embedding of the [DiscordIPC] class: the length-prefixed frame
    codec, the streaming decoder installed by [setupSocketHandlers], the
    request correlator ([sendCommand] / [handleMessage]), the outbound queue
    ([send] / [processQueue]), [authenticate], [setActivity],
    [scheduleReconnect] and [disconnect]; then the methods around it
    ([getIPCPaths], [connect], [handshake], [receive], [clearActivity],
    [subscribe], the callback of the reconnect timer) and the
    [ActivityBuilder] class.

    Every synchronous block of JavaScript (an API call up to its first
    [await], a socket or timer callback, the continuation after an [await])
    is one function on an explicit [State]; the event loop is the choice of
    which block runs next. *)

From Stdlib Require Import ZArith Lia List.
From Stdlib Require Import Strings.String Strings.Ascii Strings.Byte.
From Equations Require Import Equations.
From stdpp Require Import base tactics option list gmap strings pretty.

Set Warnings "-register-all".
Local Open Scope Z_scope.

(** ** Bytes and Node [Buffer]s *)

Abbreviation byte := Byte.byte.
Abbreviation Buffer := (list byte).

Module Buf.

Definition unsigned (b : byte) : Z := Z.of_N (Byte.to_N b).

(** Storing a number into a [Uint8Array] slot keeps its low eight bits. *)
Definition of_Z (z : Z) : byte :=
  match Byte.of_N (Z.to_N (z mod 256)) with
  | Some b => b
  | None => Byte.x00
  end.

(** [Buffer.alloc(n)]: [n] zero bytes. *)
Definition alloc (n : nat) : Buffer := replicate n Byte.x00.

(** [buf[i]] under a bounds guard; a missing index reads as zero. *)
Definition at_ (buf : Buffer) (i : nat) : Z :=
  match buf !! i with
  | Some b => unsigned b
  | None => 0
  end.

(** [buf.readUInt32LE(offset)].  Node raises a [RangeError] when
    [offset + 4 > buf.length]; both call sites in [setupSocketHandlers] run
    under the guard [buffer.length >= 8] with offsets 0 and 4. *)
Definition readUInt32LE (buf : Buffer) (offset : nat) : Z :=
  at_ buf offset
  + at_ buf (offset + 1) * 2 ^ 8
  + at_ buf (offset + 2) * 2 ^ 16
  + at_ buf (offset + 3) * 2 ^ 24.

Definition uint32_max : Z := 4294967295.

(** [buf.writeUInt32LE(value, offset)]: [None] stands for the
    [RangeError] Node raises when [value] is not in [0, 2^32 - 1] or the
    four bytes do not fit. *)
Definition writeUInt32LE (buf : Buffer) (value : Z) (offset : nat)
  : option Buffer :=
  if decide (0 <= value <= uint32_max) then
    if decide (offset + 4 <= length buf)%nat then
      Some (<[(offset + 3)%nat := of_Z (Z.shiftr value 24)]>
           (<[(offset + 2)%nat := of_Z (Z.shiftr value 16)]>
           (<[(offset + 1)%nat := of_Z (Z.shiftr value 8)]>
           (<[offset := of_Z value]> buf))))
    else None
  else None.

(** [buf.slice(start, end)] and [buf.slice(start)] for in-range or
    overlong non-negative indices (the end is clamped to the length). *)
Definition slice (buf : Buffer) (start stop : nat) : Buffer :=
  take (stop - start) (drop start buf).

Definition slice_from (buf : Buffer) (start : nat) : Buffer :=
  drop start buf.

(** [Buffer.from(str)] and [buf.toString()]: a Rocq [string] is the
    sequence of UTF-8 code units of the JavaScript string. *)
Definition from (s : string) : Buffer := list_byte_of_string s.
Definition toString (b : Buffer) : string := string_of_list_byte b.

(** The wire format of one frame: the header [send] fills with its two
    [writeUInt32LE] calls, then the payload. *)
Definition header_bytes (opcode len : Z) : Buffer :=
  [ of_Z opcode; of_Z (Z.shiftr opcode 8);
    of_Z (Z.shiftr opcode 16); of_Z (Z.shiftr opcode 24);
    of_Z len; of_Z (Z.shiftr len 8);
    of_Z (Z.shiftr len 16); of_Z (Z.shiftr len 24) ].

Definition frame_bytes (opcode : Z) (payload : Buffer) : Buffer :=
  header_bytes opcode (Z.of_nat (length payload)) ++ payload.

End Buf.

(** ** The streaming frame decoder of [setupSocketHandlers]

    [buffer] is a variable of the closure, not a field of the client, so it
    is threaded next to the client state.  The decoder is generic in the
    state and in the handler it hands complete frames to; the engine
    instantiates it with [handleMessage]. *)

Section Decoder.

Context {St : Type}.
Variable handleMessage : Z -> Buffer -> St -> St.

(** The [while (buffer.length >= 8)] loop. *)
Equations? data_loop (buffer : Buffer) (s : St) : Buffer * St
  by wf (length buffer) lt :=
  data_loop buffer s with decide (8 <= length buffer)%nat := {
    | right _ => (buffer, s)
    | left _ with decide (Z.of_nat (length buffer)
                          < 8 + Buf.readUInt32LE buffer 4) := {
        | left _ => (buffer, s)
        | right _ =>
            let opcode := Buf.readUInt32LE buffer 0 in
            let len := Z.to_nat (Buf.readUInt32LE buffer 4) in
            let payload := Buf.slice buffer 8 (8 + len) in
            data_loop (Buf.slice_from buffer (8 + len))
                      (handleMessage opcode payload s) } }.
Proof.
  change (length (drop (8 + len) buffer) < length buffer)%nat.
  rewrite length_drop. lia.
Qed.

(** The ['data'] listener: append the chunk, then run the loop. *)
Definition on_data (chunk : Buffer) (bs : Buffer * St) : Buffer * St :=
  data_loop (bs.1 ++ chunk) bs.2.

(** Successive ['data'] events on one socket. *)
Definition feed (chunks : list Buffer) (bs : Buffer * St) : Buffer * St :=
  fold_left (fun acc chunk => on_data chunk acc) chunks bs.

End Decoder.

(** The decoder run on its own: the frames it delivers, in order, and the
    bytes it keeps. *)
Definition record_frame (opcode : Z) (payload : Buffer)
  (seen : list (Z * Buffer)) : list (Z * Buffer) :=
  seen ++ [(opcode, payload)].

Definition decoded_frames (chunks : list Buffer)
  : Buffer * list (Z * Buffer) :=
  feed record_frame chunks ([], []).

(** What the wire format admits: both header fields are [uint32]. *)
Definition frame_ok (f : Z * Buffer) : Prop :=
  0 <= f.1 <= Buf.uint32_max /\ Z.of_nat (length f.2) <= Buf.uint32_max.

(** ** JavaScript values, errors and completions *)

(** The values that flow through the engine: what [JSON.parse] returns, what
    callers pass as [data], [args] and [activity].  Numbers are the integers
    (opcodes, lengths, timestamps in milliseconds); an object is its list of
    own enumerable properties in insertion order, without repeated keys. *)
Inductive value : Type :=
  | VUndefined
  | VNull
  | VBool (b : bool)
  | VNum (n : Z)
  | VStr (s : string)
  | VDate (ms : Z)
  | VArr (elems : list value)
  | VObj (fields : list (string * value)).

Inductive ErrorKind : Type := KError | KTypeError | KRangeError | KSyntaxError.

Record Error : Type := mkError { err_kind : ErrorKind; err_message : string }.

(** How a block of code ends: normally with a result, or by [throw]. *)
Inductive completion (A : Type) : Type :=
  | Normal (a : A)
  | Thrown (e : Error).
Arguments Normal {A} a.
Arguments Thrown {A} e.

Module JS.

(** ToBoolean. *)
Definition truthy (v : value) : bool :=
  match v with
  | VUndefined | VNull => false
  | VBool b => b
  | VNum n => negb (n =? 0)
  | VStr s => negb (String.eqb s EmptyString)
  | VDate _ | VArr _ | VObj _ => true
  end.

Fixpoint lookup_field (k : string) (fields : list (string * value))
  : value :=
  match fields with
  | [] => VUndefined
  | (k', v) :: rest => if String.eqb k k' then v else lookup_field k rest
  end.

(** [obj[k] = v]: overwrite in place, or append a new property. *)
Fixpoint assign_field (k : string) (v : value)
  (fields : list (string * value)) : list (string * value) :=
  match fields with
  | [] => [(k, v)]
  | (k', v') :: rest =>
      if String.eqb k k' then (k, v) :: rest
      else (k', v') :: assign_field k v rest
  end.

Definition cannot_read (k : string) (base : string) : Error :=
  mkError KTypeError
    ("Cannot read properties of " +:+ base +:+ " (reading '" +:+ k +:+ "')").

(** [v.k] for the property names the engine reads ([nonce], [cmd], [evt],
    [data], [message], ...), none of which is inherited from a prototype:
    reading from [undefined] or [null] throws, reading from a primitive or
    an array gives [undefined]. *)
Definition get (v : value) (k : string) : completion value :=
  match v with
  | VUndefined => Thrown (cannot_read k "undefined")
  | VNull => Thrown (cannot_read k "null")
  | VObj fields => Normal (lookup_field k fields)
  | _ => Normal VUndefined
  end.

(** [v === 'lit'] for a string literal. *)
Definition is_str (v : value) (lit : string) : bool :=
  match v with
  | VStr s => String.eqb s lit
  | _ => false
  end.

Section ToString.

(** [String(new Date(ms))] depends on the host's time zone. *)
Variable Date_toString : Z -> string.

(** [String(v)]; array elements [null] and [undefined] print empty. *)
Fixpoint to_string (v : value) : string :=
  match v with
  | VUndefined => "undefined"
  | VNull => "null"
  | VBool true => "true"
  | VBool false => "false"
  | VNum n => pretty n
  | VStr s => s
  | VDate ms => Date_toString ms
  | VArr elems =>
      let elem v :=
        match v with
        | VUndefined | VNull => EmptyString
        | _ => to_string v
        end in
      (fix join (l : list value) : string :=
         match l with
         | [] => EmptyString
         | [x] => elem x
         | x :: rest => elem x +:+ "," +:+ join rest
         end) elems
  | VObj _ => "[object Object]"
  end.

(** [new Error(v)]: the message is [String(v)] unless [v] is
    [undefined]. *)
Definition new_Error (v : value) : Error :=
  mkError KError
    match v with
    | VUndefined => EmptyString
    | _ => to_string v
    end.

End ToString.

(** [hay.includes(needle)]. *)
Fixpoint includes (needle hay : string) : bool :=
  String.prefix needle hay
  || match hay with
     | EmptyString => false
     | String _ rest => includes needle rest
     end.

(** [str.length] counts UTF-16 code units: one for each code point
    encoded in one, two or three bytes, two for a code point encoded in
    four.  A continuation byte starts no code point. *)
Fixpoint utf16_length (s : string) : nat :=
  match s with
  | EmptyString => 0
  | String c rest =>
      let b := Ascii.N_of_ascii c in
      ((if (b <? 128)%N then 1
        else if (b <? 192)%N then 0
        else if (b <? 240)%N then 1
        else 2) + utf16_length rest)%nat
  end.

End JS.

(** ** The client state *)

(** An activity as the engine holds it.  JavaScript objects are shared by
    reference and [processActivity] writes into the [timestamps] object of
    the activity it is given, which is also the [timestamps] object of the
    caller's activity and of every copy made with [{...activity}].  That
    object lives in the store of the state, at the address [act_stamps];
    [act_fields] are the other own properties.  An activity whose
    [timestamps] is not an object, or is an object nobody else holds, has
    it among its fields and no address. *)
Record Activity : Type := mkActivity {
    act_fields : list (string * value);
    act_stamps : option nat
  }.

(** The closure stored in [pendingResponses] by [sendCommand]: it captures
    the timer to cancel and the promise to settle. *)
Record Callback : Type := mkCallback { cb_timeoutId : nat; cb_promise : nat }.

(** What a pending timer runs when it fires. *)
Inductive Timer : Type :=
  | TCommandTimeout (nonce cmd : string) (promise : nat) (delay : Z)
  | TReconnect (delay : Z)
  | THeartbeat.

Inductive Settlement : Type :=
  | Resolved (response : value)
  | Rejected (e : Error).

(** The events the client emits to its listeners. *)
Inductive Notification : Type :=
  | NConnect
  | NDisconnect
  | NAuthenticated
  | NReady (data : value)
  | NError (e : Error)
  | NDispatch (evt data : value)
  | NMessage (message : value)
  | NActivitySet (activity : Activity)
  | NActivityCleared.

Inductive Level : Type := LInfo | LWarn | LError.

Record State : Type := mkState {
    (* fields of [this], as the constructor declares them *)
    clientId : option string;
    debug : bool;
    autoReconnect : bool;
    reconnectDelay : Z;
    maxReconnectAttempts : Z;
    socket : option nat;
    connected : bool;
    authenticated : bool;
    reconnectAttempts : Z;
    currentActivity : option Activity;
    messageQueue : list (Z * value);
    pendingResponses : gmap string Callback;
    heartbeatInterval : option nat;
    (* the objects the client shares with its caller, by address *)
    heap : gmap nat (list (string * value));
    (* the environment: timers, promises of [sendCommand], and the
       observable traces (socket writes, notifications, console lines) *)
    timers : gmap nat Timer;
    nextTimer : nat;
    promises : gmap nat Settlement;
    nextPromise : nat;
    settleCalls : list (nat * Settlement);
    written : list Buffer;
    emitted : list Notification;
    console : list (Level * string);
    errorListeners : bool
  }.

Definition set_autoReconnect (x : bool) (s : State) : State :=
  mkState (clientId s) (debug s) x (reconnectDelay s) (maxReconnectAttempts s)
    (socket s) (connected s) (authenticated s) (reconnectAttempts s)
    (currentActivity s) (messageQueue s) (pendingResponses s)
    (heartbeatInterval s) (heap s) (timers s) (nextTimer s) (promises s)
    (nextPromise s) (settleCalls s) (written s) (emitted s) (console s)
    (errorListeners s).

Definition set_socket (x : option nat) (s : State) : State :=
  mkState (clientId s) (debug s) (autoReconnect s) (reconnectDelay s)
    (maxReconnectAttempts s) x (connected s) (authenticated s)
    (reconnectAttempts s) (currentActivity s) (messageQueue s)
    (pendingResponses s) (heartbeatInterval s) (heap s) (timers s)
    (nextTimer s) (promises s) (nextPromise s) (settleCalls s) (written s)
    (emitted s) (console s) (errorListeners s).

Definition set_connected (x : bool) (s : State) : State :=
  mkState (clientId s) (debug s) (autoReconnect s) (reconnectDelay s)
    (maxReconnectAttempts s) (socket s) x (authenticated s)
    (reconnectAttempts s) (currentActivity s) (messageQueue s)
    (pendingResponses s) (heartbeatInterval s) (heap s) (timers s)
    (nextTimer s) (promises s) (nextPromise s) (settleCalls s) (written s)
    (emitted s) (console s) (errorListeners s).

Definition set_authenticated (x : bool) (s : State) : State :=
  mkState (clientId s) (debug s) (autoReconnect s) (reconnectDelay s)
    (maxReconnectAttempts s) (socket s) (connected s) x (reconnectAttempts s)
    (currentActivity s) (messageQueue s) (pendingResponses s)
    (heartbeatInterval s) (heap s) (timers s) (nextTimer s) (promises s)
    (nextPromise s) (settleCalls s) (written s) (emitted s) (console s)
    (errorListeners s).

Definition set_reconnectAttempts (x : Z) (s : State) : State :=
  mkState (clientId s) (debug s) (autoReconnect s) (reconnectDelay s)
    (maxReconnectAttempts s) (socket s) (connected s) (authenticated s) x
    (currentActivity s) (messageQueue s) (pendingResponses s)
    (heartbeatInterval s) (heap s) (timers s) (nextTimer s) (promises s)
    (nextPromise s) (settleCalls s) (written s) (emitted s) (console s)
    (errorListeners s).

Definition set_currentActivity (x : option Activity) (s : State) : State :=
  mkState (clientId s) (debug s) (autoReconnect s) (reconnectDelay s)
    (maxReconnectAttempts s) (socket s) (connected s) (authenticated s)
    (reconnectAttempts s) x (messageQueue s) (pendingResponses s)
    (heartbeatInterval s) (heap s) (timers s) (nextTimer s) (promises s)
    (nextPromise s) (settleCalls s) (written s) (emitted s) (console s)
    (errorListeners s).

Definition set_messageQueue (x : list (Z * value)) (s : State) : State :=
  mkState (clientId s) (debug s) (autoReconnect s) (reconnectDelay s)
    (maxReconnectAttempts s) (socket s) (connected s) (authenticated s)
    (reconnectAttempts s) (currentActivity s) x (pendingResponses s)
    (heartbeatInterval s) (heap s) (timers s) (nextTimer s) (promises s)
    (nextPromise s) (settleCalls s) (written s) (emitted s) (console s)
    (errorListeners s).

Definition set_pendingResponses (x : gmap string Callback) (s : State) : State :=
  mkState (clientId s) (debug s) (autoReconnect s) (reconnectDelay s)
    (maxReconnectAttempts s) (socket s) (connected s) (authenticated s)
    (reconnectAttempts s) (currentActivity s) (messageQueue s) x
    (heartbeatInterval s) (heap s) (timers s) (nextTimer s) (promises s)
    (nextPromise s) (settleCalls s) (written s) (emitted s) (console s)
    (errorListeners s).

Definition set_heartbeatInterval (x : option nat) (s : State) : State :=
  mkState (clientId s) (debug s) (autoReconnect s) (reconnectDelay s)
    (maxReconnectAttempts s) (socket s) (connected s) (authenticated s)
    (reconnectAttempts s) (currentActivity s) (messageQueue s)
    (pendingResponses s) x (heap s) (timers s) (nextTimer s) (promises s)
    (nextPromise s) (settleCalls s) (written s) (emitted s) (console s)
    (errorListeners s).

Definition set_heap (x : gmap nat (list (string * value))) (s : State) : State :=
  mkState (clientId s) (debug s) (autoReconnect s) (reconnectDelay s)
    (maxReconnectAttempts s) (socket s) (connected s) (authenticated s)
    (reconnectAttempts s) (currentActivity s) (messageQueue s)
    (pendingResponses s) (heartbeatInterval s) x (timers s) (nextTimer s)
    (promises s) (nextPromise s) (settleCalls s) (written s) (emitted s)
    (console s) (errorListeners s).

Definition set_timers (x : gmap nat Timer) (s : State) : State :=
  mkState (clientId s) (debug s) (autoReconnect s) (reconnectDelay s)
    (maxReconnectAttempts s) (socket s) (connected s) (authenticated s)
    (reconnectAttempts s) (currentActivity s) (messageQueue s)
    (pendingResponses s) (heartbeatInterval s) (heap s) x (nextTimer s)
    (promises s) (nextPromise s) (settleCalls s) (written s) (emitted s)
    (console s) (errorListeners s).

Definition set_nextTimer (x : nat) (s : State) : State :=
  mkState (clientId s) (debug s) (autoReconnect s) (reconnectDelay s)
    (maxReconnectAttempts s) (socket s) (connected s) (authenticated s)
    (reconnectAttempts s) (currentActivity s) (messageQueue s)
    (pendingResponses s) (heartbeatInterval s) (heap s) (timers s) x
    (promises s) (nextPromise s) (settleCalls s) (written s) (emitted s)
    (console s) (errorListeners s).

Definition set_promises (x : gmap nat Settlement) (s : State) : State :=
  mkState (clientId s) (debug s) (autoReconnect s) (reconnectDelay s)
    (maxReconnectAttempts s) (socket s) (connected s) (authenticated s)
    (reconnectAttempts s) (currentActivity s) (messageQueue s)
    (pendingResponses s) (heartbeatInterval s) (heap s) (timers s)
    (nextTimer s) x (nextPromise s) (settleCalls s) (written s) (emitted s)
    (console s) (errorListeners s).

Definition set_nextPromise (x : nat) (s : State) : State :=
  mkState (clientId s) (debug s) (autoReconnect s) (reconnectDelay s)
    (maxReconnectAttempts s) (socket s) (connected s) (authenticated s)
    (reconnectAttempts s) (currentActivity s) (messageQueue s)
    (pendingResponses s) (heartbeatInterval s) (heap s) (timers s)
    (nextTimer s) (promises s) x (settleCalls s) (written s) (emitted s)
    (console s) (errorListeners s).

Definition set_settleCalls (x : list (nat * Settlement)) (s : State) : State :=
  mkState (clientId s) (debug s) (autoReconnect s) (reconnectDelay s)
    (maxReconnectAttempts s) (socket s) (connected s) (authenticated s)
    (reconnectAttempts s) (currentActivity s) (messageQueue s)
    (pendingResponses s) (heartbeatInterval s) (heap s) (timers s)
    (nextTimer s) (promises s) (nextPromise s) x (written s) (emitted s)
    (console s) (errorListeners s).

Definition set_written (x : list Buffer) (s : State) : State :=
  mkState (clientId s) (debug s) (autoReconnect s) (reconnectDelay s)
    (maxReconnectAttempts s) (socket s) (connected s) (authenticated s)
    (reconnectAttempts s) (currentActivity s) (messageQueue s)
    (pendingResponses s) (heartbeatInterval s) (heap s) (timers s)
    (nextTimer s) (promises s) (nextPromise s) (settleCalls s) x (emitted s)
    (console s) (errorListeners s).

Definition set_emitted (x : list Notification) (s : State) : State :=
  mkState (clientId s) (debug s) (autoReconnect s) (reconnectDelay s)
    (maxReconnectAttempts s) (socket s) (connected s) (authenticated s)
    (reconnectAttempts s) (currentActivity s) (messageQueue s)
    (pendingResponses s) (heartbeatInterval s) (heap s) (timers s)
    (nextTimer s) (promises s) (nextPromise s) (settleCalls s) (written s) x
    (console s) (errorListeners s).

Definition set_console (x : list (Level * string)) (s : State) : State :=
  mkState (clientId s) (debug s) (autoReconnect s) (reconnectDelay s)
    (maxReconnectAttempts s) (socket s) (connected s) (authenticated s)
    (reconnectAttempts s) (currentActivity s) (messageQueue s)
    (pendingResponses s) (heartbeatInterval s) (heap s) (timers s)
    (nextTimer s) (promises s) (nextPromise s) (settleCalls s) (written s)
    (emitted s) x (errorListeners s).

(** ** Synchronous blocks: state passing with exceptions *)

Definition M (A : Type) : Type := State -> completion A * State.

Definition ret {A} (a : A) : M A := fun s => (Normal a, s).

Definition throw {A} (e : Error) : M A := fun s => (Thrown e, s).

Definition bind {A B} (m : M A) (k : A -> M B) : M B :=
  fun s =>
    match m s with
    | (Normal a, s') => k a s'
    | (Thrown e, s') => (Thrown e, s')
    end.

(** [try { m } catch (e) { handler e }]. *)
Definition try_catch {A} (m : M A) (handler : Error -> M A) : M A :=
  fun s =>
    match m s with
    | (Normal a, s') => (Normal a, s')
    | (Thrown e, s') => handler e s'
    end.

Definition gets {A} (f : State -> A) : M A := fun s => (Normal (f s), s).

Definition modify (f : State -> State) : M unit := fun s => (Normal tt, f s).

Definition lift {A} (c : completion A) : M A := fun s => (c, s).

Declare Scope m_scope.
Delimit Scope m_scope with M.
Bind Scope m_scope with M.
Notation "x ← y ; z" := (bind y (fun x => z))
  (at level 20, y at level 100, z at level 200, only parsing) : m_scope.
Notation "x ;; z" := (bind x (fun _ => z))
  (at level 100, z at level 200, only parsing, right associativity) : m_scope.

(** A block that contains a loop may not return: [None] is "still running
    when the fuel ran out". *)
Definition run_result (A : Type) : Type := option (completion A * State).

(** ** A small JSON printer and parser

    The engine takes [JSON.stringify] and [JSON.parse] from the host.  This
    module is a stand-in for them on the fragment without escapes, fractions
    or white space, so that the engine can be run on concrete frames. *)

Module MiniJSON.

Definition dquote : ascii := ascii_of_nat 34.

Definition quoted (s : string) : string :=
  String dquote (s +:+ String dquote EmptyString).

Fixpoint print (v : value) : string :=
  match v with
  | VUndefined | VNull => "null"
  | VBool true => "true"
  | VBool false => "false"
  | VNum n => pretty n
  | VStr s => quoted s
  | VDate ms => quoted (pretty ms)
  | VArr elems =>
      "[" +:+
      (fix items (l : list value) : string :=
         match l with
         | [] => EmptyString
         | [x] => print x
         | x :: rest => print x +:+ "," +:+ items rest
         end) elems
      +:+ "]"
  | VObj fields =>
      "{" +:+
      (fix members (first : bool) (l : list (string * value)) : string :=
         match l with
         | [] => EmptyString
         | (_, VUndefined) :: rest => members first rest
         | (k, x) :: rest =>
             (if first then EmptyString else ",") +:+ quoted k +:+ ":"
             +:+ print x +:+ members false rest
         end) true fields
      +:+ "}"
  end.

Definition stringify (v : value) : option string :=
  match v with
  | VUndefined => None
  | _ => Some (print v)
  end.

(** The characters up to the closing quote, and what follows it. *)
Fixpoint scan_string (s : string) : option (string * string) :=
  match s with
  | EmptyString => None
  | String c rest =>
      if Ascii.eqb c dquote then Some (EmptyString, rest)
      else '(body, rest') ← scan_string rest; Some (String c body, rest')
  end.

Definition digit (c : ascii) : option Z :=
  let n := Z.of_nat (nat_of_ascii c) in
  if (48 <=? n) && (n <=? 57) then Some (n - 48) else None.

Fixpoint scan_digits (acc : Z) (s : string) : Z * string :=
  match s with
  | String c rest =>
      match digit c with
      | Some d => scan_digits (10 * acc + d) rest
      | None => (acc, s)
      end
  | EmptyString => (acc, s)
  end.

Definition expect (word : string) (v : value) (s : string)
  : option (value * string) :=
  if String.prefix word s
  then Some (v, String.substring (String.length word)
                  (String.length s - String.length word) s)
  else None.

Fixpoint parse_value (fuel : nat) (s : string) {struct fuel}
  : option (value * string) :=
  match fuel with
  | O => None
  | S fuel' =>
      match s with
      | EmptyString => None
      | String c rest =>
          if Ascii.eqb c "n" then expect "null" VNull s
          else if Ascii.eqb c "t" then expect "true" (VBool true) s
          else if Ascii.eqb c "f" then expect "false" (VBool false) s
          else if Ascii.eqb c dquote then
            '(body, rest') ← scan_string rest; Some (VStr body, rest')
          else if Ascii.eqb c "-" then
            match rest with
            | String d _ =>
                if digit d is Some _ then
                  let '(n, rest') := scan_digits 0 rest in Some (VNum (- n), rest')
                else None
            | EmptyString => None
            end
          else if digit c is Some _ then
            let '(n, rest') := scan_digits 0 s in Some (VNum n, rest')
          else if Ascii.eqb c "[" then
            match rest with
            | String "]" rest' => Some (VArr [], rest')
            | _ =>
                (fix items (n : nat) (acc : list value) (s : string)
                   : option (value * string) :=
                   match n with
                   | O => None
                   | S n' =>
                       '(x, s') ← parse_value fuel' s;
                       match s' with
                       | String "," s'' => items n' (acc ++ [x]) s''
                       | String "]" s'' => Some (VArr (acc ++ [x]), s'')
                       | _ => None
                       end
                   end) fuel' [] rest
            end
          else if Ascii.eqb c "{" then
            match rest with
            | String "}" rest' => Some (VObj [], rest')
            | _ =>
                (fix members (n : nat) (acc : list (string * value))
                   (s : string) : option (value * string) :=
                   match n with
                   | O => None
                   | S n' =>
                       match s with
                       | String q s1 =>
                           if Ascii.eqb q dquote then
                             '(k, s2) ← scan_string s1;
                             match s2 with
                             | String ":" s3 =>
                                 '(x, s4) ← parse_value fuel' s3;
                                 match s4 with
                                 | String "," s5 => members n' (acc ++ [(k, x)]) s5
                                 | String "}" s5 => Some (VObj (acc ++ [(k, x)]), s5)
                                 | _ => None
                                 end
                             | _ => None
                             end
                           else None
                       | EmptyString => None
                       end
                   end) fuel' [] rest
            end
          else None
      end
  end.

Definition parse (text : string) : completion value :=
  match parse_value (S (String.length text)) text with
  | Some (v, EmptyString) => Normal v
  | _ => Thrown (mkError KSyntaxError "Unexpected token in JSON")
  end.

End MiniJSON.

(** ** The engine *)

Section Engine.

(** Host functions: [JSON.stringify] ([None] when it returns [undefined]),
    [JSON.parse] composed with the UTF-8 decoding of [payload.toString()],
    [String] on dates, and [process.pid]. *)
Variable JSON_stringify : value -> option string.
Variable JSON_parse : string -> completion value.
Variable Date_toString : Z -> string.
Variable pid : Z.

Local Open Scope m_scope.

(** *** Logging and notifications *)

(** [log(message, level)]: prints only in debug mode. *)
Definition log (message : string) (level : Level) : M unit :=
  modify (fun s =>
    if debug s then set_console (console s ++ [(level, message)]) s
    else s).

(** [this.emit(...)].  Listeners are the consumer's code and are taken to
    return normally; an ['error'] event without a listener is thrown by
    [EventEmitter]. *)
Definition emit (n : Notification) : M unit :=
  fun s =>
    match n with
    | NError e =>
        if errorListeners s
        then (Normal tt, set_emitted (emitted s ++ [n]) s)
        else (Thrown e, s)
    | _ => (Normal tt, set_emitted (emitted s ++ [n]) s)
    end.

(** The text [`${JSON.stringify(v)}`] of a template literal. *)
Definition stringify_text (v : value) : string :=
  default "undefined" (JSON_stringify v).

(** [`${this.clientId}`] and [this.clientId] as a value. *)
Definition clientId_value (s : State) : value :=
  match clientId s with
  | Some c => VStr c
  | None => VUndefined
  end.

(** *** The constructor *)

(** [new DiscordIPC(options)]: an absent option is [None];
    [options.reconnectDelay || 5000] also replaces a zero.
    [error_listener] tells whether the consumer listens to ['error']. *)
Definition constructor (opt_clientId : option string)
  (opt_debug : option bool) (opt_autoReconnect : option bool)
  (opt_reconnectDelay opt_maxReconnectAttempts : option Z)
  (error_listener : bool) : State :=
  let or_default (o : option Z) (d : Z) :=
    match o with
    | Some z => if z =? 0 then d else z
    | None => d
    end in
  (log "DiscordIPC initialized" LInfo
     {| clientId := opt_clientId;
        debug := default false opt_debug;
        autoReconnect := default true opt_autoReconnect;
        reconnectDelay := or_default opt_reconnectDelay 5000;
        maxReconnectAttempts := or_default opt_maxReconnectAttempts 10;
        socket := None;
        connected := false;
        authenticated := false;
        reconnectAttempts := 0;
        currentActivity := None;
        messageQueue := [];
        pendingResponses := ∅;
        heartbeatInterval := None;
        heap := ∅;
        timers := ∅;
        nextTimer := O;
        promises := ∅;
        nextPromise := O;
        settleCalls := [];
        written := [];
        emitted := [];
        console := [];
        errorListeners := error_listener |}).2.

(** The ['connect'] listener of [tryConnect] followed by the rest of
    [connect()]: the socket is adopted and the attempt counter reset. *)
Definition socket_connect (sock : nat) (path : string) : M unit :=
  modify (set_socket (Some sock));;
  modify (set_connected true);;
  log ("Connected to Discord via " +:+ path) LInfo;;
  modify (set_reconnectAttempts 0);;
  emit NConnect.

(** *** [send(opcode, data)] *)

Definition not_connected : Error :=
  mkError KError "Not connected to Discord".

Definition out_of_range (v : Z) : Error :=
  mkError KRangeError
    ("The value of 'value' is out of range. It must be >= 0 and <= 4294967295. Received "
     +:+ pretty v).

(** [header.writeUInt32LE(v, offset)] as a block. *)
Definition write_u32 (header : Buffer) (v : Z) (offset : nat) : M Buffer :=
  match Buf.writeUInt32LE header v offset with
  | Some header' => ret header'
  | None => throw (out_of_range v)
  end.

(** [this.socket.write(bytes)]. *)
Definition socket_write (bytes : Buffer) : M unit :=
  fun s =>
    match socket s with
    | Some _ => (Normal tt, set_written (written s ++ [bytes]) s)
    | None => (Thrown (JS.cannot_read "write" "null"), s)
    end.

Definition send (opcode : Z) (data : value) : M unit :=
  fun s =>
    if negb (connected s) then
      if autoReconnect s
      then (Normal tt, set_messageQueue (messageQueue s ++ [(opcode, data)]) s)
      else (Thrown not_connected, s)
    else
      (match JSON_stringify data with
       | None =>
           throw (mkError KTypeError
             "The first argument must be of type string or an instance of Buffer, ArrayBuffer, or Array or an Array-like Object. Received undefined")
       | Some text =>
           let payload := Buf.from text in
           let header := Buf.alloc 8 in
           header ← write_u32 header opcode 0;
           header ← write_u32 header (Z.of_nat (length payload)) 4;
           socket_write (header ++ payload);;
           log ("Sent: " +:+ stringify_text data) LInfo
       end) s.

(** *** The request correlator *)

(** [resolve] / [reject] of the promise [p]: only the first call settles
    it; every call is recorded. *)
Definition settle (p : nat) (o : Settlement) : M unit :=
  modify (fun s =>
    let s' := set_settleCalls (settleCalls s ++ [(p, o)]) s in
    match promises s !! p with
    | None => set_promises (<[p := o]> (promises s)) s'
    | Some _ => s'
    end).

Definition setTimeout (callback : Timer) : M nat :=
  fun s =>
    let t := nextTimer s in
    (Normal t, set_nextTimer (S t) (set_timers (<[t := callback]> (timers s)) s)).

Definition clearTimeout (t : nat) : M unit :=
  modify (fun s => set_timers (delete t (timers s)) s).

Definition timed_out (cmd : string) : Error :=
  mkError KError ("Command " +:+ cmd +:+ " timed out").

(** [sendCommand(cmd, args, timeout)], with the nonce [createNonce()]
    returned.  The result is the promise; an exception of the executor
    (from [send]) rejects it. *)
Definition sendCommand (cmd : string) (args : value) (timeout : Z)
  (nonce : string) : M nat :=
  let message :=
    VObj [("cmd", VStr cmd); ("nonce", VStr nonce); ("args", args)] in
  p ← gets nextPromise;
  modify (set_nextPromise (S p));;
  try_catch
    (timeoutId ← setTimeout (TCommandTimeout nonce cmd p timeout);
     modify (fun s =>
       set_pendingResponses
         (<[nonce := mkCallback timeoutId p]> (pendingResponses s)) s);;
     send 1 message)
    (fun e => settle p (Rejected e));;
  ret p.

(** The body of the timer callback of [sendCommand]. *)
Definition command_timeout (nonce cmd : string) (p : nat) : M unit :=
  modify (fun s =>
    set_pendingResponses (delete nonce (pendingResponses s)) s);;
  settle p (Rejected (timed_out cmd)).

(** A timer fires: a one-shot timer leaves the table and runs its
    callback.  The retry chain of a reconnect timer and the heartbeat
    tick are other blocks, not run here. *)
Definition fire_timer (t : nat) : M unit :=
  fun s =>
    match timers s !! t with
    | Some (TCommandTimeout nonce cmd p _) =>
        (clearTimeout t;; command_timeout nonce cmd p) s
    | _ => (Normal tt, s)
    end.

(** The closure [(response) => { ... }] stored by [sendCommand]. *)
Definition on_response (cb : Callback) (response : value) : M unit :=
  clearTimeout (cb_timeoutId cb);;
  evt ← lift (JS.get response "evt");
  if JS.is_str evt "ERROR" then
    data ← lift (JS.get response "data");
    m ← lift (JS.get data "message");
    settle (cb_promise cb) (Rejected (JS.new_Error Date_toString m))
  else
    settle (cb_promise cb) (Resolved response).

(** [message.nonce && this.pendingResponses.has(message.nonce)]: the keys
    of the map are the strings [sendCommand] put there. *)
Definition pending_key (nonce : value) (s : State) : option string :=
  if JS.truthy nonce then
    match nonce with
    | VStr n => if decide (is_Some (pendingResponses s !! n)) then Some n else None
    | _ => None
    end
  else None.

Definition handleDispatch (message : value) : M unit :=
  evt ← lift (JS.get message "evt");
  data ← lift (JS.get message "data");
  if JS.is_str evt "READY" then emit (NReady data)
  else if JS.is_str evt "ERROR" then
    m ← lift (JS.get data "message");
    emit (NError (JS.new_Error Date_toString m))
  else emit (NDispatch evt data).

Definition handleMessage (opcode : Z) (payload : Buffer) : M unit :=
  try_catch
    (message ← lift (JSON_parse (Buf.toString payload));
     log ("Received: " +:+ stringify_text message) LInfo;;
     nonce ← lift (JS.get message "nonce");
     key ← gets (pending_key nonce);
     match key with
     | Some n =>
         resolve ← gets (fun s => pendingResponses s !! n);
         modify (fun s =>
           set_pendingResponses (delete n (pendingResponses s)) s);;
         match resolve with
         | Some cb => on_response cb message
         | None => ret tt
         end
     | None =>
         cmd ← lift (JS.get message "cmd");
         if JS.is_str cmd "DISPATCH" then handleDispatch message
         else emit (NMessage message)
     end)
    (fun error =>
       log ("Failed to parse message: " +:+ err_message error) LError).

(** [this.handleMessage(opcode, payload)] as the decoder calls it: the
    state it leaves. *)
Definition deliver (opcode : Z) (payload : Buffer) (s : State) : State :=
  (handleMessage opcode payload s).2.

(** The ['data'] listener of [setupSocketHandlers] on the client. *)
Definition socket_data (chunk : Buffer) (bs : Buffer * State)
  : Buffer * State :=
  on_data deliver chunk bs.

(** *** The outbound queue *)

(** [processQueue()]: one unit of fuel per iteration of the [while]
    loop. *)
Fixpoint processQueue (fuel : nat) (s : State) {struct fuel}
  : run_result unit :=
  match messageQueue s with
  | [] => Some (Normal tt, s)
  | (opcode, data) :: rest =>
      match fuel with
      | O => None
      | S fuel' =>
          (* const [opcode, data] = this.messageQueue.shift() *)
          match send opcode data (set_messageQueue rest s) with
          | (Normal _, s') => processQueue fuel' s'
          | (Thrown e, s') => Some (Thrown e, s')
          end
      end
  end.

(** *** [authenticate(accessToken)] *)

(** [!accessToken] is false: a non-empty string was passed. *)
Definition has_token (accessToken : option string) : bool :=
  match accessToken with
  | Some t => negb (String.eqb t EmptyString)
  | None => false
  end.

(** Up to the [await]: the correlated command is issued. *)
Definition authenticate_begin (accessToken : option string)
  (nonce : string) : M nat :=
  if has_token accessToken then
    sendCommand "AUTHENTICATE"
      (VObj [("access_token", VStr (default EmptyString accessToken))])
      10000 nonce
  else
    cid ← gets clientId_value;
    sendCommand "AUTHORIZE"
      (VObj [("client_id", cid); ("scopes", VArr [VStr "rpc"])])
      15000 nonce.

Definition invalid_client_id (s : State) : Error :=
  mkError KError
    ("Invalid Client ID: " +:+ JS.to_string Date_toString (clientId_value s)
     +:+ ". Please check your Discord Application ID.").

(** After the [await], up to and including [this.emit('authenticated')];
    [o] is how the awaited promise was settled. *)
Definition authenticate_settled (accessToken : option string)
  (o : Settlement) : M unit :=
  (if has_token accessToken then
     match o with
     | Resolved _ => ret tt
     | Rejected error => throw error
     end
   else
     match o with
     | Resolved _ => log "Authorization successful" LInfo
     | Rejected error =>
         log ("Authorization failed: " +:+ err_message error) LWarn;;
         if JS.includes "Invalid Client ID" (err_message error)
            || JS.includes "Unknown Application" (err_message error)
         then
           e ← gets invalid_client_id;
           throw e
         else
           log "Continuing without full authentication - some features may be limited"
               LWarn
     end);;
  modify (set_authenticated true);;
  emit NAuthenticated.

(** The whole continuation: the block above, then [processQueue()]. *)
Definition authenticate_resume (fuel : nat) (accessToken : option string)
  (o : Settlement) (s : State) : run_result unit :=
  match authenticate_settled accessToken o s with
  | (Normal _, s') => processQueue fuel s'
  | (Thrown e, s') => Some (Thrown e, s')
  end.

(** *** [setActivity(activity)] *)

(** [typeof v === 'object']. *)
Definition typeof_object (v : value) : bool :=
  match v with
  | VNull | VDate _ | VArr _ | VObj _ => true
  | _ => false
  end.

(** [processed.timestamps.start && typeof processed.timestamps.start ===
    'object'] (or [.end]) on the properties of a [timestamps] object. *)
Definition needs_conversion (k : string) (stamps : list (string * value))
  : bool :=
  JS.truthy (JS.lookup_field k stamps)
  && typeof_object (JS.lookup_field k stamps).

(** The conversion of [processed.timestamps.start] (or [.end]):
    [Math.floor(d.getTime() / 1000)] on a date; an array or a plain object
    has no [getTime]. *)
Definition convert_stamp (k : string) (stamps : list (string * value))
  : completion (list (string * value)) :=
  if needs_conversion k stamps then
    match JS.lookup_field k stamps with
    | VDate ms => Normal (JS.assign_field k (VNum (ms / 1000)) stamps)
    | _ =>
        Thrown (mkError KTypeError
          ("processed.timestamps." +:+ k +:+ ".getTime is not a function"))
    end
  else Normal stamps.

(** The two conversions on a [timestamps] object in the store: each
    assignment is made in the object itself, and stays if a later step
    throws. *)
Definition convert_shared (l : nat) : M unit :=
  stamps ← gets (fun s => heap s !! l);
  match stamps with
  | None => ret tt
  | Some stamps =>
      stamps ← lift (convert_stamp "start" stamps);
      modify (fun s => set_heap (<[l := stamps]> (heap s)) s);;
      stamps ← lift (convert_stamp "end" stamps);
      modify (fun s => set_heap (<[l := stamps]> (heap s)) s)
  end.

(** The same on a [timestamps] property that nobody else holds. *)
Definition convert_owned (processed : list (string * value))
  : completion (list (string * value)) :=
  match JS.lookup_field "timestamps" processed with
  | VObj stamps =>
      match convert_stamp "start" stamps with
      | Normal stamps =>
          match convert_stamp "end" stamps with
          | Normal stamps =>
              Normal (JS.assign_field "timestamps" (VObj stamps) processed)
          | Thrown e => Thrown e
          end
      | Thrown e => Thrown e
      end
  | _ => Normal processed
  end.

(** [processed.buttons.length > 2], for a numeric length. *)
Definition more_than_two (buttons : value) : bool :=
  match buttons with
  | VArr elems => (2 <? Z.of_nat (length elems))
  | VStr text => (2 <? Z.of_nat (JS.utf16_length text))
  | VObj fields =>
      match JS.lookup_field "length" fields with
      | VNum n => 2 <? n
      | _ => false
      end
  | _ => false
  end.

(** The first own property of [assets] that is truthy and not a string. *)
Fixpoint bad_asset (fields : list (string * value)) : option string :=
  match fields with
  | [] => None
  | (k, v) :: rest =>
      if JS.truthy v && negb (match v with VStr _ => true | _ => false end)
      then Some k
      else bad_asset rest
  end.

Definition asset_entries (assets : value) : list (string * value) :=
  match assets with
  | VObj fields => fields
  | VArr elems => imap (fun i v => (pretty i, v)) elems
  | _ => []
  end.

(** [processActivity(activity)]: the shallow copy [{...activity}] shares
    the [timestamps] object with [activity]. *)
Definition processActivity (activity : Activity) : M Activity :=
  cid ← gets clientId_value;
  let processed := act_fields activity in
  let processed :=
    if JS.truthy (JS.lookup_field "application_id" processed) then processed
    else JS.assign_field "application_id" cid processed in
  processed ←
    match act_stamps activity with
    | Some l => convert_shared l;; ret processed
    | None => lift (convert_owned processed)
    end;
  (let buttons := JS.lookup_field "buttons" processed in
   if JS.truthy buttons && more_than_two buttons
   then throw (mkError KError "Maximum 2 buttons allowed")
   else ret tt);;
  (let assets := JS.lookup_field "assets" processed in
   if JS.truthy assets then
     match bad_asset (asset_entries assets) with
     | Some key =>
         throw (mkError KError ("Asset " +:+ key +:+ " must be a string"))
     | None => ret tt
     end
   else ret tt);;
  ret (mkActivity processed (act_stamps activity)).

(** An activity as [JSON.stringify] sees it, given the store (the position
    of [timestamps] among the properties is not kept). *)
Definition activity_value (store : gmap nat (list (string * value)))
  (activity : Activity) : value :=
  VObj match act_stamps activity with
       | Some l =>
           JS.assign_field "timestamps" (VObj (default [] (store !! l)))
             (act_fields activity)
       | None => act_fields activity
       end.

(** Up to the [await]: [processActivity] may throw; otherwise the
    command is issued and the function waits on its promise. *)
Definition setActivity_begin (activity : Activity) (nonce : string)
  : M (nat * Activity) :=
  processedActivity ← processActivity activity;
  store ← gets heap;
  p ← sendCommand "SET_ACTIVITY"
        (VObj [("pid", VNum pid);
               ("activity", activity_value store processedActivity)])
        10000 nonce;
  ret (p, processedActivity).

(** After the [await], inside the [try]. *)
Definition setActivity_resume (processedActivity : Activity)
  (o : Settlement) : M unit :=
  try_catch
    (match o with
     | Resolved _ =>
         modify (set_currentActivity (Some processedActivity));;
         emit (NActivitySet processedActivity)
     | Rejected error => throw error
     end)
    (fun error =>
       log ("Failed to set activity: " +:+ err_message error) LError;;
       throw error).

(** *** Reconnection and shutdown *)

Definition clearHeartbeat : M unit :=
  h ← gets heartbeatInterval;
  match h with
  | Some t => clearTimeout t;; modify (set_heartbeatInterval None)
  | None => ret tt
  end.

(** [Math.min(reconnectDelay * Math.pow(2, reconnectAttempts - 1), 30000)]
    on integers; [reconnectAttempts] is at least 1 here. *)
Definition backoff_delay (s : State) : Z :=
  Z.min (reconnectDelay s * 2 ^ (reconnectAttempts s - 1)) 30000.

Definition scheduleReconnect : M unit :=
  modify (fun s => set_reconnectAttempts (reconnectAttempts s + 1) s);;
  delay ← gets backoff_delay;
  attempts ← gets reconnectAttempts;
  log ("Scheduling reconnect attempt " +:+ pretty attempts +:+ " in "
       +:+ pretty delay +:+ "ms") LInfo;;
  _ ← setTimeout (TReconnect delay);
  ret tt.

(** The ['close'] listener of [setupSocketHandlers]. *)
Definition socket_close : M unit :=
  log "Socket closed" LInfo;;
  modify (set_connected false);;
  modify (set_authenticated false);;
  clearHeartbeat;;
  emit NDisconnect;;
  again ← gets (fun s =>
    autoReconnect s && (reconnectAttempts s <? maxReconnectAttempts s));
  if again then scheduleReconnect else ret tt.

Definition disconnect : M unit :=
  modify (set_autoReconnect false);;
  clearHeartbeat;;
  modify (set_socket None);;
  modify (set_connected false);;
  modify (set_authenticated false);;
  modify (set_pendingResponses ∅);;
  modify (set_messageQueue []);;
  emit NDisconnect;;
  log "Disconnected from Discord" LInfo.

(** The decoder with the first two steps of [handleMessage] as its
    handler: the opcode and the parsed payload of every frame. *)
Definition parse_frame (opcode : Z) (payload : Buffer)
  (seen : list (Z * completion value)) : list (Z * completion value) :=
  seen ++ [(opcode, JSON_parse (Buf.toString payload))].

(** *** Runs of the event loop *)

(** The blocks that can run between the issue of a command and its
    outcome. *)
Inductive event : Type :=
  | EFrame (opcode : Z) (payload : Buffer)
  | ETimer (t : nat)
  | ESendCommand (cmd : string) (args : value) (timeout : Z) (nonce : string)
  | ESend (opcode : Z) (data : value)
  | ESetActivityDone (processedActivity : Activity) (o : Settlement)
  | EClose
  | EDisconnect.

Definition step (s : State) (ev : event) : State :=
  match ev with
  | EFrame opcode payload => (handleMessage opcode payload s).2
  | ETimer t => (fire_timer t s).2
  | ESendCommand cmd args timeout nonce =>
      (sendCommand cmd args timeout nonce s).2
  | ESend opcode data => (send opcode data s).2
  | ESetActivityDone processedActivity o =>
      (setActivity_resume processedActivity o s).2
  | EClose => (socket_close s).2
  | EDisconnect => (disconnect s).2
  end.

Definition run (evs : list event) (s : State) : State :=
  fold_left step evs s.

End Engine.

(** ** Vocabulary of the statements *)

Section Vocabulary.

Variable JSON_stringify : value -> option string.

(** The delays of [n] successive calls of [scheduleReconnect], read off
    the timers they arm. *)
Fixpoint scheduled_delays (n : nat) (s : State) : list Z :=
  match n with
  | O => []
  | S n' =>
      let s' := (scheduleReconnect s).2 in
      match timers s' !! nextTimer s with
      | Some (TReconnect delay) => delay :: scheduled_delays n' s'
      | _ => []
      end
  end.

(** The bytes of a queue entry on the wire, when it has any: the data
    must print and both header fields must be [uint32]. *)
Definition encoded (entry : Z * value) : option Buffer :=
  match JSON_stringify entry.2 with
  | Some text =>
      if decide (0 <= entry.1 <= Buf.uint32_max
                 /\ Z.of_nat (length (Buf.from text)) <= Buf.uint32_max)
      then Some (Buf.frame_bytes entry.1 (Buf.from text))
      else None
  | None => None
  end.

End Vocabulary.

(** Three views of the state: what [send] consults, what the correlator
    owns, and the session flags with the notification trace. *)
Definition transport (s : State) : bool * bool * option nat * bool :=
  (connected s, autoReconnect s, socket s, debug s).

Definition correlator (s : State)
  : gmap string Callback * gmap nat Timer * nat * gmap nat Settlement * nat
    * list (nat * Settlement) * option nat :=
  (pendingResponses s, timers s, nextTimer s, promises s, nextPromise s,
   settleCalls s, heartbeatInterval s).

Definition session (s : State)
  : option string * bool * option Activity * Z * Z * Z * list Notification
    * bool :=
  (clientId s, authenticated s, currentActivity s, reconnectAttempts s,
   reconnectDelay s, maxReconnectAttempts s, emitted s, errorListeners s).

(** The console lines of the degraded path of [authenticate]. *)
Definition degraded_warnings (s : State) (error : Error)
  : list (Level * string) :=
  if debug s then
    [(LWarn, "Authorization failed: " +:+ err_message error);
     (LWarn, "Continuing without full authentication - some features may be limited")]
  else [].

(** *** The life of one correlated command *)

Section Correlation.

Variable JSON_parse : string -> completion value.
Variable Date_toString : Z -> string.

(** What the closure stored by [sendCommand] does with a response: reject
    with [response.data.message] on an ERROR event, resolve otherwise;
    [None] when reading [response.data.message] throws, in which case the
    promise is left as it was. *)
Definition response_outcome (response : value) : option Settlement :=
  match JS.get response "evt" with
  | Normal evt =>
      if JS.is_str evt "ERROR" then
        match JS.get response "data" with
        | Normal data =>
            match JS.get data "message" with
            | Normal m => Some (Rejected (JS.new_Error Date_toString m))
            | Thrown _ => None
            end
        | Thrown _ => None
        end
      else Some (Resolved response)
  | Thrown _ => None
  end.

(** The pending entry an inbound payload is matched to, if any. *)
Definition matched (payload : Buffer) (s : State)
  : option (string * Callback * value) :=
  match JSON_parse (Buf.toString payload) with
  | Normal message =>
      match JS.get message "nonce" with
      | Normal nonce =>
          match pending_key nonce s with
          | Some n =>
              match pendingResponses s !! n with
              | Some cb => Some (n, cb, message)
              | None => None
              end
          | None => None
          end
      | Thrown _ => None
      end
  | Thrown _ => None
  end.

(** A command as [sendCommand] registered it. *)
Record request : Type := mkRequest {
    rq_nonce : string;
    rq_cmd : string;
    rq_delay : Z;
    rq_timer : nat;
    rq_promise : nat
  }.

(** The first call of [resolve] / [reject] settles a promise. *)
Definition settled_with (p : nat) (o : Settlement)
  (ps : gmap nat Settlement) : gmap nat Settlement :=
  match ps !! p with
  | None => <[p := o]> ps
  | Some _ => ps
  end.

(** The calls of [resolve] / [reject] made so far on a promise. *)
Definition calls_for (p : nat) (s : State) : list (nat * Settlement) :=
  filter (fun c => c.1 = p) (settleCalls s).

(** The three ways a command can end, each with its cause in the run. *)
Inductive outcome_of (r : request) (evs : list event) : Settlement -> Prop :=
  | resolved_by_response (opcode : Z) (payload : Buffer) (response : value) :
      In (EFrame opcode payload) evs ->
      JSON_parse (Buf.toString payload) = Normal response ->
      JS.get response "nonce" = Normal (VStr (rq_nonce r)) ->
      response_outcome response = Some (Resolved response) ->
      outcome_of r evs (Resolved response)
  | rejected_by_remote (opcode : Z) (payload : Buffer)
      (response data m : value) :
      In (EFrame opcode payload) evs ->
      JSON_parse (Buf.toString payload) = Normal response ->
      JS.get response "nonce" = Normal (VStr (rq_nonce r)) ->
      JS.get response "evt" = Normal (VStr "ERROR") ->
      JS.get response "data" = Normal data ->
      JS.get data "message" = Normal m ->
      outcome_of r evs (Rejected (JS.new_Error Date_toString m))
  | rejected_by_timeout :
      In (ETimer (rq_timer r)) evs ->
      outcome_of r evs (Rejected (timed_out (rq_cmd r))).

(** A response to the command is one its closure can read: an ERROR
    event carries a [data] that is neither [undefined] nor [null]. *)
Definition readable_answer (r : request) (ev : event) : Prop :=
  match ev with
  | EFrame _ payload =>
      forall response,
        JSON_parse (Buf.toString payload) = Normal response ->
        JS.get response "nonce" = Normal (VStr (rq_nonce r)) ->
        is_Some (response_outcome response)
  | _ => True
  end.

(** How the timers, the pending entries and the heartbeat handle fit
    together in every state the client reaches. *)
Record well_formed (s : State) : Prop := mkWellFormed {
    wf_timers :
      forall t x, timers s !! t = Some x -> (t < nextTimer s)%nat;
    wf_promises :
      forall t n c p d,
        timers s !! t = Some (TCommandTimeout n c p d) ->
        (p < nextPromise s)%nat;
    wf_pending :
      forall n cb,
        pendingResponses s !! n = Some cb ->
        exists c d,
          timers s !! cb_timeoutId cb
          = Some (TCommandTimeout n c (cb_promise cb) d);
    wf_one_timer :
      forall t1 t2 n1 c1 d1 n2 c2 d2 p,
        timers s !! t1 = Some (TCommandTimeout n1 c1 p d1) ->
        timers s !! t2 = Some (TCommandTimeout n2 c2 p d2) ->
        t1 = t2;
    wf_heartbeat :
      forall t,
        heartbeatInterval s = Some t ->
        (t < nextTimer s)%nat
        /\ forall n c p d, timers s !! t <> Some (TCommandTimeout n c p d);
    wf_settled :
      forall p o, promises s !! p = Some o -> (p < nextPromise s)%nat;
    wf_calls :
      forall p o, In (p, o) (settleCalls s) -> (p < nextPromise s)%nat
  }.

(** The command is waiting (no call on its promise, its timer armed), or
    it has ended in exactly one call, for one of the three causes. *)
Definition waiting (r : request) (s : State) : Prop :=
  promises s !! rq_promise r = None
  /\ calls_for (rq_promise r) s = []
  /\ timers s !! rq_timer r
     = Some (TCommandTimeout (rq_nonce r) (rq_cmd r) (rq_promise r)
                             (rq_delay r)).

Definition ended (r : request) (evs : list event) (s : State)
  (o : Settlement) : Prop :=
  promises s !! rq_promise r = Some o
  /\ calls_for (rq_promise r) s = [(rq_promise r, o)]
  /\ (forall t n c d,
        timers s !! t <> Some (TCommandTimeout n c (rq_promise r) d))
  /\ outcome_of r evs o.

Definition tracked (r : request) (evs : list event) (s : State) : Prop :=
  (rq_promise r < nextPromise s)%nat
  /\ (waiting r s \/ exists o, ended r evs s o).

(** The message [{ cmd, nonce, args }] of a command. *)
Definition command_message (r : request) (args : value) : value :=
  VObj [("cmd", VStr (rq_cmd r)); ("nonce", VStr (rq_nonce r));
        ("args", args)].

(** The state in which the executor of [sendCommand] calls [send]: the
    promise is created, the timer armed and the closure stored under the
    nonce. *)
Definition registered (r : request) (s : State) : State :=
  set_pendingResponses
    (<[rq_nonce r := mkCallback (rq_timer r) (rq_promise r)]>
       (pendingResponses s))
    (set_nextTimer (S (rq_timer r))
       (set_timers
          (<[rq_timer r := TCommandTimeout (rq_nonce r) (rq_cmd r)
                             (rq_promise r) (rq_delay r)]> (timers s))
          (set_nextPromise (S (rq_promise r)) s))).

(** The entry of the pending map under the nonce of [r] is the closure
    [sendCommand] stored for [r]. *)
Definition own_entry (r : request) (s : State) : Prop :=
  pendingResponses s !! rq_nonce r
  = Some (mkCallback (rq_timer r) (rq_promise r)).

(** No outstanding command carries the nonce [n]: what [createNonce()] is
    relied on for. *)
Definition nonce_unused (n : string) (s : State) : Prop :=
  forall t c p d, timers s !! t <> Some (TCommandTimeout n c p d).

(** The blocks that leave the entry of a waiting command in the map: all
    but [disconnect()] and a later command under the same nonce. *)
Definition leaves_entry (r : request) (ev : event) : Prop :=
  match ev with
  | EDisconnect => False
  | ESendCommand _ _ _ n => n <> rq_nonce r
  | _ => True
  end.

End Correlation.

(** The [catch] clause of [handleMessage]. *)
Definition parse_failed (error : Error) : M unit :=
  log ("Failed to parse message: " +:+ err_message error) LError.

(** A [timestamps] object with nothing left to convert: neither [start]
    nor [end] is a date or another object.  [processActivity] leaves the
    object of every activity it returns in this state. *)
Definition stamps_settled (stamps : list (string * value)) : Prop :=
  needs_conversion "start" stamps = false
  /\ needs_conversion "end" stamps = false.

(** The [timestamps] object of [currentActivity], when it is shared, is
    settled. *)
Definition current_settled (s : State) : Prop :=
  forall cur l stamps,
    currentActivity s = Some cur ->
    act_stamps cur = Some l ->
    heap s !! l = Some stamps ->
    stamps_settled stamps.

(** The timer table once [clearHeartbeat] has run. *)
Definition without_heartbeat (s : State) : gmap nat Timer :=
  match heartbeatInterval s with
  | Some t => delete t (timers s)
  | None => timers s
  end.

(** ** Concrete clients and frames

    The inputs at which the statements below are exercised: the engine run
    with the small JSON printer and parser as host functions. *)

Module Sample.

Definition stringify : value -> option string := MiniJSON.stringify.
Definition parse : string -> completion value := MiniJSON.parse.
Definition date_text (ms : Z) : string := pretty ms.

(** [new DiscordIPC({clientId: '1234', debug: true, reconnectDelay: 1000})]
    with a listener on ['error']. *)
Definition fresh : State :=
  constructor (Some "1234") (Some true) None (Some 1000) None true.

(** The same client once a socket is connected. *)
Definition online : State :=
  (socket_connect 3 "/tmp/discord-ipc-0" fresh).2.

(** [new DiscordIPC({clientId: '1234', autoReconnect: false})]. *)
Definition strict : State :=
  constructor (Some "1234") None (Some false) None None true.

(** Three messages submitted while disconnected, the second of which
    cannot be encoded, then the connection. *)
Definition backlog : list (Z * value) :=
  [(1, VObj [("cmd", VStr "SUBSCRIBE")]); (1, VUndefined); (0, VNull)].

Definition queued : State :=
  (socket_connect 3 "/tmp/discord-ipc-0"
     (fold_left (fun s x => (send stringify x.1 x.2 s).2) backlog fresh)).2.

(** Two messages submitted while disconnected, then the connection. *)
Definition parked : State :=
  (socket_connect 3 "/tmp/discord-ipc-0"
     (fold_left (fun s x => (send stringify x.1 x.2 s).2)
        [(1, VObj [("cmd", VStr "SUBSCRIBE")]); (0, VNull)] fresh)).2.

(** The remote does not know the application. *)
Definition unknown_application : Error :=
  mkError KError "Unknown Application (4001)".

Definition user_args : value := VObj [("user_id", VStr "42")].

(** An inbound frame payload. *)
Definition payload_of (message : value) : Buffer :=
  Buf.from (MiniJSON.print message).

Definition user_reply : value :=
  VObj [("cmd", VStr "GET_USER"); ("nonce", VStr "n-1");
        ("data", VObj [("id", VStr "42")])].

Definition invalid_client : value :=
  VObj [("cmd", VStr "AUTHORIZE"); ("nonce", VStr "n-1");
        ("evt", VStr "ERROR");
        ("data", VObj [("code", VNum 4000);
                       ("message", VStr "Invalid Client ID")])].

(** Bytes that are not JSON. *)
Definition garbage : Buffer := Buf.from "{oops".

(** Two frames, and their bytes cut at offsets 3 and 13. *)
Definition two_frames : list (Z * Buffer) :=
  [(1, payload_of user_reply); (0, Buf.from "[1,2]")].

Definition wire : Buffer :=
  concat (map (fun f : Z * Buffer => Buf.frame_bytes f.1 f.2) two_frames).

Definition three_chunks : list Buffer :=
  [take 3 wire; take 10 (drop 3 wire); drop 13 wire].

(** The caller holds a [timestamps] object with a date, and passes an
    activity that refers to it. *)
Definition started : State :=
  set_heap (<[0%nat := [("start", VDate 1700000000500)]]> (heap online))
    online.

Definition playing : Activity :=
  mkActivity [("details", VStr "In a match")] (Some 0%nat).

End Sample.


(** ** The rest of the client

    The methods of [DiscordIPC] around the engine: where the socket is
    looked for and how [connect()] walks the candidates, the ['error']
    listener of the socket, [handshake], the compatibility methods
    ([sendHandshake], [sendAuthorize], [receive]), [clearActivity],
    [subscribe] and [unsubscribe], and the callback of the reconnect
    timer; then the [ActivityBuilder] class. *)

(** *** [getIPCPaths()] *)

Section Paths.

(** [os.platform()] and [process.env]. *)
Variable platform : string.
Variable env : string -> option string.

(** [process.env.NAME || fallback]: a variable that is unset or empty is
    falsy. *)
Definition env_or (name fallback : string) : string :=
  match env name with
  | Some dir => if String.eqb dir EmptyString then fallback else dir
  | None => fallback
  end.

Definition baseDir : string :=
  env_or "XDG_RUNTIME_DIR"
    (env_or "TMPDIR" (env_or "TMP" (env_or "TEMP" "/tmp"))).

(** The path pushed by iteration [i] of the loop. *)
Definition ipc_path (i : nat) : string :=
  if String.eqb platform "win32"
  then "\\.\pipe\discord-ipc-" +:+ pretty i
  else baseDir +:+ "/discord-ipc-" +:+ pretty i.

(** [for (let i = 0; i < 10; i++) paths.push(...)]. *)
Definition getIPCPaths : list string :=
  fold_left (fun paths i => paths ++ [ipc_path i]) (seq 0 10) [].

End Paths.

(** *** [connect()] and [tryConnect(path)] *)

Definition newline : string := String (ascii_of_nat 10) EmptyString.

Definition in_quotes (text : string) : string :=
  String (ascii_of_nat 34) (text +:+ String (ascii_of_nat 34) EmptyString).

(** [getTroubleshootingMessage()]: the template literal, trimmed. *)
Definition getTroubleshootingMessage : string :=
  "Troubleshooting Steps:" +:+ newline
  +:+ "1. Make sure Discord desktop app is running and logged in" +:+ newline
  +:+ "2. Enable Rich Presence in Discord Settings:" +:+ newline
  +:+ "   - Go to Settings > Activity Privacy" +:+ newline
  +:+ "   - Enable "
  +:+ in_quotes "Display current activity as a status message"
  +:+ newline
  +:+ "3. Try restarting Discord completely" +:+ newline
  +:+ "4. Make sure your Discord client is up to date" +:+ newline
  +:+ "5. If using Discord Web, try the desktop app instead" +:+ newline
  +:+ newline
  +:+ "For more help, visit: https://support.discord.com/".

(** How the promise of [tryConnect(path)] is settled: the ['connect']
    listener resolves it, the ['error'] listener or the timer of two
    seconds (with the error "Connection timeout") rejects it. *)
Inductive Attempt : Type :=
  | Accepted (sock : nat)
  | Refused (error : Error).

(** The error [connect()] throws after the loop;
    [lastError?.message] prints as [undefined] when no path was tried. *)
Definition could_not_connect (lastError : option Error) : Error :=
  mkError KError
    ("Could not connect to Discord: "
     +:+ match lastError with
         | Some error => err_message error
         | None => "undefined"
         end
     +:+ newline +:+ newline +:+ getTroubleshootingMessage).

(** The state after [log] was called with each of [lines]. *)
Definition logged (lines : list (Level * string)) (s : State) : State :=
  if debug s then set_console (console s ++ lines) s else s.

Section Connect.

Local Open Scope m_scope.

(** What each candidate path does when it is tried. *)
Variable tryConnect : string -> Attempt.

(** The [for (const path of paths)] loop of [connect()] and the [throw]
    after it.  On the first path that accepts, the ['connect'] listener
    and the statements after the [await] run ([socket_connect]) and the
    function returns. *)
Fixpoint connect_loop (paths : list string) (lastError : option Error)
  : M unit :=
  match paths with
  | [] => throw (could_not_connect lastError)
  | path :: rest =>
      match tryConnect path with
      | Accepted sock => socket_connect sock path
      | Refused error =>
          log ("Failed to connect to " +:+ path +:+ ": "
               +:+ err_message error) LWarn;;
          connect_loop rest (Some error)
      end
  end.

(** The console lines of the paths that refuse, and the last error. *)
Definition refusal_lines (paths : list string) : list (Level * string) :=
  omap (fun path =>
          match tryConnect path with
          | Refused error =>
              Some (LWarn, "Failed to connect to " +:+ path +:+ ": "
                           +:+ err_message error)
          | Accepted _ => None
          end) paths.

Definition last_refusal (paths : list string) : option Error :=
  last (omap (fun path =>
                match tryConnect path with
                | Refused error => Some error
                | Accepted _ => None
                end) paths).

Definition refuses (path : string) : Prop :=
  exists error, tryConnect path = Refused error.

(** [connect()], run to its end with nothing else in between; [paths] is
    what [getIPCPaths()] returned. *)
Definition connect (paths : list string) : M unit :=
  c ← gets connected;
  if c then log "Already connected" LInfo
  else connect_loop paths None.

End Connect.

(** *** The ['error'] listener of [setupSocketHandlers] *)

Definition socket_error (error : Error) : M unit :=
  bind (log ("Socket error: " +:+ err_message error) LError)
       (fun _ => emit (NError error)).

(** *** [handshake()] and the compatibility senders *)

Section Handshake.

Local Open Scope m_scope.

Variable JSON_stringify : value -> option string.

(** [startHeartbeat()]: the handle of the new interval replaces the one
    in [heartbeatInterval], which is not cleared first.  The interval stays
    in the timer table when it ticks; the tick stores [Date.now()] in
    [lastHeartbeat], a field nothing reads. *)
Definition startHeartbeat : M unit :=
  t ← setTimeout THeartbeat;
  modify (set_heartbeatInterval (Some t)).

(** [{ v: 1, client_id: this.clientId }]. *)
Definition handshake_message (s : State) : value :=
  VObj [("v", VNum 1); ("client_id", clientId_value s)].

Definition client_id_required : Error :=
  mkError KError "Client ID is required".

Definition handshake : M unit :=
  cid ← gets clientId_value;
  if negb (JS.truthy cid) then throw client_id_required
  else
    message ← gets handshake_message;
    send JSON_stringify 0 message;;
    startHeartbeat.

Definition sendHandshake : M unit :=
  message ← gets handshake_message;
  send JSON_stringify 0 message.

(** The message of [sendAuthorize(nonce)]. *)
Definition authorize_message (nonce : value) (s : State) : value :=
  VObj [("cmd", VStr "AUTHORIZE"); ("nonce", nonce);
        ("args", VObj [("client_id", clientId_value s);
                       ("scopes", VArr [VStr "rpc"; VStr "identify"])])].

Definition sendAuthorize (nonce : value) : M unit :=
  message ← gets (authorize_message nonce);
  send JSON_stringify 1 message.

End Handshake.

(** *** [receive()] *)

(** The variables of one call of [receive()]: the socket its ['data']
    listener [onData] is attached to (none once it is removed), the
    closure variables [buffer] and [opcode] with [payloadLength] (set
    together, when the header is read), and the promise it returned. *)
Record Receiver : Type := mkReceiver {
    rc_socket : option nat;
    rc_buffer : Buffer;
    rc_header : option (Z * Z);
    rc_promise : option Settlement
  }.

(** [resolve] / [reject] of the promise: the first call settles it. *)
Definition rc_settle (o : Settlement) (r : Receiver) : Receiver :=
  mkReceiver (rc_socket r) (rc_buffer r) (rc_header r)
    (match rc_promise r with
     | None => Some o
     | Some first => Some first
     end).

(** [this.socket.removeListener('data', onData)] when [this.socket] is
    [this_socket]: the listener goes if it sits on that socket. *)
Definition removeListener (this_socket : option nat) (r : Receiver)
  : completion unit * Receiver :=
  match this_socket with
  | None => (Thrown (JS.cannot_read "removeListener" "null"), r)
  | Some k =>
      (Normal tt,
       if decide (rc_socket r = Some k)
       then mkReceiver None (rc_buffer r) (rc_header r) (rc_promise r)
       else r)
  end.

Definition receive_timed_out : Error := mkError KError "Receive timeout".

(** [receive()] up to its [return]: the promise is rejected at once when
    the client is not connected; otherwise the listener is attached and a
    timer of five seconds armed. *)
Definition receive (s : State) : Receiver :=
  if negb (connected s)
     || match socket s with Some _ => false | None => true end
  then mkReceiver None [] None (Some (Rejected not_connected))
  else mkReceiver (socket s) [] None None.

Section Receive.

Variable JSON_parse : string -> completion value.

(** [try { resolve(JSON.parse(payload)) } catch (e) { resolve(payload) }]:
    the value the promise is resolved with. *)
Definition received_value (payload : string) : value :=
  match JSON_parse payload with
  | Normal message => message
  | Thrown _ => VStr payload
  end.

(** The listener [onData]. *)
Definition onData (this_socket : option nat) (data : Buffer) (r : Receiver)
  : completion unit * Receiver :=
  let buffer := rc_buffer r ++ data in
  let r1 :=
    match rc_header r with
    | None =>
        if decide (8 <= length buffer)%nat
        then mkReceiver (rc_socket r) (Buf.slice_from buffer 8)
               (Some (Buf.readUInt32LE buffer 0, Buf.readUInt32LE buffer 4))
               (rc_promise r)
        else mkReceiver (rc_socket r) buffer None (rc_promise r)
    | Some header =>
        mkReceiver (rc_socket r) buffer (Some header) (rc_promise r)
    end in
  match rc_header r1 with
  | Some (_, payloadLength) =>
      if decide (payloadLength <= Z.of_nat (length (rc_buffer r1))) then
        let payload :=
          Buf.toString (Buf.slice (rc_buffer r1) 0 (Z.to_nat payloadLength)) in
        match removeListener this_socket r1 with
        | (Normal _, r2) =>
            (Normal tt, rc_settle (Resolved (received_value payload)) r2)
        | (Thrown e, r2) => (Thrown e, r2)
        end
      else (Normal tt, r1)
  | None => (Normal tt, r1)
  end.

(** A ['data'] event of the socket reaches [onData] while it is
    attached. *)
Definition receive_data (this_socket : option nat) (data : Buffer)
  (r : Receiver) : completion unit * Receiver :=
  match rc_socket r with
  | Some _ => onData this_socket data r
  | None => (Normal tt, r)
  end.

(** Successive ['data'] events, up to the first one whose listener
    throws. *)
Fixpoint receive_feed (this_socket : option nat) (chunks : list Buffer)
  (r : Receiver) : completion unit * Receiver :=
  match chunks with
  | [] => (Normal tt, r)
  | data :: rest =>
      match receive_data this_socket data r with
      | (Normal _, r') => receive_feed this_socket rest r'
      | (Thrown e, r') => (Thrown e, r')
      end
  end.

End Receive.

(** The callback of the timer armed by [receive()]. *)
Definition receive_timeout (this_socket : option nat) (r : Receiver)
  : completion unit * Receiver :=
  match removeListener this_socket r with
  | (Normal _, r') => (Normal tt, rc_settle (Rejected receive_timed_out) r')
  | (Thrown e, r') => (Thrown e, r')
  end.

(** The first frame the stream decoder of [setupSocketHandlers] delivers
    for the same chunks. *)
Definition first_frame (chunks : list Buffer) : option (Z * Buffer) :=
  head (decoded_frames chunks).2.

(** *** [clearActivity()] and the query helpers *)

(** [{ ...target, ...source }] on the own enumerable properties of
    [source]: those of an object, the indices of an array, the
    characters of a string (of one byte each); nothing for the other
    values. *)
Definition spread (target : list (string * value)) (source : value)
  : list (string * value) :=
  let assign acc (kv : string * value) := JS.assign_field kv.1 kv.2 acc in
  match source with
  | VObj fields => fold_left assign fields target
  | VArr elems => fold_left assign (imap (fun i v => (pretty i, v)) elems) target
  | VStr text =>
      fold_left assign
        (imap (fun i c => (pretty i, VStr (String c EmptyString)))
              (list_ascii_of_string text))
        target
  | _ => target
  end.

Section Helpers.

Local Open Scope m_scope.

Variable JSON_stringify : value -> option string.
Variable JSON_parse : string -> completion value.
Variable Date_toString : Z -> string.
Variable pid : Z.

(** [clearActivity()] up to the [await]. *)
Definition clearActivity_begin (nonce : string) : M nat :=
  sendCommand JSON_stringify "SET_ACTIVITY" (VObj [("pid", VNum pid)])
    10000 nonce.

(** After the [await]; there is no [try] around it. *)
Definition clearActivity_resume (o : Settlement) : M unit :=
  match o with
  | Resolved _ =>
      modify (set_currentActivity None);;
      emit NActivityCleared
  | Rejected error => throw error
  end.

(** The helpers return the promise of their command ([return await]). *)
Definition subscribe (event args : value) (nonce : string) : M nat :=
  sendCommand JSON_stringify "SUBSCRIBE"
    (VObj (spread [("evt", event)] args)) 10000 nonce.

Definition unsubscribe (event args : value) (nonce : string) : M nat :=
  sendCommand JSON_stringify "UNSUBSCRIBE"
    (VObj (spread [("evt", event)] args)) 10000 nonce.

(** *** The callback of the reconnect timer *)

(** The command promise the callback is waiting on when a block of it
    ends. *)
Inductive Awaited : Type :=
  | AwaitNothing
  | AwaitAuthenticate (p : nat)
  | AwaitSetActivity (p : nat) (processedActivity : Activity).

(** The [catch] clause of the callback. *)
Definition reconnect_failed (error : Error) : M Awaited :=
  log ("Reconnect attempt failed: " +:+ err_message error) LError;;
  ret AwaitNothing.

(** [if (this.currentActivity) await this.setActivity(this.currentActivity)],
    up to the [await] inside [setActivity]. *)
Definition reconnect_activity (nonce : string) : M Awaited :=
  cur ← gets currentActivity;
  match cur with
  | Some activity =>
      r ← setActivity_begin JSON_stringify pid activity nonce;
      ret (AwaitSetActivity r.1 r.2)
  | None => ret AwaitNothing
  end.

(** The callback from its start to the first command it waits for:
    [connect()] and [handshake()] run to their end, then
    [authenticate()] is called if the client is authenticated, and
    [setActivity] otherwise if it holds an activity. *)
Definition reconnect_attempt (tryConnect : string -> Attempt)
  (paths : list string) (nonce : string) : M Awaited :=
  try_catch
    (connect tryConnect paths;;
     handshake JSON_stringify;;
     a ← gets authenticated;
     if a then
       p ← authenticate_begin JSON_stringify None nonce;
       ret (AwaitAuthenticate p)
     else reconnect_activity nonce)
    reconnect_failed.

(** The reconnect timer [t] fires: it leaves the table and its callback
    runs. *)
Definition fire_reconnect (t : nat) (tryConnect : string -> Attempt)
  (paths : list string) (nonce : string) : M Awaited :=
  timer ← gets (fun s => timers s !! t);
  match timer with
  | Some (TReconnect _) =>
      clearTimeout t;;
      reconnect_attempt tryConnect paths nonce
  | _ => ret AwaitNothing
  end.

(** The callback after [await this.authenticate()]. *)
Definition reconnect_authenticated (fuel : nat) (o : Settlement)
  (nonce : string) (s : State) : run_result Awaited :=
  match authenticate_resume JSON_stringify Date_toString fuel None o s with
  | None => None
  | Some (Normal _, s') =>
      Some (try_catch (reconnect_activity nonce) reconnect_failed s')
  | Some (Thrown e, s') => Some (reconnect_failed e s')
  end.

(** The callback after [await this.setActivity(...)]. *)
Definition reconnect_activity_set (processedActivity : Activity)
  (o : Settlement) : M Awaited :=
  try_catch
    (setActivity_resume processedActivity o;; ret AwaitNothing)
    reconnect_failed.

End Helpers.

(** *** Everything a client does, as one list of blocks *)

Section Actions.

Variable JSON_stringify : value -> option string.
Variable JSON_parse : string -> completion value.
Variable Date_toString : Z -> string.
Variable pid : Z.

(** The blocks of [event], and those of the methods above; [connect()]
    both as a whole and cut at the [await] of each path, into the block
    after a path that accepted and the [catch] block after one that
    refused.  A block that contains the flush of the queue may not
    return. *)
Inductive action : Type :=
  | AEvent (ev : event)
  | AConnect (tryConnect : string -> Attempt) (paths : list string)
  | ATryConnected (sock : nat) (path : string)
  | ATryFailed (path : string) (error : Error)
  | ASocketError (error : Error)
  | AHandshake
  | ASendHandshake
  | ASendAuthorize (nonce : value)
  | AAuthenticate (accessToken : option string) (nonce : string)
  | AAuthenticated (accessToken : option string) (o : Settlement)
  | ASetActivity (activity : Activity) (nonce : string)
  | AClearActivity (nonce : string)
  | AActivityCleared (o : Settlement)
  | AReconnect (t : nat) (tryConnect : string -> Attempt)
      (paths : list string) (nonce : string)
  | AReconnectAuthenticated (o : Settlement) (nonce : string)
  | AReconnectActivitySet (processedActivity : Activity) (o : Settlement).

(** The state a block leaves, whether it returns or throws; [None] when
    it does not end.  The flush gets as much fuel as the queue is long,
    which is what it needs whenever it ends. *)
Definition perform (s : State) (a : action) : option State :=
  match a with
  | AEvent ev => Some (step JSON_stringify JSON_parse Date_toString s ev)
  | AConnect tryConnect paths => Some (connect tryConnect paths s).2
  | ATryConnected sock path => Some (socket_connect sock path s).2
  | ATryFailed path error =>
      Some (log ("Failed to connect to " +:+ path +:+ ": "
                 +:+ err_message error) LWarn s).2
  | ASocketError error => Some (socket_error error s).2
  | AHandshake => Some (handshake JSON_stringify s).2
  | ASendHandshake => Some (sendHandshake JSON_stringify s).2
  | ASendAuthorize nonce => Some (sendAuthorize JSON_stringify nonce s).2
  | AAuthenticate accessToken nonce =>
      Some (authenticate_begin JSON_stringify accessToken nonce s).2
  | AAuthenticated accessToken o =>
      snd <$> authenticate_resume JSON_stringify Date_toString
                (length (messageQueue s)) accessToken o s
  | ASetActivity activity nonce =>
      Some (setActivity_begin JSON_stringify pid activity nonce s).2
  | AClearActivity nonce =>
      Some (clearActivity_begin JSON_stringify pid nonce s).2
  | AActivityCleared o => Some (clearActivity_resume o s).2
  | AReconnect t tryConnect paths nonce =>
      Some (fire_reconnect JSON_stringify pid t tryConnect paths nonce s).2
  | AReconnectAuthenticated o nonce =>
      snd <$> reconnect_authenticated JSON_stringify Date_toString pid
                (length (messageQueue s)) o nonce s
  | AReconnectActivitySet processedActivity o =>
      Some (reconnect_activity_set processedActivity o s).2
  end.

Fixpoint perform_all (s : State) (acts : list action) : option State :=
  match acts with
  | [] => Some s
  | a :: rest =>
      match perform s a with
      | Some s' => perform_all s' rest
      | None => None
      end
  end.

(** The states a client reaches from [new DiscordIPC(options)]. *)
Definition reached (start : State) (acts : list action) (s : State) : Prop :=
  exists cid dbg ar rd mx listener,
    start = constructor cid dbg ar rd mx listener
    /\ perform_all start acts = Some s.

End Actions.

(** What every state of a client satisfies on the side of the transport:
    a connected client holds a socket, the attempt counter stays within
    its budget, and a client that does not reconnect queues nothing. *)
Record steady (s : State) : Prop := mkSteady {
    st_socket : connected s = true -> is_Some (socket s);
    st_attempts :
      0 <= reconnectAttempts s <= Z.max 0 (maxReconnectAttempts s);
    st_queue : autoReconnect s = false -> messageQueue s = []
  }.

(** Both invariants of a client. *)
Definition sound (s : State) : Prop := well_formed s /\ steady s.

(** A block keeps a property of the state when the state it leaves,
    whether it returns or throws, has it. *)
Definition keeps {A : Type} (P : State -> Prop) (m : M A) : Prop :=
  forall s, P s -> P (m s).2.

(** A buffer the decoder has to keep: no complete frame at its head. *)
Definition incomplete (buffer : Buffer) : Prop :=
  (length buffer < 8)%nat
  \/ Z.of_nat (length buffer) < 8 + Buf.readUInt32LE buffer 4.

(** ** The [ActivityBuilder] class *)

Module ActivityBuilder.

(** [this.activity]: the own properties of the object the builder fills.
    [build()] copies them; the nested objects are the builder's. *)
Definition Builder : Type := list (string * value).

(** [ActivityTypes.PLAYING] and [ActivityTypes.STREAMING]. *)
Definition PLAYING : Z := 0.
Definition STREAMING : Z := 1.

Definition constructor : Builder := [("type", VNum PLAYING)].

Definition setName (name : value) (b : Builder) : Builder :=
  JS.assign_field "name" name b.

Definition setType (type : value) (b : Builder) : Builder :=
  JS.assign_field "type" type b.

Definition setDetails (details : value) (b : Builder) : Builder :=
  JS.assign_field "details" details b.

Definition setState (state : value) (b : Builder) : Builder :=
  JS.assign_field "state" state b.

(** [if (v) object.key = v]. *)
Definition set_if (key : string) (v : value)
  (object : list (string * value)) : list (string * value) :=
  if JS.truthy v then JS.assign_field key v object else object.

Definition setTimestamps (start end_ : value) (b : Builder) : Builder :=
  JS.assign_field "timestamps"
    (VObj (set_if "end" end_ (set_if "start" start []))) b.

Definition setAssets (largeImage largeText smallImage smallText : value)
  (b : Builder) : Builder :=
  JS.assign_field "assets"
    (VObj (set_if "small_text" smallText
          (set_if "small_image" smallImage
          (set_if "large_text" largeText
          (set_if "large_image" largeImage []))))) b.

Definition is_undefined (v : value) : bool :=
  match v with
  | VUndefined => true
  | _ => false
  end.

Definition setParty (id size max : value) (b : Builder) : Builder :=
  JS.assign_field "party"
    (VObj (if negb (is_undefined size) && negb (is_undefined max)
           then [("id", id); ("size", VArr [size; max])]
           else [("id", id)])) b.

(** [buttons.length >= 2], for a numeric length. *)
Definition at_least_two (buttons : value) : bool :=
  match buttons with
  | VArr elems => (2 <=? Z.of_nat (length elems))
  | VStr text => (2 <=? Z.of_nat (JS.utf16_length text))
  | VObj fields =>
      match JS.lookup_field "length" fields with
      | VNum n => 2 <=? n
      | _ => false
      end
  | _ => false
  end.

Definition too_many_buttons : Error :=
  mkError KError "Maximum 2 buttons allowed".

(** [addButton(label, url)]: the builder as the call leaves it, and how
    the call ends.  Only an array has [push]. *)
Definition addButton (label url : value) (b : Builder)
  : completion unit * Builder :=
  let b1 :=
    if JS.truthy (JS.lookup_field "buttons" b) then b
    else JS.assign_field "buttons" (VArr []) b in
  let buttons := JS.lookup_field "buttons" b1 in
  if at_least_two buttons then (Thrown too_many_buttons, b1)
  else
    match buttons with
    | VArr elems =>
        (Normal tt,
         JS.assign_field "buttons"
           (VArr (elems ++ [VObj [("label", label); ("url", url)]])) b1)
    | _ =>
        (Thrown (mkError KTypeError
                   "this.activity.buttons.push is not a function"), b1)
    end.

Definition setStreamingUrl (url : value) (b : Builder) : Builder :=
  JS.assign_field "type" (VNum STREAMING) (JS.assign_field "url" url b).

(** [build()]: [{ ...this.activity }]. *)
Definition build (b : Builder) : list (string * value) := b.

(** The calls a program makes on one builder. *)
Inductive Call : Type :=
  | SetName (name : value)
  | SetType (type : value)
  | SetDetails (details : value)
  | SetState (state : value)
  | SetTimestamps (start end_ : value)
  | SetAssets (largeImage largeText smallImage smallText : value)
  | SetParty (id size max : value)
  | AddButton (label url : value)
  | SetStreamingUrl (url : value).

Definition call (c : Call) (b : Builder) : completion unit * Builder :=
  match c with
  | SetName name => (Normal tt, setName name b)
  | SetType type => (Normal tt, setType type b)
  | SetDetails details => (Normal tt, setDetails details b)
  | SetState state => (Normal tt, setState state b)
  | SetTimestamps start end_ => (Normal tt, setTimestamps start end_ b)
  | SetAssets a b' c d => (Normal tt, setAssets a b' c d b)
  | SetParty id size max => (Normal tt, setParty id size max b)
  | AddButton label url => addButton label url b
  | SetStreamingUrl url => (Normal tt, setStreamingUrl url b)
  end.

(** The builder after a list of calls, each one made whether or not an
    earlier one threw. *)
Definition after (calls : list Call) : Builder :=
  fold_left (fun b c => (call c b).2) calls constructor.

(** The arguments the type declarations allow for the two calls whose
    values [processActivity] inspects. *)
Definition stamp_like (v : value) : Prop :=
  match v with
  | VUndefined | VNum _ | VDate _ => True
  | _ => False
  end.

Definition text_like (v : value) : Prop :=
  match v with
  | VUndefined | VStr _ => True
  | _ => False
  end.

Definition typed (c : Call) : Prop :=
  match c with
  | SetTimestamps start end_ => stamp_like start /\ stamp_like end_
  | SetAssets a b c d =>
      text_like a /\ text_like b /\ text_like c /\ text_like d
  | _ => True
  end.

End ActivityBuilder.

(** The [timestamps] object of an activity, if it has one, and what
    [Math.floor(d.getTime() / 1000)] makes of its [start] and [end]. *)
Definition stamps_of (store : gmap nat (list (string * value)))
  (activity : Activity) : option (list (string * value)) :=
  match act_stamps activity with
  | Some l => store !! l
  | None =>
      match JS.lookup_field "timestamps" (act_fields activity) with
      | VObj stamps => Some stamps
      | _ => None
      end
  end.

Definition seconds (v : value) : value :=
  match v with
  | VDate ms => VNum (ms / 1000)
  | _ => v
  end.

Definition is_stamp_key (k : string) : bool :=
  String.eqb k "start" || String.eqb k "end".

(** A built activity as the client is given it: its [timestamps] object,
    which the builder still holds, sits in the store at [l]. *)
Definition remove_field (k : string) (fields : list (string * value))
  : list (string * value) :=
  List.filter (fun kv => negb (String.eqb k kv.1)) fields.

Definition hand_over (l : nat) (built : list (string * value)) (s : State)
  : Activity * State :=
  match JS.lookup_field "timestamps" built with
  | VObj stamps =>
      (mkActivity (remove_field "timestamps" built) (Some l),
       set_heap (<[l := stamps]> (heap s)) s)
  | _ => (mkActivity built None, s)
  end.

(** The buttons a list of calls asks for, in the order of the calls. *)
Definition buttons_added (calls : list ActivityBuilder.Call) : list value :=
  omap (fun c =>
          match c with
          | ActivityBuilder.AddButton label url =>
              Some (VObj [("label", label); ("url", url)])
          | _ => None
          end) calls.

(** What the builder keeps of the three properties [processActivity]
    looks into: at most two buttons, assets that are strings, and
    timestamps that are numbers or dates. *)
Definition well_built (b : list (string * value)) : Prop :=
  (JS.lookup_field "buttons" b = VUndefined
   \/ exists elems,
        JS.lookup_field "buttons" b = VArr elems /\ (length elems <= 2)%nat)
  /\ (JS.lookup_field "assets" b = VUndefined
      \/ exists fields,
           JS.lookup_field "assets" b = VObj fields
           /\ bad_asset fields = None)
  /\ (JS.lookup_field "timestamps" b = VUndefined
      \/ exists stamps,
           JS.lookup_field "timestamps" b = VObj stamps
           /\ ActivityBuilder.stamp_like (JS.lookup_field "start" stamps)
           /\ ActivityBuilder.stamp_like (JS.lookup_field "end" stamps)).

(** ** More concrete inputs

    The inputs at which the statements about the rest of the client are
    exercised. *)

Module Cases.

Import Sample.

Definition ENOENT : Error := mkError KError "connect ENOENT".

(** Discord listens on the second candidate only. *)
Definition second_accepts (path : string) : Attempt :=
  if String.eqb path "/tmp/discord-ipc-1" then Accepted 7 else Refused ENOENT.

(** Discord is not running. *)
Definition nobody_home (path : string) : Attempt := Refused ENOENT.

Definition candidates : list string :=
  ["/tmp/discord-ipc-0"; "/tmp/discord-ipc-1"; "/tmp/discord-ipc-2"].

Definition ready_frame : value :=
  VObj [("cmd", VStr "DISPATCH"); ("evt", VStr "READY");
        ("data", VObj [("v", VNum 1)])].

(** A DISPATCH of an error without [data]. *)
Definition bare_error : value :=
  VObj [("cmd", VStr "DISPATCH"); ("evt", VStr "ERROR")].

(** A connected client in debug mode that nobody listens to for
    ['error']. *)
Definition deaf : State :=
  (socket_connect 3 "/tmp/discord-ipc-0"
     (constructor (Some "1234") (Some true) None None None false)).2.

Definition authorize_reply : value :=
  VObj [("cmd", VStr "AUTHORIZE"); ("nonce", VStr "n-1");
        ("data", VObj [("code", VStr "abc")])].

(** An activity with three buttons whose [timestamps] object the caller
    holds. *)
Definition crowded : Activity :=
  mkActivity [("buttons", VArr [VStr "a"; VStr "b"; VStr "c"])]
    (Some 0%nat).

(** A builder used as the README does, with one button too many. *)
Definition built_calls : list ActivityBuilder.Call :=
  [ActivityBuilder.SetDetails (VStr "In a match");
   ActivityBuilder.SetTimestamps (VDate 1700000000500) VUndefined;
   ActivityBuilder.SetAssets (VStr "logo") (VStr "The game") VUndefined
     VUndefined;
   ActivityBuilder.AddButton (VStr "Join") (VStr "https://example.org/a");
   ActivityBuilder.AddButton (VStr "Watch") (VStr "https://example.org/b");
   ActivityBuilder.AddButton (VStr "More") (VStr "https://example.org/c")].

(** A session: connect, handshake, an authorization that times out, an
    activity, and the loss of the connection. *)
Definition story : list action :=
  [AConnect second_accepts candidates;
   AHandshake;
   AAuthenticate None "n-1";
   AEvent (ETimer 1);
   AAuthenticated None (Rejected (timed_out "AUTHORIZE"));
   ASetActivity playing "n-2";
   AEvent (EFrame 1 (payload_of user_reply));
   AEvent EClose].

Definition lived : State :=
  default fresh (perform_all stringify parse date_text 77 fresh story).

End Cases.


(** * Properties *)

(** ** The frame header *)

Module BufFacts.

Lemma unsigned_of_Z (z : Z) : Buf.unsigned (Buf.of_Z z) = z mod 256.
Proof.
  unfold Buf.unsigned, Buf.of_Z.
  assert (Hr : 0 <= z mod 256 < 256) by (apply Z.mod_pos_bound; lia).
  destruct (Byte.of_N (Z.to_N (z mod 256))) as [b|] eqn:E.
  - apply Byte.to_of_N in E. rewrite E. lia.
  - apply Byte.of_N_None_iff in E. lia.
Qed.

Lemma unsigned_range (b : byte) : 0 <= Buf.unsigned b < 256.
Proof.
  unfold Buf.unsigned. pose proof (Byte.to_N_bounded b). lia.
Qed.

Lemma uint32_bytes (v : Z) :
  0 <= v <= Buf.uint32_max ->
  v mod 256
  + Z.shiftr v 8 mod 256 * 2 ^ 8
  + Z.shiftr v 16 mod 256 * 2 ^ 16
  + Z.shiftr v 24 mod 256 * 2 ^ 24 = v.
Proof.
  unfold Buf.uint32_max. intros Hv.
  rewrite !Z.shiftr_div_pow2 by lia.
  change (2 ^ 8) with 256. change (2 ^ 16) with 65536.
  change (2 ^ 24) with 16777216.
  Z.div_mod_to_equations. lia.
Qed.

Lemma write_header (opcode len : Z) :
  0 <= opcode <= Buf.uint32_max ->
  0 <= len <= Buf.uint32_max ->
  exists h1,
    Buf.writeUInt32LE (Buf.alloc 8) opcode 0 = Some h1
    /\ Buf.writeUInt32LE h1 len 4 = Some (Buf.header_bytes opcode len).
Proof.
  intros Ho Hl. unfold Buf.writeUInt32LE.
  rewrite decide_True by done.
  rewrite decide_True by (simpl; lia).
  eexists. split; [reflexivity|].
  rewrite decide_True by done.
  rewrite decide_True by (simpl; lia).
  reflexivity.
Qed.

Lemma read_opcode (opcode len : Z) (rest : Buffer) :
  0 <= opcode <= Buf.uint32_max ->
  Buf.readUInt32LE (Buf.header_bytes opcode len ++ rest) 0 = opcode.
Proof.
  intros Ho. unfold Buf.readUInt32LE, Buf.at_. simpl.
  rewrite !unsigned_of_Z. by apply uint32_bytes.
Qed.

Lemma read_length (opcode len : Z) (rest : Buffer) :
  0 <= len <= Buf.uint32_max ->
  Buf.readUInt32LE (Buf.header_bytes opcode len ++ rest) 4 = len.
Proof.
  intros Hl. unfold Buf.readUInt32LE, Buf.at_. simpl.
  rewrite !unsigned_of_Z. by apply uint32_bytes.
Qed.

Lemma readUInt32LE_nonneg (buf : Buffer) (offset : nat) :
  0 <= Buf.readUInt32LE buf offset.
Proof.
  assert (H : forall i, 0 <= Buf.at_ buf i).
  { intros i. unfold Buf.at_. destruct (buf !! i) as [b|]; [|lia].
    pose proof (unsigned_range b). lia. }
  unfold Buf.readUInt32LE.
  pose proof (H offset). pose proof (H (offset + 1)%nat).
  pose proof (H (offset + 2)%nat). pose proof (H (offset + 3)%nat).
  lia.
Qed.

(** Reads below [offset + 4 <= length buf] do not see appended bytes. *)
Lemma readUInt32LE_app (buf extra : Buffer) (offset : nat) :
  (offset + 4 <= length buf)%nat ->
  Buf.readUInt32LE (buf ++ extra) offset = Buf.readUInt32LE buf offset.
Proof.
  intros H. unfold Buf.readUInt32LE, Buf.at_.
  rewrite !lookup_app_l by lia. reflexivity.
Qed.

End BufFacts.

(** ** The streaming decoder *)

Section DecoderFacts.

Context {St : Type}.
Variable h : Z -> Buffer -> St -> St.

Lemma data_loop_short (buf : Buffer) (s : St) :
  (length buf < 8)%nat -> data_loop h buf s = (buf, s).
Proof.
  intros H. rewrite data_loop_equation_1.
  destruct (decide (8 <= length buf)%nat); [lia | reflexivity].
Qed.

Lemma data_loop_incomplete (buf : Buffer) (s : St) :
  Z.of_nat (length buf) < 8 + Buf.readUInt32LE buf 4 ->
  data_loop h buf s = (buf, s).
Proof.
  intros H. rewrite data_loop_equation_1.
  destruct (decide (8 <= length buf)%nat); [|reflexivity]. simpl.
  destruct (decide (Z.of_nat (length buf) < 8 + Buf.readUInt32LE buf 4));
    [reflexivity | lia].
Qed.

Lemma data_loop_frame (buf : Buffer) (s : St) :
  (8 <= length buf)%nat ->
  8 + Buf.readUInt32LE buf 4 <= Z.of_nat (length buf) ->
  data_loop h buf s
  = data_loop h
      (Buf.slice_from buf (8 + Z.to_nat (Buf.readUInt32LE buf 4)))
      (h (Buf.readUInt32LE buf 0)
         (Buf.slice buf 8 (8 + Z.to_nat (Buf.readUInt32LE buf 4))) s).
Proof.
  intros H8 Hlen. rewrite data_loop_equation_1.
  destruct (decide (8 <= length buf)%nat); [|lia]. simpl.
  destruct (decide (Z.of_nat (length buf) < 8 + Buf.readUInt32LE buf 4));
    [lia | reflexivity].
Qed.

(** Bytes that arrive later do not change what the loop does with the
    bytes it already has. *)
Lemma data_loop_app (extra : Buffer) (buf : Buffer) (s : St) :
  data_loop h (buf ++ extra) s
  = data_loop h ((data_loop h buf s).1 ++ extra) (data_loop h buf s).2.
Proof.
  remember (length buf) as n eqn:Hn. revert buf s Hn.
  induction n as [n IH] using lt_wf_ind. intros buf s ->.
  destruct (decide (8 <= length buf)%nat) as [H8|H8];
    [|by rewrite (data_loop_short buf) by lia].
  destruct (decide (Z.of_nat (length buf) < 8 + Buf.readUInt32LE buf 4))
    as [Hi|Hi]; [by rewrite (data_loop_incomplete buf)|].
  pose proof (BufFacts.readUInt32LE_nonneg buf 4) as Hnn.
  set (len := Z.to_nat (Buf.readUInt32LE buf 4)) in *.
  rewrite (data_loop_frame buf) by lia.
  rewrite (data_loop_frame (buf ++ extra))
    by (rewrite ?length_app, ?BufFacts.readUInt32LE_app; lia).
  rewrite !BufFacts.readUInt32LE_app by lia. fold len.
  unfold Buf.slice, Buf.slice_from.
  rewrite !drop_app_le by lia.
  rewrite take_app_le by (rewrite length_drop; lia).
  apply (IH (length (drop (8 + len) buf))); [|reflexivity].
  rewrite length_drop. lia.
Qed.

(** Feeding chunks one by one is feeding their concatenation. *)
Lemma feed_data_loop (chunks : list Buffer) (buf : Buffer) (s : St) :
  feed h chunks (data_loop h buf s) = data_loop h (buf ++ concat chunks) s.
Proof.
  revert buf s. induction chunks as [|c cs IH]; intros buf s; simpl.
  - by rewrite app_nil_r.
  - unfold on_data. rewrite IH, <- app_assoc.
    symmetry. apply data_loop_app.
Qed.

Lemma feed_concat (chunks : list Buffer) (s : St) :
  feed h chunks ([], s) = data_loop h (concat chunks) s.
Proof.
  rewrite <- (data_loop_short [] s) by (simpl; lia).
  by rewrite feed_data_loop.
Qed.

(** One complete frame at the head of the buffer is handed to the
    handler, and the loop goes on with the bytes after it. *)
Lemma data_loop_frame_bytes (opcode : Z) (payload rest : Buffer) (s : St) :
  0 <= opcode <= Buf.uint32_max ->
  Z.of_nat (length payload) <= Buf.uint32_max ->
  data_loop h (Buf.frame_bytes opcode payload ++ rest) s
  = data_loop h rest (h opcode payload s).
Proof.
  intros Ho Hl. unfold Buf.frame_bytes. rewrite <- app_assoc.
  set (len := Z.of_nat (length payload)).
  assert (Hlen : Buf.readUInt32LE
                   (Buf.header_bytes opcode len ++ payload ++ rest) 4 = len)
    by (apply BufFacts.read_length; lia).
  rewrite data_loop_frame; rewrite ?Hlen.
  - rewrite BufFacts.read_opcode by done.
    unfold Buf.slice, Buf.slice_from.
    replace (Z.to_nat len) with (length payload) by lia.
    f_equal.
    + change (drop (8 + length payload)
                (Buf.header_bytes opcode len ++ payload ++ rest))
        with (drop (length payload) (payload ++ rest)).
      by rewrite drop_app_length.
    + f_equal.
      replace (8 + length payload - 8)%nat with (length payload) by lia.
      change (drop 8 (Buf.header_bytes opcode len ++ payload ++ rest))
        with (payload ++ rest).
      by rewrite take_app_length.
  - rewrite length_app. simpl. lia.
  - rewrite !length_app. simpl. lia.
Qed.

(** The handler applied to a list of frames, in order. *)
Lemma data_loop_frames (frames : list (Z * Buffer)) (rest : Buffer) (s : St) :
  Forall frame_ok frames ->
  data_loop h (concat (map (fun f => Buf.frame_bytes f.1 f.2) frames) ++ rest) s
  = data_loop h rest (fold_left (fun s f => h f.1 f.2 s) frames s).
Proof.
  intros Hf. revert s. induction Hf as [|[op pl] fs [Ho Hl] _ IH];
    intros s; cbn [map concat fold_left fst snd]; [reflexivity|].
  rewrite <- app_assoc, data_loop_frame_bytes by done. apply IH.
Qed.

End DecoderFacts.

(** C2: for every list of well-formed frames and every way of cutting their
    bytes into chunks, feeding the chunks in order delivers exactly those
    frames, in order, with nothing left over, as feeding all the bytes at
    once does (for the bare decoder and for any handler); and a buffer that
    holds fewer than 8 bytes, or fewer than the announced payload, is
    returned as it is without a frame being delivered. *)
Theorem chunked_decoding_delivers_same_frames
  (frames : list (Z * Buffer)) (chunks : list Buffer) :
  Forall frame_ok frames ->
  concat chunks = concat (map (fun f => Buf.frame_bytes f.1 f.2) frames) ->
  decoded_frames chunks = ([], frames)
  /\ decoded_frames [concat chunks] = ([], frames)
  /\ (forall (St : Type) (h : Z -> Buffer -> St -> St) (s : St),
       feed h chunks ([], s) = feed h [concat chunks] ([], s)
       /\ feed h chunks ([], s)
          = ([], fold_left (fun s f => h f.1 f.2 s) frames s))
  /\ (forall (St : Type) (h : Z -> Buffer -> St -> St) (buf : Buffer) (s : St),
       (length buf < 8)%nat
       \/ Z.of_nat (length buf) < 8 + Buf.readUInt32LE buf 4 ->
       data_loop h buf s = (buf, s)
       /\ forall chunk, on_data h chunk (buf, s) = data_loop h (buf ++ chunk) s).
Proof.
  intros Hok Hbytes.
  assert (Hgen : forall (St : Type) (h : Z -> Buffer -> St -> St) (s : St),
             feed h chunks ([], s)
             = ([], fold_left (fun s f => h f.1 f.2 s) frames s)).
  { intros St h s. rewrite feed_concat, Hbytes.
    rewrite <- (app_nil_r (concat _)), data_loop_frames by done.
    apply data_loop_short. simpl. lia. }
  assert (Hone : forall (St : Type) (h : Z -> Buffer -> St -> St) (s : St),
             feed h [concat chunks] ([], s) = feed h chunks ([], s)).
  { intros St h s. rewrite !feed_concat. simpl. by rewrite app_nil_r. }
  assert (Hrec : forall (fs : list (Z * Buffer)) acc,
             fold_left (fun s f => record_frame f.1 f.2 s) fs acc = acc ++ fs).
  { induction fs as [|[op pl] fs IH]; intros acc; simpl.
    - by rewrite app_nil_r.
    - rewrite IH. unfold record_frame. by rewrite <- app_assoc. }
  repeat split.
  - unfold decoded_frames. by rewrite Hgen, Hrec.
  - unfold decoded_frames. by rewrite Hone, Hgen, Hrec.
  - by rewrite Hone.
  - apply Hgen.
  - destruct H as [H|H];
      [by apply data_loop_short | by apply data_loop_incomplete].
Qed.

(** ** The engine *)

(** Unfolds the plumbing of a block so that the state it returns shows. *)
Ltac run_block :=
  unfold bind, ret, throw, try_catch, gets, modify, lift in *; cbn in *.

Lemma bind_eq {A B : Type} (m : M A) (k : A -> M B) (s : State) :
  bind m k s
  = match m s with
    | (Normal a, s') => k a s'
    | (Thrown e, s') => (Thrown e, s')
    end.
Proof. reflexivity. Qed.

(** Case analysis on every test a block makes. *)
Ltac block_cases :=
  repeat (case_match; run_block; simplify_eq; try done).

Ltac block_solve :=
  block_cases; repeat split; cbn in *; congruence.

Section EngineFacts.

Variable JSON_stringify : value -> option string.
Variable JSON_parse : string -> completion value.
Variable Date_toString : Z -> string.

Local Abbreviation send := (send JSON_stringify).
Local Abbreviation sendCommand := (sendCommand JSON_stringify).
Local Abbreviation handleMessage :=
  (handleMessage JSON_stringify JSON_parse Date_toString).
Local Abbreviation processQueue := (processQueue JSON_stringify).

(** *** [send] *)

(** What [send] writes for an entry it can encode. *)
Lemma send_connected (s : State) (opcode : Z) (data : value)
  (text : string) (k : nat) :
  connected s = true ->
  socket s = Some k ->
  JSON_stringify data = Some text ->
  0 <= opcode <= Buf.uint32_max ->
  Z.of_nat (length (Buf.from text)) <= Buf.uint32_max ->
  send opcode data s
  = (Normal tt,
     (log ("Sent: " +:+ text) LInfo
        (set_written
           (written s ++ [Buf.frame_bytes opcode (Buf.from text)]) s)).2).
Proof.
  intros Hc Hs Ht Ho Hl. unfold send. rewrite Hc, Ht. cbn [negb].
  destruct (BufFacts.write_header opcode
              (Z.of_nat (length (Buf.from text)))) as (h1 & E1 & E2);
    [done | lia |].
  unfold write_u32, bind. rewrite E1. cbn [ret].
  rewrite E2. cbn [ret]. unfold socket_write. rewrite Hs.
  unfold stringify_text. rewrite Ht. reflexivity.
Qed.

Lemma send_queues (s : State) (opcode : Z) (data : value) :
  connected s = false ->
  autoReconnect s = true ->
  send opcode data s
  = (Normal tt, set_messageQueue (messageQueue s ++ [(opcode, data)]) s).
Proof. intros Hc Ha. unfold send. by rewrite Hc, Ha. Qed.

Lemma send_not_connected (s : State) (opcode : Z) (data : value) :
  connected s = false ->
  autoReconnect s = false ->
  send opcode data s = (Thrown not_connected, s).
Proof. intros Hc Ha. unfold send. by rewrite Hc, Ha. Qed.

(** [send] touches the queue, the socket and the console only. *)
Lemma send_views (s : State) (opcode : Z) (data : value) :
  transport (send opcode data s).2 = transport s
  /\ correlator (send opcode data s).2 = correlator s
  /\ session (send opcode data s).2 = session s.
Proof.
  unfold transport, correlator, session, send, write_u32, socket_write, log.
  block_solve.
Qed.

(** Whether [send] throws depends on the transport and the entry. *)
Lemma send_completion (s s' : State) (opcode : Z) (data : value) :
  transport s' = transport s ->
  (send opcode data s').1 = (send opcode data s).1.
Proof.
  unfold transport. intros [= Hc Ha Hs Hd].
  unfold send, write_u32, socket_write, log. rewrite Hc, Ha.
  block_solve.
Qed.

(** A throwing [send] has changed nothing. *)
Lemma send_thrown (s : State) (opcode : Z) (data : value) (e : Error) :
  (send opcode data s).1 = Thrown e -> (send opcode data s).2 = s.
Proof.
  unfold send, write_u32, socket_write, log. block_solve.
Qed.

(** A [send] that throws or writes leaves the queue alone. *)
Lemma send_queue_unchanged (s : State) (opcode : Z) (data : value) :
  connected s = true \/ autoReconnect s = false ->
  messageQueue (send opcode data s).2 = messageQueue s.
Proof.
  unfold send, write_u32, socket_write, log.
  intros [H|H]; rewrite ?H; block_solve.
Qed.

Lemma send_encoded (s : State) (entry : Z * value) (bytes : Buffer) :
  connected s = true ->
  is_Some (socket s) ->
  encoded JSON_stringify entry = Some bytes ->
  (send entry.1 entry.2 s).1 = Normal tt
  /\ written (send entry.1 entry.2 s).2 = written s ++ [bytes].
Proof.
  intros Hc [k Hs]. unfold encoded.
  destruct (JSON_stringify entry.2) as [text|] eqn:Ht; [|done].
  case_decide as Hr; [|done]. intros ?; simplify_eq. destruct Hr as [Ho Hl].
  rewrite (send_connected s entry.1 entry.2 text k) by done.
  unfold log, modify. cbn. by destruct (debug s).
Qed.

(** C1: whatever [send] writes for a [uint32] opcode and a value that
    [JSON.stringify] and [JSON.parse] carry back and forth is the 8-byte
    little-endian header of (opcode, payload length) followed by the
    payload, and the decoder turns exactly these bytes into the single
    frame (opcode, data), keeping no byte. *)
Theorem encode_decode_roundtrip (s : State) (opcode : Z) (data : value)
  (text : string) :
  connected s = true ->
  is_Some (socket s) ->
  0 <= opcode <= Buf.uint32_max ->
  JSON_stringify data = Some text ->
  JSON_parse text = Normal data ->
  Z.of_nat (length (Buf.from text)) <= Buf.uint32_max ->
  exists bytes,
    (send opcode data s).1 = Normal tt
    /\ written (send opcode data s).2 = written s ++ [bytes]
    /\ bytes
       = Buf.header_bytes opcode (Z.of_nat (length (Buf.from text)))
         ++ Buf.from text
    /\ Buf.readUInt32LE bytes 0 = opcode
    /\ Buf.readUInt32LE bytes 4 = Z.of_nat (length (Buf.from text))
    /\ feed (parse_frame JSON_parse) [bytes] ([], [])
       = ([], [(opcode, Normal data)])
    /\ decoded_frames [bytes] = ([], [(opcode, Buf.from text)]).
Proof.
  intros Hc [k Hs] Ho Ht Hp Hl.
  exists (Buf.frame_bytes opcode (Buf.from text)).
  rewrite (send_connected s opcode data text k) by done.
  assert (Hfeed : forall (St : Type) (h : Z -> Buffer -> St -> St) (a : St),
             feed h [Buf.frame_bytes opcode (Buf.from text)] ([], a)
             = ([], h opcode (Buf.from text) a)).
  { intros St h a. rewrite feed_concat. cbn [concat].
    rewrite app_nil_r, <- (app_nil_r (Buf.frame_bytes _ _)).
    rewrite data_loop_frame_bytes by done.
    apply data_loop_short. simpl. lia. }
  repeat split.
  - unfold log, modify. cbn. by destruct (debug s).
  - unfold Buf.frame_bytes. by apply BufFacts.read_opcode.
  - unfold Buf.frame_bytes. apply BufFacts.read_length. lia.
  - rewrite Hfeed. unfold parse_frame, Buf.toString, Buf.from.
    by rewrite string_of_list_byte_of_string, Hp.
  - unfold decoded_frames. by rewrite Hfeed.
Qed.

(** *** Reconnection backoff *)

Lemma scheduleReconnect_state (s : State) :
  let s' := (scheduleReconnect s).2 in
  reconnectAttempts s' = reconnectAttempts s + 1
  /\ reconnectDelay s' = reconnectDelay s
  /\ nextTimer s' = S (nextTimer s)
  /\ timers s' !! nextTimer s
     = Some (TReconnect
               (Z.min (reconnectDelay s * 2 ^ (reconnectAttempts s' - 1))
                      30000)).
Proof.
  unfold scheduleReconnect, log, setTimeout, backoff_delay. run_block.
  destruct (debug s); cbn; by rewrite lookup_insert_eq.
Qed.

Lemma scheduled_delays_formula (n : nat) (s : State) :
  scheduled_delays n s
  = map (fun k : nat =>
           Z.min (reconnectDelay s
                  * 2 ^ (reconnectAttempts s + Z.of_nat k - 1)) 30000)
        (seq 1 n).
Proof.
  revert s. induction n as [|n IH]; intros s; [reflexivity|].
  cbn [scheduled_delays].
  destruct (scheduleReconnect_state s) as (Ha & Hd & _ & Ht).
  rewrite Ht, IH, Ha, Hd. cbn [seq map]. f_equal.
  rewrite <- (seq_shift n 1), map_map. apply map_ext. intros k.
  do 3 f_equal. lia.
Qed.

(** C5: [scheduleReconnect] first increments [reconnectAttempts] and then
    arms a timer whose delay is
    [min(reconnectDelay * 2^(reconnectAttempts - 1), 30000)] for the
    incremented counter; with [reconnectDelay = 1000] and a counter that
    starts at 0, six successive calls arm the delays 1000, 2000, 4000,
    8000, 16000 and 30000. *)
Theorem reconnect_backoff_delays (s : State) :
  reconnectDelay s = 1000 ->
  reconnectAttempts s = 0 ->
  scheduled_delays 6 s = [1000; 2000; 4000; 8000; 16000; 30000]
  /\ (forall s0 : State,
       let s' := (scheduleReconnect s0).2 in
       reconnectAttempts s' = reconnectAttempts s0 + 1
       /\ timers s' !! nextTimer s0
          = Some (TReconnect
                    (Z.min (reconnectDelay s0
                            * 2 ^ (reconnectAttempts s' - 1)) 30000))).
Proof.
  intros Hd Ha. split.
  - rewrite scheduled_delays_formula, Hd, Ha. reflexivity.
  - intros s0. destruct (scheduleReconnect_state s0) as (H1 & _ & _ & H2).
    by split.
Qed.

(** *** The outbound queue *)

Lemma processQueue_empty (fuel : nat) (s : State) :
  messageQueue s = [] -> processQueue fuel s = Some (Normal tt, s).
Proof. intros H. destruct fuel; simpl; by rewrite H. Qed.

Lemma processQueue_step (fuel : nat) (s : State) (opcode : Z)
  (data : value) (rest : list (Z * value)) :
  messageQueue s = (opcode, data) :: rest ->
  processQueue (S fuel) s
  = match send opcode data (set_messageQueue rest s) with
    | (Normal _, s') => processQueue fuel s'
    | (Thrown e, s') => Some (Thrown e, s')
    end.
Proof. intros H. simpl. by rewrite H. Qed.

(** More fuel does not change a flush that has returned. *)
Lemma processQueue_more_fuel (n m : nat) (s : State)
  (r : completion unit * State) :
  processQueue n s = Some r -> (n <= m)%nat -> processQueue m s = Some r.
Proof.
  revert m s. induction n as [|n IH]; intros m s Hr Hm.
  - destruct (messageQueue s) as [|[o d] rest] eqn:E.
    + rewrite processQueue_empty in * by done. done.
    + simpl in Hr. by rewrite E in Hr.
  - destruct (messageQueue s) as [|[o d] rest] eqn:E.
    + rewrite processQueue_empty in * by done. done.
    + destruct m as [|m]; [lia|].
      rewrite (processQueue_step n _ o d rest) in Hr by done.
      rewrite (processQueue_step m _ o d rest) by done.
      destruct (send o d (set_messageQueue rest s)) as [[[]|e] s'];
        [|done]. apply IH; [done | lia].
Qed.

(** While the client is disconnected with auto-reconnect on, [send] puts
    every entry the loop takes from the head back at the tail: the queue
    never empties and the loop never ends. *)
Lemma processQueue_spins (fuel : nat) (s : State) :
  connected s = false ->
  autoReconnect s = true ->
  messageQueue s <> [] ->
  processQueue fuel s = None.
Proof.
  revert s. induction fuel as [|fuel IH]; intros s Hc Ha Hq;
    destruct (messageQueue s) as [|[o d] rest] eqn:E; try done.
  - simpl. by rewrite E.
  - rewrite (processQueue_step _ _ o d rest) by done.
    rewrite send_queues by done. apply IH; cbn; try done.
    by destruct rest.
Qed.

(** On a live connection the loop writes the entries from the head on,
    as long as they can be encoded. *)
Lemma processQueue_fifo (s : State) :
  connected s = true ->
  is_Some (socket s) ->
  Forall (fun x => is_Some (encoded JSON_stringify x)) (messageQueue s) ->
  exists s',
    processQueue (length (messageQueue s)) s = Some (Normal tt, s')
    /\ messageQueue s' = []
    /\ written s' = written s ++ omap (encoded JSON_stringify) (messageQueue s)
    /\ transport s' = transport s
    /\ correlator s' = correlator s
    /\ session s' = session s.
Proof.
  remember (messageQueue s) as q eqn:Hq. revert s Hq.
  induction q as [|[o d] q IH]; intros s Hq Hc Hs Hall.
  - exists s. rewrite processQueue_empty by done.
    repeat split; try done. simpl. by rewrite app_nil_r.
  - apply Forall_cons in Hall as [[bytes Hx] Hall].
    cbn [length]. rewrite (processQueue_step _ _ o d q) by done.
    set (s0 := set_messageQueue q s).
    destruct (send_encoded s0 (o, d) bytes) as [Hn Hw]; [done..|].
    destruct (send_views s0 o d) as (Ht & Hk & Hse).
    pose proof (send_queue_unchanged s0 o d (or_introl Hc)) as Hmq.
    cbn [fst snd] in Hn, Hw.
    destruct (send o d s0) as [c s1]. cbn [fst snd] in *. subst c.
    destruct (IH s1) as (s' & Hrun & Hq' & Hw' & Ht' & Hk' & Hse');
      try done.
    { unfold transport in Ht. cbn in Ht. congruence. }
    { unfold transport in Ht. cbn in Ht.
      replace (socket s1) with (socket s) by congruence. done. }
    change (transport s0) with (transport s) in Ht.
    change (correlator s0) with (correlator s) in Hk.
    change (session s0) with (session s) in Hse.
    exists s'. repeat split; try congruence.
    rewrite Hw', Hw.
    change (omap (encoded JSON_stringify) ((o, d) :: q))
      with (match encoded JSON_stringify (o, d) with
            | Some y => y :: omap (encoded JSON_stringify) q
            | None => omap (encoded JSON_stringify) q
            end).
    rewrite Hx. cbn. by rewrite <- app_assoc.
Qed.

(** C7: when the send of a queued entry throws in the middle of a flush
    (the entries before it having been sent), [processQueue] returns with
    that exception: the entries before the failed one have been written,
    the entries after it are still queued in their order, and the loop
    has ended after as many iterations as entries it took. *)
Theorem flush_stops_at_failed_send (s : State)
  (before after : list (Z * value)) (failed : Z * value) (e : Error) :
  messageQueue s = before ++ failed :: after ->
  Forall (fun x => (send x.1 x.2 s).1 = Normal tt) before ->
  (send failed.1 failed.2 s).1 = Thrown e ->
  exists s',
    processQueue (S (length before)) s = Some (Thrown e, s')
    /\ (forall fuel, (length before < fuel)%nat ->
         processQueue fuel s = Some (Thrown e, s'))
    /\ messageQueue s' = after
    /\ length (written s') = (length (written s) + length before)%nat
    /\ transport s' = transport s
    /\ correlator s' = correlator s
    /\ session s' = session s.
Proof.
  intros Hq Hpre Hfail.
  assert (Hmode : connected s = true \/ autoReconnect s = false).
  { destruct (connected s) eqn:Hc; [by left | right].
    destruct (autoReconnect s) eqn:Ha; [|done].
    by rewrite send_queues in Hfail. }
  cut (exists s',
         processQueue (S (length before)) s = Some (Thrown e, s')
         /\ messageQueue s' = after
         /\ length (written s') = (length (written s) + length before)%nat
         /\ transport s' = transport s
         /\ correlator s' = correlator s
         /\ session s' = session s).
  { intros (s' & Hrun & H'). exists s'. repeat split; try apply H'; [done|].
    intros fuel Hf. apply (processQueue_more_fuel _ _ _ _ Hrun). lia. }
  revert s Hq Hpre Hfail Hmode.
  induction before as [|[o d] before IH];
    intros s Hq Hpre Hfail Hmode; destruct failed as [fo fd];
    cbn [fst snd app length] in *.
  - rewrite (processQueue_step _ _ fo fd after) by done.
    set (s0 := set_messageQueue after s).
    assert (Hs0 : (send fo fd s0).1 = Thrown e)
      by (by rewrite (send_completion s s0)).
    pose proof (send_thrown s0 fo fd e Hs0) as Hst.
    destruct (send fo fd s0) as [c s1]. cbn [fst snd] in *. subst c s1.
    exists s0. repeat split; try done.
  - apply Forall_cons in Hpre as [Hx Hpre]. cbn [fst snd] in Hx.
    rewrite (processQueue_step _ _ o d (before ++ (fo, fd) :: after))
      by done.
    set (s0 := set_messageQueue (before ++ (fo, fd) :: after) s).
    assert (Hs0 : (send o d s0).1 = Normal tt)
      by (by rewrite (send_completion s s0)).
    destruct (send_views s0 o d) as (Ht & Hk & Hse).
    assert (Hmq : messageQueue (send o d s0).2 = messageQueue s0)
      by (by apply send_queue_unchanged).
    assert (Hw : length (written (send o d s0).2)
                 = S (length (written s))).
    { destruct (connected s) eqn:Hc.
      - clear -Hc Hs0. revert Hs0.
        unfold send, write_u32, socket_write, log.
        replace (connected s0) with true by done. cbn [negb].
        block_cases; rewrite length_app; cbn; lia.
      - exfalso. destruct Hmode as [|Ha]; [done|].
        by rewrite send_not_connected in Hs0. }
    destruct (send o d s0) as [c s1]. cbn [fst snd] in *. subst c.
    destruct (IH s1) as (s' & Hrun & Hq' & Hw' & Ht' & Hk' & Hse').
    + by rewrite Hmq.
    + eapply Forall_impl; [exact Hpre|]. intros x Hxx. cbn in Hxx.
      rewrite <- Hxx. apply send_completion.
      rewrite Ht. reflexivity.
    + rewrite <- Hfail. apply send_completion. rewrite Ht. reflexivity.
    + unfold transport in Ht. simplify_eq. cbn in *.
      destruct Hmode; [left|right]; congruence.
    + change (transport s0) with (transport s) in Ht.
      change (correlator s0) with (correlator s) in Hk.
      change (session s0) with (session s) in Hse.
      exists s'. repeat split; try congruence. lia.
Qed.

(** *** [authenticate] *)

Local Abbreviation authenticate_settled :=
  (authenticate_settled Date_toString).
Local Abbreviation authenticate_resume :=
  (authenticate_resume JSON_stringify Date_toString).

(** Without a token, a failure that does not name the client id is
    logged and swallowed. *)
Lemma authenticate_settled_degrades (s : State)
  (accessToken : option string) (error : Error) :
  has_token accessToken = false ->
  JS.includes "Invalid Client ID" (err_message error) = false ->
  JS.includes "Unknown Application" (err_message error) = false ->
  exists s1,
    authenticate_settled accessToken (Rejected error) s = (Normal tt, s1)
    /\ authenticated s1 = true
    /\ emitted s1 = emitted s ++ [NAuthenticated]
    /\ console s1 = console s ++ degraded_warnings s error
    /\ messageQueue s1 = messageQueue s
    /\ written s1 = written s
    /\ transport s1 = transport s
    /\ correlator s1 = correlator s.
Proof.
  intros Htok H1 H2.
  unfold authenticate_settled, degraded_warnings, log, emit,
    transport, correlator.
  rewrite Htok. run_block. rewrite H1, H2. cbn.
  destruct (debug s) eqn:Hd; cbn; rewrite ?Hd; cbn;
    eexists; repeat split; cbn; rewrite ?Hd, <- ?app_assoc, ?app_nil_r;
    done.
Qed.

(** Without a token, a failure that names the client id is logged and
    turned into the exception of [authenticate]; nothing else is done. *)
Lemma authenticate_settled_fatal (s : State)
  (accessToken : option string) (error : Error) :
  has_token accessToken = false ->
  JS.includes "Invalid Client ID" (err_message error)
  || JS.includes "Unknown Application" (err_message error) = true ->
  exists s1,
    authenticate_settled accessToken (Rejected error) s
    = (Thrown (invalid_client_id Date_toString s), s1)
    /\ authenticated s1 = authenticated s
    /\ emitted s1 = emitted s
    /\ console s1
       = console s
         ++ (if debug s
             then [(LWarn, "Authorization failed: " +:+ err_message error)]
             else [])
    /\ messageQueue s1 = messageQueue s
    /\ written s1 = written s
    /\ transport s1 = transport s
    /\ correlator s1 = correlator s.
Proof.
  intros Htok Hfatal.
  unfold authenticate_settled, invalid_client_id, log, emit,
    transport, correlator.
  rewrite Htok. run_block. rewrite Hfatal. cbn.
  destruct (debug s) eqn:Hd; cbn; rewrite ?Hd; cbn;
    eexists; repeat split; cbn; rewrite ?Hd, ?app_nil_r; done.
Qed.

(** C8 (amended): [authenticate] without a token, when the AUTHORIZE
    command has failed.  If the message of the error contains neither
    "Invalid Client ID" nor "Unknown Application" (a timeout is such an
    error), the failure is logged as a warning and does not propagate:
    [authenticated] becomes true, the authenticated notification is
    emitted and the flush of the queue is started; on a live connection
    that flush writes the entries in order and leaves the queue empty,
    when every entry can be encoded.  If the message contains one of the
    two phrases, the warning is logged and [authenticate] throws
    "Invalid Client ID: ...": [authenticated] keeps the value it had, no
    notification is emitted, and the queue is neither flushed nor
    changed. *)
Theorem authorize_failure_degrades (s : State)
  (accessToken : option string) (error : Error) :
  has_token accessToken = false ->
  let fatal :=
    JS.includes "Invalid Client ID" (err_message error)
    || JS.includes "Unknown Application" (err_message error) in
  (fatal = false ->
   exists s1,
     authenticate_settled accessToken (Rejected error) s = (Normal tt, s1)
     /\ authenticated s1 = true
     /\ emitted s1 = emitted s ++ [NAuthenticated]
     /\ console s1 = console s ++ degraded_warnings s error
     /\ (forall fuel,
           authenticate_resume fuel accessToken (Rejected error) s
           = processQueue fuel s1)
     /\ (connected s = true ->
         is_Some (socket s) ->
         Forall (fun x => is_Some (encoded JSON_stringify x))
                (messageQueue s) ->
         exists s2,
           authenticate_resume (length (messageQueue s)) accessToken
             (Rejected error) s = Some (Normal tt, s2)
           /\ authenticated s2 = true
           /\ emitted s2 = emitted s ++ [NAuthenticated]
           /\ messageQueue s2 = []
           /\ written s2
              = written s
                ++ omap (encoded JSON_stringify) (messageQueue s)))
  /\ (fatal = true ->
      exists s1,
        (forall fuel,
           authenticate_resume fuel accessToken (Rejected error) s
           = Some (Thrown (invalid_client_id Date_toString s), s1))
        /\ authenticated s1 = authenticated s
        /\ emitted s1 = emitted s
        /\ console s1
           = console s
             ++ (if debug s
                 then [(LWarn,
                        "Authorization failed: " +:+ err_message error)]
                 else [])
        /\ messageQueue s1 = messageQueue s
        /\ written s1 = written s
        /\ transport s1 = transport s
        /\ correlator s1 = correlator s).
Proof.
  intros Htok fatal. split.
  - intros Hfatal. apply orb_false_iff in Hfatal as [H1 H2].
    destruct (authenticate_settled_degrades s accessToken error Htok H1 H2)
      as (s1 & Hrun & Hauth & Hem & Hcon & Hq & Hw & Ht & Hk).
    exists s1. repeat split; try done.
    + intros fuel. unfold authenticate_resume.
      fold authenticate_settled. by rewrite Hrun.
    + intros Hc Hs Hall. unfold transport in Ht. simplify_eq.
      destruct (processQueue_fifo s1)
        as (s2 & Hrun2 & Hq2 & Hw2 & _ & _ & Hse);
        [congruence | congruence | by rewrite Hq |].
      exists s2. unfold authenticate_resume.
      fold authenticate_settled. rewrite Hrun, <- Hq.
      unfold session in Hse. simplify_eq.
      repeat split; try congruence.
  - intros Hfatal.
    destruct (authenticate_settled_fatal s accessToken error Htok Hfatal)
      as (s1 & Hrun & H').
    exists s1. split; [|done].
    intros fuel. unfold authenticate_resume.
    fold authenticate_settled. by rewrite Hrun.
Qed.

(** A timeout of AUTHORIZE is not one of the fatal errors. *)
Lemma timed_out_AUTHORIZE_not_fatal :
  JS.includes "Invalid Client ID" (err_message (timed_out "AUTHORIZE"))
  = false
  /\ JS.includes "Unknown Application"
       (err_message (timed_out "AUTHORIZE")) = false.
Proof. split; reflexivity. Qed.

(** C6 (the code at the failing input): a fresh client with default
    options calls [authenticate()] before any connection exists.  The
    AUTHORIZE command is queued, its timer fires, [authenticate] carries
    on to [processQueue()], and the loop there takes the queued entry and
    [send] queues it again, for ever: nothing is written and the call
    never returns. *)
Theorem flush_never_returns_while_disconnected
  (cid : option string) (nonce : string) :
  let s0 := constructor cid None None None None true in
  let s1 := (authenticate_begin JSON_stringify None nonce s0).2 in
  let s2 := (fire_timer 0 s1).2 in
  let failure := Rejected (timed_out "AUTHORIZE") in
  connected s2 = false
  /\ length (messageQueue s2) = 1%nat
  /\ promises s2 !! 0%nat = Some failure
  /\ (authenticate_settled None failure s2).1 = Normal tt
  /\ forall fuel : nat,
       authenticate_resume fuel None failure s2 = None
       /\ written s2 = [].
Proof.
  intros s0 s1 s2 failure.
  assert (Hs2 : connected s2 = false /\ autoReconnect s2 = true
                /\ length (messageQueue s2) = 1%nat
                /\ promises s2 !! 0%nat = Some failure
                /\ written s2 = []).
  { subst s2 s1 s0 failure. vm_compute. done. }
  destruct Hs2 as (Hc & Ha & Hq & Hp & Hw).
  clearbody s2. clear s1 s0. subst failure.
  destruct (timed_out_AUTHORIZE_not_fatal) as [H1 H2].
  destruct (authenticate_settled_degrades s2 None (timed_out "AUTHORIZE")
              eq_refl H1 H2)
    as (s3 & Hrun & _ & _ & _ & Hq3 & _ & Ht & _).
  unfold transport in Ht.
  repeat split; try done; try (by rewrite Hrun).
  unfold authenticate_resume. fold authenticate_settled.
  rewrite Hrun. apply processQueue_spins; try congruence.
  rewrite Hq3. by destruct (messageQueue s2).
Qed.

(** *** Inbound frames that do not parse *)

Local Abbreviation deliver :=
  (deliver JSON_stringify JSON_parse Date_toString).

Lemma handleMessage_parse_error (s : State) (opcode : Z) (payload : Buffer)
  (e : Error) :
  JSON_parse (Buf.toString payload) = Thrown e ->
  handleMessage opcode payload s
  = log ("Failed to parse message: " +:+ err_message e) LError s.
Proof.
  intros H. unfold handleMessage, try_catch, bind, lift. by rewrite H.
Qed.

(** C9 (amended): a frame whose payload [JSON.parse] rejects does not
    raise out of [handleMessage]; in debug mode one error-level line is
    logged, no notification is emitted (no error event either), nothing
    else in the client changes, and the decoder goes on with the bytes
    that follow the frame. *)
Theorem malformed_payload_is_logged_and_dropped (s : State) (opcode : Z)
  (payload : Buffer) (e : Error) :
  JSON_parse (Buf.toString payload) = Thrown e ->
  let s' := deliver opcode payload s in
  (handleMessage opcode payload s).1 = Normal tt
  /\ emitted s' = emitted s
  /\ console s'
     = console s
       ++ (if debug s
           then [(LError, "Failed to parse message: " +:+ err_message e)]
           else [])
  /\ transport s' = transport s
  /\ correlator s' = correlator s
  /\ session s' = session s
  /\ messageQueue s' = messageQueue s
  /\ written s' = written s
  /\ (0 <= opcode <= Buf.uint32_max ->
      Z.of_nat (length payload) <= Buf.uint32_max ->
      forall rest : Buffer,
        data_loop deliver (Buf.frame_bytes opcode payload ++ rest) s
        = data_loop deliver rest s').
Proof.
  intros H s'.
  assert (Hs' : handleMessage opcode payload s
                = log ("Failed to parse message: " +:+ err_message e)
                      LError s)
    by (by apply handleMessage_parse_error).
  assert (Hlast : 0 <= opcode <= Buf.uint32_max ->
                  Z.of_nat (length payload) <= Buf.uint32_max ->
                  forall rest : Buffer,
                    data_loop deliver (Buf.frame_bytes opcode payload ++ rest) s
                    = data_loop deliver rest s').
  { intros Ho Hl rest. by rewrite data_loop_frame_bytes. }
  subst s'. unfold deliver in *. rewrite Hs' in *. clear Hs'.
  unfold log, modify, transport, correlator, session in *. cbn in *.
  destruct (debug s) eqn:Hd; cbn; rewrite ?Hd, ?app_nil_r;
    repeat split; done.
Qed.

(** *** [setActivity] *)

Lemma send_heap (s : State) (opcode : Z) (data : value) :
  heap (send opcode data s).2 = heap s.
Proof. unfold send, write_u32, socket_write, log. block_solve. Qed.

(** [sendCommand] returns the promise it created and leaves the session
    flags, the notifications, the transport and the store as they were. *)
Lemma sendCommand_views (s : State) (cmd : string) (args : value)
  (timeout : Z) (nonce : string) :
  (sendCommand cmd args timeout nonce s).1 = Normal (nextPromise s)
  /\ session (sendCommand cmd args timeout nonce s).2 = session s
  /\ transport (sendCommand cmd args timeout nonce s).2 = transport s
  /\ heap (sendCommand cmd args timeout nonce s).2 = heap s.
Proof.
  unfold sendCommand, setTimeout, settle. run_block.
  match goal with
  | |- context [ send ?o ?d ?s0 ] =>
      destruct (send_views s0 o d) as (Ht & _ & Hse);
      pose proof (send_heap s0 o d) as Hh;
      destruct (send o d s0) as [[[]|e] s1]
  end; cbn in *; repeat split; try done;
    unfold session, transport in *; cbn in *; try congruence;
    destruct (promises s1 !! nextPromise s); cbn; congruence.
Qed.

Lemma lookup_assign_field_ne (k k' : string) (v : value)
  (fields : list (string * value)) :
  k <> k' ->
  JS.lookup_field k' (JS.assign_field k v fields) = JS.lookup_field k' fields.
Proof.
  intros Hne. induction fields as [|[k0 v0] fields IH]; cbn.
  - destruct (String.eqb k' k) eqn:E; [|done].
    apply String.eqb_eq in E. congruence.
  - destruct (String.eqb k k0) eqn:E; cbn.
    + apply String.eqb_eq in E. subst k0.
      destruct (String.eqb k' k) eqn:E'; [|done].
      apply String.eqb_eq in E'. congruence.
    + destruct (String.eqb k' k0); [done | apply IH].
Qed.

Lemma lookup_assign_field_eq (k : string) (v : value)
  (fields : list (string * value)) :
  JS.lookup_field k (JS.assign_field k v fields) = v.
Proof.
  induction fields as [|[k0 v0] fields IH]; cbn.
  - by rewrite String.eqb_refl.
  - destruct (String.eqb k k0) eqn:E; cbn; rewrite ?String.eqb_refl, ?E; done.
Qed.

(** A conversion that has nothing to convert returns the object as it
    is; one that converts leaves a number. *)
Lemma convert_stamp_settled (k : string) (stamps : list (string * value)) :
  needs_conversion k stamps = false -> convert_stamp k stamps = Normal stamps.
Proof. intros H. unfold convert_stamp. by rewrite H. Qed.

Lemma convert_stamp_result (k : string) (stamps stamps' : list (string * value)) :
  convert_stamp k stamps = Normal stamps' ->
  needs_conversion k stamps' = false
  /\ forall k', k <> k' ->
       JS.lookup_field k' stamps' = JS.lookup_field k' stamps.
Proof.
  unfold convert_stamp. destruct (needs_conversion k stamps) eqn:E.
  - destruct (JS.lookup_field k stamps) eqn:Hv; try done.
    intros [= <-]. split.
    + unfold needs_conversion. rewrite lookup_assign_field_eq. cbn.
      apply andb_false_r.
    + intros k' Hne. by apply lookup_assign_field_ne.
  - intros [= <-]. done.
Qed.

(** What [convert_shared] does to the store: only the object at [l] can
    change, a settled object does not, and after a normal return the
    object at [l] is settled. *)
Lemma convert_shared_fields (s : State) (l : nat) :
  let r := convert_shared l s in
  transport r.2 = transport s
  /\ correlator r.2 = correlator s
  /\ session r.2 = session s
  /\ messageQueue r.2 = messageQueue s
  /\ written r.2 = written s
  /\ console r.2 = console s
  /\ (forall l', l' <> l -> heap r.2 !! l' = heap s !! l')
  /\ ((forall stamps, heap s !! l = Some stamps -> stamps_settled stamps) ->
      heap r.2 = heap s)
  /\ (forall stamps', r.1 = Normal tt -> heap r.2 !! l = Some stamps' ->
       stamps_settled stamps').
Proof.
  unfold convert_shared, bind, gets, lift, modify.
  destruct (heap s !! l) as [stamps|] eqn:Hl; cbn.
  - destruct (convert_stamp "start" stamps) as [st1|e1] eqn:H1; cbn.
    + destruct (convert_stamp "end" st1) as [st2|e2] eqn:H2; cbn.
      * split_and!; try done.
        -- intros l' Hne. by rewrite !lookup_insert_ne.
        -- intros Hset. destruct (Hset stamps eq_refl) as [Hs He].
           rewrite (convert_stamp_settled _ _ Hs) in H1. simplify_eq.
           rewrite (convert_stamp_settled _ _ He) in H2. simplify_eq.
           rewrite insert_insert_eq. by apply insert_id.
        -- intros st' _. rewrite lookup_insert_eq. intros ?. simplify_eq.
           destruct (convert_stamp_result _ _ _ H1) as [Hs1 _].
           destruct (convert_stamp_result _ _ _ H2) as [He2 Hkeep].
           split; [|done]. unfold needs_conversion in *.
           by rewrite (Hkeep "start").
      * split_and!; try done.
        -- intros l' Hne. by rewrite lookup_insert_ne.
        -- intros Hset. destruct (Hset stamps eq_refl) as [Hs He].
           rewrite (convert_stamp_settled _ _ Hs) in H1. simplify_eq.
           by apply insert_id.
    + split_and!; done.
  - split_and!; try done. intros st' _ H. congruence.
Qed.

Lemma processActivity_fields (s : State) (activity : Activity) :
  let r := processActivity activity s in
  transport r.2 = transport s
  /\ correlator r.2 = correlator s
  /\ session r.2 = session s
  /\ messageQueue r.2 = messageQueue s
  /\ written r.2 = written s
  /\ console r.2 = console s
  /\ (forall l, act_stamps activity <> Some l -> heap r.2 !! l = heap s !! l)
  /\ (forall l,
       (forall stamps, heap s !! l = Some stamps -> stamps_settled stamps) ->
       heap r.2 !! l = heap s !! l)
  /\ (forall processed l stamps,
       r.1 = Normal processed ->
       act_stamps processed = Some l ->
       heap r.2 !! l = Some stamps ->
       stamps_settled stamps).
Proof.
  unfold processActivity. rewrite bind_eq. cbn [gets].
  rewrite bind_eq.
  destruct (act_stamps activity) as [l|] eqn:Hst.
  - rewrite bind_eq.
    destruct (convert_shared_fields s l)
      as (H1 & H2 & H3 & H4 & H5 & H6 & H7 & H8 & H9).
    assert (Hf1 : forall l0, Some l <> Some l0 ->
                    heap (convert_shared l s).2 !! l0 = heap s !! l0)
      by (intros l0 Hne; apply H7; congruence).
    assert (Hf2 : forall l0,
               (forall stamps, heap s !! l0 = Some stamps ->
                               stamps_settled stamps) ->
               heap (convert_shared l s).2 !! l0 = heap s !! l0).
    { intros l0 Hset. destruct (decide (l0 = l)) as [->|Hne];
        [by rewrite (H8 Hset) | by rewrite H7]. }
    clear H7 H8.
    destruct (convert_shared l s) as [[[]|e] s1]; cbn [fst snd] in *.
    + pose proof (fun st => H9 st eq_refl) as Hnew. clear H9.
      unfold bind, ret, throw; cbn.
      repeat case_match; cbn; split_and!; try done.
      all: intros; simplify_eq; cbn in *; simplify_eq; eauto.
      all: unfold transport, correlator, session; congruence.
    + split_and!; done.
  - unfold bind, ret, throw, lift; cbn.
    repeat case_match; cbn; split_and!; try done.
    all: intros; simplify_eq; cbn in *; simplify_eq; eauto.
Qed.

(** C10: when the SET_ACTIVITY command is rejected, [setActivity] logs
    and rethrows the same error, and [currentActivity], the notification
    trace, the store and the rest of the client (the console apart) are as
    before; [currentActivity] becomes the processed activity, and
    activitySet is emitted, when the command is resolved.  Issuing the
    command assigns neither; the only objects it writes to are
    [timestamps] objects that still held a date, so that the activity the
    session holds, whose object [processActivity] settled when it was set,
    reads the same before and after. *)
Theorem setActivity_rejection_propagates (pid : Z) (s : State)
  (processedActivity : Activity) (error : Error) :
  let r := setActivity_resume processedActivity (Rejected error) s in
  r.1 = Thrown error
  /\ currentActivity r.2 = currentActivity s
  /\ emitted r.2 = emitted s
  /\ heap r.2 = heap s
  /\ session r.2 = session s
  /\ transport r.2 = transport s
  /\ correlator r.2 = correlator s
  /\ messageQueue r.2 = messageQueue s
  /\ written r.2 = written s
  /\ (forall response : value,
       let r' := setActivity_resume processedActivity (Resolved response) s in
       r'.1 = Normal tt
       /\ currentActivity r'.2 = Some processedActivity
       /\ emitted r'.2 = emitted s ++ [NActivitySet processedActivity]
       /\ heap r'.2 = heap s)
  /\ (forall (activity : Activity) (nonce : string),
       let b := setActivity_begin JSON_stringify pid activity nonce s in
       session b.2 = session s
       /\ (forall l,
            (forall stamps, heap s !! l = Some stamps ->
                            stamps_settled stamps) ->
            heap b.2 !! l = heap s !! l)
       /\ (current_settled s ->
           forall cur, currentActivity s = Some cur ->
             activity_value (heap b.2) cur = activity_value (heap s) cur)
       /\ match b.1 with
          | Normal (p, processed) =>
              (processActivity activity s).1 = Normal processed
              /\ p = nextPromise s
              /\ (forall l stamps,
                    act_stamps processed = Some l ->
                    heap b.2 !! l = Some stamps -> stamps_settled stamps)
          | Thrown e =>
              (processActivity activity s).1 = Thrown e
              /\ b.2 = (processActivity activity s).2
          end).
Proof.
  assert (Hbegin : forall (activity : Activity) (nonce : string),
             let b := setActivity_begin JSON_stringify pid activity nonce s in
             session b.2 = session s
             /\ (forall l,
                  (forall stamps, heap s !! l = Some stamps ->
                                  stamps_settled stamps) ->
                  heap b.2 !! l = heap s !! l)
             /\ match b.1 with
                | Normal (p, processed) =>
                    (processActivity activity s).1 = Normal processed
                    /\ p = nextPromise s
                    /\ (forall l stamps,
                          act_stamps processed = Some l ->
                          heap b.2 !! l = Some stamps -> stamps_settled stamps)
                | Thrown e =>
                    (processActivity activity s).1 = Thrown e
                    /\ b.2 = (processActivity activity s).2
                end).
  { intros activity nonce b. subst b.
    destruct (processActivity_fields s activity)
      as (_ & Hk & Hse & _ & _ & _ & _ & Hkeep & Hnew).
    unfold setActivity_begin. rewrite bind_eq.
    destruct (processActivity activity s) as [[processed|e] s0];
      cbn [fst snd] in *; [|done].
    rewrite bind_eq. cbn [gets]. rewrite bind_eq.
    match goal with
    | |- context [ sendCommand ?c ?a ?t ?n s0 ] =>
        destruct (sendCommand_views s0 c a t n) as (Hp & Hse' & _ & Hh);
        destruct (sendCommand c a t n s0) as [[p|e] s1]
    end; cbn [fst snd ret] in *; [|done].
    assert (Hnp : nextPromise s0 = nextPromise s)
      by (unfold correlator in Hk; congruence).
    split; [congruence|]. split; [intros; rewrite Hh; eauto|].
    split; [done|]. split; [congruence|].
    intros l stamps Hl Hs1. rewrite Hh in Hs1. eauto. }
  split; [|split; [|split; [|split; [|split; [|split; [|split; [|split;
    [|split; [|split]]]]]]]]].
  11: { intros activity nonce b.
        destruct (Hbegin activity nonce) as (H1 & H2 & H3). fold b in H1, H2, H3.
        split; [done|]. split; [done|]. split; [|done].
        intros Hcur cur Hc. unfold activity_value.
        destruct (act_stamps cur) as [l|] eqn:Hl; [|done].
        rewrite (H2 l); [done|].
        intros stamps Hs. exact (Hcur cur l stamps Hc Hl Hs). }
  all: unfold setActivity_resume, log, emit, session, transport, correlator;
    run_block;
    try (destruct (debug s) eqn:Hd; cbn; rewrite ?Hd; done).
Qed.

(** *** What each block does to the correlator *)

Local Abbreviation matched := (matched JSON_parse).
Local Abbreviation response_outcome := (response_outcome Date_toString).

Lemma fire_timer_timeout (s : State) (t : nat) (n c : string) (p : nat)
  (d : Z) :
  timers s !! t = Some (TCommandTimeout n c p d) ->
  let s' := (fire_timer t s).2 in
  pendingResponses s' = delete n (pendingResponses s)
  /\ timers s' = delete t (timers s)
  /\ nextTimer s' = nextTimer s
  /\ nextPromise s' = nextPromise s
  /\ heartbeatInterval s' = heartbeatInterval s
  /\ settleCalls s' = settleCalls s ++ [(p, Rejected (timed_out c))]
  /\ promises s' = settled_with p (Rejected (timed_out c)) (promises s).
Proof.
  intros H. unfold fire_timer, command_timeout, clearTimeout, settle,
    settled_with.
  rewrite H. run_block. by destruct (promises s !! p).
Qed.

Lemma fire_timer_other (s : State) (t : nat) :
  (forall n c p d, timers s !! t <> Some (TCommandTimeout n c p d)) ->
  (fire_timer t s).2 = s.
Proof.
  intros H. unfold fire_timer.
  destruct (timers s !! t) as [[n c p d| |]|] eqn:E; try done.
  by destruct (H n c p d).
Qed.

Lemma sendCommand_fields (s : State) (cmd : string) (args : value)
  (timeout : Z) (nonce : string) :
  let s' := (sendCommand cmd args timeout nonce s).2 in
  let p := nextPromise s in
  let t := nextTimer s in
  pendingResponses s' = <[nonce := mkCallback t p]> (pendingResponses s)
  /\ timers s' = <[t := TCommandTimeout nonce cmd p timeout]> (timers s)
  /\ nextTimer s' = S t
  /\ nextPromise s' = S p
  /\ heartbeatInterval s' = heartbeatInterval s
  /\ ((settleCalls s' = settleCalls s /\ promises s' = promises s)
      \/ exists e,
           settleCalls s' = settleCalls s ++ [(p, Rejected e)]
           /\ promises s' = settled_with p (Rejected e) (promises s)).
Proof.
  unfold sendCommand, setTimeout, settle, settled_with. run_block.
  match goal with
  | |- context [ send ?o ?d ?s0 ] =>
      destruct (send_views s0 o d) as (_ & Hk & _);
      destruct (send o d s0) as [[[]|e] s1]
  end; unfold correlator in Hk; cbn in *; simplify_eq.
  - repeat split; try congruence. left. split; congruence.
  - match goal with
    | H : promises s1 = _ |- _ => rewrite H
    end.
    destruct (promises s !! nextPromise s) eqn:E; cbn;
      (repeat split; try congruence; right; exists e; split; congruence).
Qed.

Local Abbreviation on_response := (on_response Date_toString).
Local Abbreviation handleDispatch := (handleDispatch Date_toString).

(** [handleMessage], test by test. *)
Lemma handleMessage_eq (s : State) (opcode : Z) (payload : Buffer) :
  handleMessage opcode payload s
  = match JSON_parse (Buf.toString payload) with
    | Thrown e => parse_failed e s
    | Normal message =>
        let s1 := (log ("Received: " +:+ stringify_text JSON_stringify message)
                       LInfo s).2 in
        match JS.get message "nonce" with
        | Thrown e => parse_failed e s1
        | Normal nonce =>
            match pending_key nonce s1 with
            | Some n =>
                let s2 :=
                  set_pendingResponses (delete n (pendingResponses s1)) s1 in
                match pendingResponses s1 !! n with
                | Some cb => try_catch (on_response cb message) parse_failed s2
                | None => (Normal tt, s2)
                end
            | None =>
                try_catch
                  (bind (lift (JS.get message "cmd")) (fun cmd =>
                     if JS.is_str cmd "DISPATCH" then handleDispatch message
                     else emit (NMessage message)))
                  parse_failed s1
            end
        end
    end.
Proof.
  unfold handleMessage, parse_failed, try_catch, bind, lift, gets, modify,
    ret.
  destruct (JSON_parse (Buf.toString payload)) as [message|e]; [|done].
  cbn. destruct (JS.get message "nonce") as [nonce|e]; [|done].
  destruct (pending_key nonce _) as [n|]; [|done].
  by destruct (pendingResponses _ !! n).
Qed.

Lemma log_views (s : State) (text : string) (level : Level) :
  (log text level s).1 = Normal tt
  /\ transport (log text level s).2 = transport s
  /\ correlator (log text level s).2 = correlator s
  /\ session (log text level s).2 = session s
  /\ messageQueue (log text level s).2 = messageQueue s
  /\ written (log text level s).2 = written s.
Proof.
  unfold log, modify, transport, correlator, session. cbn.
  by destruct (debug s) eqn:Hd; cbn; rewrite ?Hd.
Qed.

(** A frame that matches no pending entry leaves the correlator alone,
    whatever notification it turns into. *)
Lemma unmatched_branch (s : State) (message : value) :
  let r :=
    try_catch
      (bind (lift (JS.get message "cmd")) (fun cmd =>
         if JS.is_str cmd "DISPATCH" then handleDispatch message
         else emit (NMessage message)))
      parse_failed s in
  r.1 = Normal tt
  /\ transport r.2 = transport s
  /\ correlator r.2 = correlator s
  /\ messageQueue r.2 = messageQueue s
  /\ written r.2 = written s.
Proof.
  unfold handleDispatch, emit, parse_failed, log, transport, correlator.
  unfold try_catch, bind, lift, modify.
  repeat (case_match; cbn in *; simplify_eq; try done);
    repeat split; cbn; congruence.
Qed.

(** The closure of [sendCommand] on a response: the timer is cancelled,
    and the promise is settled unless reading the response throws. *)
Lemma on_response_fields (s : State) (cb : Callback) (response : value) :
  let r := try_catch (on_response cb response) parse_failed s in
  r.1 = Normal tt
  /\ pendingResponses r.2 = pendingResponses s
  /\ timers r.2 = delete (cb_timeoutId cb) (timers s)
  /\ nextTimer r.2 = nextTimer s
  /\ nextPromise r.2 = nextPromise s
  /\ heartbeatInterval r.2 = heartbeatInterval s
  /\ match response_outcome response with
     | Some o =>
         settleCalls r.2 = settleCalls s ++ [(cb_promise cb, o)]
         /\ promises r.2 = settled_with (cb_promise cb) o (promises s)
     | None =>
         settleCalls r.2 = settleCalls s /\ promises r.2 = promises s
     end.
Proof.
  unfold on_response, response_outcome,
    clearTimeout, settle, settled_with, parse_failed, log.
  unfold try_catch, bind, lift, modify.
  repeat (case_match; cbn in *; simplify_eq; try done);
    repeat split; cbn; congruence.
Qed.

Lemma pending_key_ext (s s' : State) (nonce : value) :
  pendingResponses s' = pendingResponses s ->
  pending_key nonce s' = pending_key nonce s.
Proof. intros H. unfold pending_key. by rewrite H. Qed.

Lemma correlator_fields (s s' : State) :
  correlator s' = correlator s ->
  pendingResponses s' = pendingResponses s
  /\ timers s' = timers s
  /\ nextTimer s' = nextTimer s
  /\ promises s' = promises s
  /\ nextPromise s' = nextPromise s
  /\ settleCalls s' = settleCalls s
  /\ heartbeatInterval s' = heartbeatInterval s.
Proof. unfold correlator. intros [= -> -> -> -> -> -> ->]. done. Qed.

(** [handleMessage] catches whatever its body throws. *)
Lemma handleMessage_normal (s : State) (opcode : Z) (payload : Buffer) :
  (handleMessage opcode payload s).1 = Normal tt.
Proof.
  rewrite handleMessage_eq. unfold parse_failed.
  destruct (JSON_parse (Buf.toString payload)) as [message|e];
    [|apply log_views].
  cbn zeta. destruct (JS.get message "nonce") as [nonce|e];
    [|apply log_views].
  destruct (pending_key nonce _) as [n|]; [|apply unmatched_branch].
  destruct (pendingResponses _ !! n) as [cb|]; [|done].
  apply on_response_fields.
Qed.

Lemma deliver_unmatched (s : State) (opcode : Z) (payload : Buffer) :
  matched payload s = None ->
  correlator (deliver opcode payload s) = correlator s.
Proof.
  unfold matched, deliver. rewrite handleMessage_eq. unfold parse_failed.
  destruct (JSON_parse (Buf.toString payload)) as [message|e];
    [|intros _; apply log_views].
  cbn zeta.
  match goal with
  | |- context [ log ?text ?level s ] =>
      destruct (log_views s text level) as (_ & _ & Hk & _);
      set (s1 := (log text level s).2) in *
  end.
  destruct (JS.get message "nonce") as [nonce|e];
    [|intros _; rewrite <- Hk; apply log_views].
  apply correlator_fields in Hk as Hf. destruct Hf as (Hp & _).
  rewrite (pending_key_ext s s1 nonce Hp), Hp.
  destruct (pending_key nonce s) as [n|] eqn:Hkey.
  - destruct (pendingResponses s !! n) as [cb|] eqn:E; [done|].
    exfalso. unfold pending_key in Hkey.
    repeat case_match; simplify_eq.
    match goal with H : is_Some _ |- _ => destruct H as [? ?] end.
    congruence.
  - intros _. rewrite <- Hk. apply unmatched_branch.
Qed.

Lemma deliver_matched (s : State) (opcode : Z) (payload : Buffer)
  (n : string) (cb : Callback) (response : value) :
  matched payload s = Some (n, cb, response) ->
  let s' := deliver opcode payload s in
  pendingResponses s' = delete n (pendingResponses s)
  /\ timers s' = delete (cb_timeoutId cb) (timers s)
  /\ nextTimer s' = nextTimer s
  /\ nextPromise s' = nextPromise s
  /\ heartbeatInterval s' = heartbeatInterval s
  /\ match response_outcome response with
     | Some o =>
         settleCalls s' = settleCalls s ++ [(cb_promise cb, o)]
         /\ promises s' = settled_with (cb_promise cb) o (promises s)
     | None =>
         settleCalls s' = settleCalls s /\ promises s' = promises s
     end.
Proof.
  unfold matched, deliver. rewrite handleMessage_eq.
  destruct (JSON_parse (Buf.toString payload)) as [message|e]; [|done].
  cbn zeta.
  match goal with
  | |- context [ log ?text ?level s ] =>
      destruct (log_views s text level) as (_ & _ & Hk & _);
      set (s1 := (log text level s).2) in *
  end.
  clearbody s1.
  destruct (JS.get message "nonce") as [nonce|e]; [|done].
  apply correlator_fields in Hk as (Hp & Ht & Hnt & Hpr & Hnp & Hsc & Hhb).
  rewrite (pending_key_ext s s1 nonce Hp), Hp.
  destruct (pending_key nonce s) as [n'|]; [|done].
  destruct (pendingResponses s !! n') as [cb'|]; [|done].
  intros [= -> -> ->].
  match goal with
  | |- context [ try_catch _ _ ?s2 ] =>
      destruct (on_response_fields s2 cb response)
        as (_ & H1 & H2 & H3 & H4 & H5 & H6)
  end.
  cbn in H1, H2, H3, H4, H5, H6.
  rewrite H1, H2, H3, H4, H5, ?Hp, ?Ht, ?Hnt, ?Hnp, ?Hhb.
  repeat split. destruct (response_outcome response);
    destruct H6 as [-> ->]; by rewrite ?Hsc, ?Hpr.
Qed.

Lemma matched_Some (s : State) (payload : Buffer) (n : string)
  (cb : Callback) (response : value) :
  matched payload s = Some (n, cb, response) ->
  JSON_parse (Buf.toString payload) = Normal response
  /\ JS.get response "nonce" = Normal (VStr n)
  /\ pendingResponses s !! n = Some cb.
Proof.
  unfold matched, pending_key. intros H.
  repeat case_match; simplify_eq. done.
Qed.

Lemma socket_close_fields (s : State) :
  let s' := (socket_close s).2 in
  pendingResponses s' = pendingResponses s
  /\ promises s' = promises s
  /\ settleCalls s' = settleCalls s
  /\ nextPromise s' = nextPromise s
  /\ heartbeatInterval s' = None
  /\ ((timers s' = without_heartbeat s /\ nextTimer s' = nextTimer s)
      \/ exists d,
           timers s' = <[nextTimer s := TReconnect d]> (without_heartbeat s)
           /\ nextTimer s' = S (nextTimer s)).
Proof.
  unfold socket_close, scheduleReconnect, clearHeartbeat, clearTimeout,
    setTimeout, emit, log, without_heartbeat.
  unfold bind, modify, gets, ret.
  repeat (case_match; cbn in *; simplify_eq; try done);
    repeat split; eauto.
Qed.

Lemma disconnect_fields (s : State) :
  let s' := (disconnect s).2 in
  (disconnect s).1 = Normal tt
  /\ pendingResponses s' = ∅
  /\ timers s' = without_heartbeat s
  /\ nextTimer s' = nextTimer s
  /\ promises s' = promises s
  /\ settleCalls s' = settleCalls s
  /\ nextPromise s' = nextPromise s
  /\ heartbeatInterval s' = None
  /\ autoReconnect s' = false
  /\ socket s' = None
  /\ connected s' = false
  /\ authenticated s' = false
  /\ messageQueue s' = []
  /\ written s' = written s
  /\ emitted s' = emitted s ++ [NDisconnect].
Proof.
  unfold disconnect, clearHeartbeat, clearTimeout, emit, log,
    without_heartbeat.
  unfold bind, modify, gets, ret.
  repeat (case_match; cbn in *; simplify_eq; try done).
Qed.

(** *** Bookkeeping of settle calls *)

Lemma calls_for_app (s s' : State) (p q : nat) (o : Settlement) :
  settleCalls s' = settleCalls s ++ [(q, o)] ->
  calls_for p s' = calls_for p s ++ (if decide (q = p) then [(q, o)] else []).
Proof.
  intros H. unfold calls_for. rewrite H, filter_app. by f_equal.
Qed.

Lemma settled_with_ne (ps : gmap nat Settlement) (p q : nat)
  (o : Settlement) :
  q <> p -> settled_with p o ps !! q = ps !! q.
Proof.
  intros H. unfold settled_with. destruct (ps !! p); [done|].
  by rewrite lookup_insert_ne.
Qed.

Lemma settled_with_fresh (ps : gmap nat Settlement) (p : nat)
  (o : Settlement) :
  ps !! p = None -> settled_with p o ps !! p = Some o.
Proof.
  intros H. unfold settled_with. rewrite H. by rewrite lookup_insert_eq.
Qed.

Lemma settled_with_dom (ps : gmap nat Settlement) (p q : nat)
  (o o' : Settlement) :
  settled_with p o ps !! q = Some o' -> q = p \/ ps !! q = Some o'.
Proof.
  unfold settled_with. destruct (ps !! p) eqn:E; [by right|].
  destruct (decide (q = p)) as [->|Hne]; [by left|].
  rewrite lookup_insert_ne by done. by right.
Qed.

Lemma response_outcome_cases (response : value) (o : Settlement) :
  response_outcome response = Some o ->
  (o = Resolved response)
  \/ exists data m,
       JS.get response "evt" = Normal (VStr "ERROR")
       /\ JS.get response "data" = Normal data
       /\ JS.get data "message" = Normal m
       /\ o = Rejected (JS.new_Error Date_toString m).
Proof.
  unfold response_outcome.
  destruct (JS.get response "evt") as [evt|] eqn:E; [|done].
  destruct (JS.is_str evt "ERROR") eqn:Hevt; [|intros [= <-]; by left].
  destruct (JS.get response "data") as [data|] eqn:Hd; [|done].
  destruct (JS.get data "message") as [m|] eqn:Hm; [|done].
  intros [= <-]. right. exists data, m. repeat split; try done.
  destruct evt; try done. cbn in Hevt.
  apply String.eqb_eq in Hevt. by subst.
Qed.

(** *** Well-formedness is kept by every block *)

Lemma wf_ext (s s' : State) :
  correlator s' = correlator s -> well_formed s -> well_formed s'.
Proof.
  intros Hk Hwf.
  apply correlator_fields in Hk as (Hp & Ht & Hnt & Hpr & Hnp & Hsc & Hhb).
  destruct Hwf.
  constructor; rewrite ?Hp, ?Ht, ?Hnt, ?Hpr, ?Hnp, ?Hsc, ?Hhb; done.
Qed.

Lemma without_heartbeat_sub (s : State) (t : nat) (x : Timer) :
  without_heartbeat s !! t = Some x -> timers s !! t = Some x.
Proof.
  unfold without_heartbeat. destruct (heartbeatInterval s); [|done].
  rewrite lookup_delete_Some. tauto.
Qed.

Lemma without_heartbeat_command (s : State) (t : nat) (n c : string)
  (p : nat) (d : Z) :
  well_formed s ->
  timers s !! t = Some (TCommandTimeout n c p d) ->
  without_heartbeat s !! t = Some (TCommandTimeout n c p d).
Proof.
  intros Hwf H. unfold without_heartbeat.
  destruct (heartbeatInterval s) as [hb|] eqn:E; [|done].
  destruct (wf_heartbeat s Hwf hb E) as [_ Hno].
  rewrite lookup_delete_ne; [done|]. intros ->. by apply Hno in H.
Qed.

Lemma wf_sendCommand (s : State) (cmd : string) (args : value)
  (timeout : Z) (nonce : string) :
  well_formed s -> well_formed (sendCommand cmd args timeout nonce s).2.
Proof.
  intros [W1 W2 W3 W4 W5 W6 W7].
  destruct (sendCommand_fields s cmd args timeout nonce)
    as (Hp & Ht & Hnt & Hnp & Hhb & Hset).
  constructor; rewrite ?Hp, ?Ht, ?Hnt, ?Hnp, ?Hhb.
  - intros t x H. destruct (decide (t = nextTimer s)); [lia|].
    rewrite lookup_insert_ne in H by done. apply W1 in H. lia.
  - intros t n c p d H. destruct (decide (t = nextTimer s)) as [->|].
    + rewrite lookup_insert_eq in H. simplify_eq. lia.
    + rewrite lookup_insert_ne in H by done. apply W2 in H. lia.
  - intros n cb. destruct (decide (n = nonce)) as [->|Hne].
    + rewrite lookup_insert_eq. intros [= <-]. cbn.
      rewrite lookup_insert_eq. eauto.
    + rewrite lookup_insert_ne by done. intros H.
      destruct (W3 _ _ H) as (c & d & Hc). exists c, d.
      rewrite lookup_insert_ne; [done|]. apply W1 in Hc. lia.
  - intros t1 t2 n1 c1 d1 n2 c2 d2 p H1 H2.
    destruct (decide (t1 = nextTimer s)) as [->|N1];
      destruct (decide (t2 = nextTimer s)) as [->|N2]; try done.
    + rewrite lookup_insert_eq in H1. simplify_eq.
      rewrite lookup_insert_ne in H2 by done. apply W2 in H2. lia.
    + rewrite lookup_insert_eq in H2. simplify_eq.
      rewrite lookup_insert_ne in H1 by done. apply W2 in H1. lia.
    + rewrite lookup_insert_ne in H1, H2 by done. eauto.
  - intros t H. destruct (W5 t H) as [Hlt Hno]. split; [lia|].
    intros n c p d. rewrite lookup_insert_ne by lia. apply Hno.
  - intros p o. destruct Hset as [[_ ->]|(e & _ & ->)]; intros H.
    + apply W6 in H. lia.
    + apply settled_with_dom in H as [->|H]; [lia|]. apply W6 in H. lia.
  - intros p o. destruct Hset as [[-> _]|(e & -> & _)]; intros H.
    + apply W7 in H. lia.
    + apply in_app_or in H as [H|[H|[]]]; [apply W7 in H; lia|].
      simplify_eq. lia.
Qed.

(** A pending entry and its timer leave together, with at most one call
    on the promise of that timer. *)
Lemma wf_retire (s s' : State) (t : nat) (n c : string) (p : nat) (d : Z) :
  well_formed s ->
  timers s !! t = Some (TCommandTimeout n c p d) ->
  pendingResponses s' = delete n (pendingResponses s) ->
  timers s' = delete t (timers s) ->
  nextTimer s' = nextTimer s ->
  nextPromise s' = nextPromise s ->
  heartbeatInterval s' = heartbeatInterval s ->
  ((settleCalls s' = settleCalls s /\ promises s' = promises s)
   \/ exists o,
        settleCalls s' = settleCalls s ++ [(p, o)]
        /\ promises s' = settled_with p o (promises s)) ->
  well_formed s'.
Proof.
  intros [W1 W2 W3 W4 W5 W6 W7] Hin Hp Ht Hnt Hnp Hhb Hset.
  constructor; rewrite ?Hp, ?Ht, ?Hnt, ?Hnp, ?Hhb.
  - intros t0 x H. apply lookup_delete_Some in H as [_ H]. eauto.
  - intros t0 n0 c0 p0 d0 H. apply lookup_delete_Some in H as [_ H]. eauto.
  - intros n0 cb H. apply lookup_delete_Some in H as [Hne H].
    destruct (W3 _ _ H) as (c0 & d0 & Hc). exists c0, d0.
    rewrite lookup_delete_ne; [done|].
    intros Heq. rewrite <- Heq in Hc. congruence.
  - intros t1 t2 n1 c1 d1 n2 c2 d2 p0 H1 H2.
    apply lookup_delete_Some in H1 as [_ H1].
    apply lookup_delete_Some in H2 as [_ H2]. eauto.
  - intros t0 H. destruct (W5 t0 H) as [Hlt Hno]. split; [done|].
    intros n0 c0 p0 d0 H0. apply lookup_delete_Some in H0 as [_ H0].
    by apply Hno in H0.
  - intros p0 o0. destruct Hset as [[_ ->]|(o & _ & ->)]; intros H.
    + eauto.
    + apply settled_with_dom in H as [->|H]; eauto.
  - intros p0 o0. destruct Hset as [[-> _]|(o & -> & _)]; intros H.
    + eauto.
    + apply in_app_or in H as [H|[H|[]]]; [eauto|]. simplify_eq. eauto.
Qed.

Lemma wf_heartbeat_cleared (s s' : State) :
  well_formed s ->
  (forall n cb, pendingResponses s' !! n = Some cb ->
                pendingResponses s !! n = Some cb) ->
  ((timers s' = without_heartbeat s /\ nextTimer s' = nextTimer s)
   \/ exists d,
        timers s' = <[nextTimer s := TReconnect d]> (without_heartbeat s)
        /\ nextTimer s' = S (nextTimer s)) ->
  promises s' = promises s ->
  settleCalls s' = settleCalls s ->
  nextPromise s' = nextPromise s ->
  heartbeatInterval s' = None ->
  well_formed s'.
Proof.
  intros Hwf Hp Ht Hpr Hsc Hnp Hhb.
  pose proof Hwf as [W1 W2 W3 W4 W5 W6 W7].
  assert (Hsub : forall t x, timers s' !! t = Some x ->
                   (t = nextTimer s /\ exists d, x = TReconnect d)
                   \/ timers s !! t = Some x).
  { intros t x H. destruct Ht as [[Ht _]|(d & Ht & _)]; rewrite Ht in H.
    - right. by apply without_heartbeat_sub.
    - destruct (decide (t = nextTimer s)) as [->|Hne].
      + rewrite lookup_insert_eq in H. simplify_eq. left. eauto.
      + rewrite lookup_insert_ne in H by done. right.
        by apply without_heartbeat_sub. }
  assert (Hnt : (nextTimer s <= nextTimer s')%nat)
    by (destruct Ht as [[_ ->]|(d & _ & ->)]; lia).
  constructor; rewrite ?Hpr, ?Hsc, ?Hnp, ?Hhb; try done.
  - intros t x H. destruct (Hsub _ _ H) as [[-> _]|H'].
    + destruct Ht as [[Ht _]|(d & _ & ->)]; [|lia].
      exfalso. rewrite Ht in H. apply without_heartbeat_sub in H.
      apply W1 in H. lia.
    + apply W1 in H'. lia.
  - intros t n c p d H. apply Hsub in H as [[_ [d' H]]|H]; [done|]. eauto.
  - intros n cb H. apply Hp in H. destruct (W3 _ _ H) as (c & d & Hc).
    exists c, d. apply (without_heartbeat_command s _ _ _ _ _ Hwf) in Hc as Hc'.
    destruct Ht as [[-> _]|(d' & -> & _)]; [done|].
    rewrite lookup_insert_ne; [done|]. apply W1 in Hc. lia.
  - intros t1 t2 n1 c1 d1 n2 c2 d2 p H1 H2.
    apply Hsub in H1 as [[_ [d' H1]]|H1]; [done|].
    apply Hsub in H2 as [[_ [d' H2]]|H2]; [done|]. eauto.
Qed.

Lemma setActivity_resume_views (s : State) (processedActivity : Activity)
  (o : Settlement) :
  correlator (setActivity_resume processedActivity o s).2 = correlator s
  /\ transport (setActivity_resume processedActivity o s).2 = transport s.
Proof.
  unfold setActivity_resume, emit, log, correlator, transport.
  unfold try_catch, bind, modify, throw.
  repeat (case_match; cbn in *; simplify_eq; try done);
    split; congruence.
Qed.

Local Abbreviation step := (step JSON_stringify JSON_parse Date_toString).
Local Abbreviation run := (run JSON_stringify JSON_parse Date_toString).

Lemma wf_step (s : State) (ev : event) :
  well_formed s -> well_formed (step s ev).
Proof.
  intros Hwf. destruct ev as [opcode payload|t|cmd args timeout nonce
                             |opcode data|processed o| |]; unfold step.
  - change (well_formed (deliver opcode payload s)).
    destruct (matched payload s) as [[[n cb] response]|] eqn:Hm.
    + destruct (matched_Some _ _ _ _ _ Hm) as (_ & _ & Hcb).
      destruct (wf_pending s Hwf _ _ Hcb) as (c & d & Ht).
      destruct (deliver_matched s opcode payload n cb response Hm)
        as (H1 & H2 & H3 & H4 & H5 & H6).
      eapply (wf_retire s); eauto.
      destruct (response_outcome response) as [o|];
        [right; exists o | left]; done.
    + eapply wf_ext; [|done]. by apply deliver_unmatched.
  - change (well_formed (fire_timer t s).2).
    destruct (timers s !! t) as [[n c p d| |]|] eqn:Ht.
    + destruct (fire_timer_timeout s t n c p d Ht)
        as (H1 & H2 & H3 & H4 & H5 & H6 & H7).
      eapply (wf_retire s); eauto.
    + rewrite fire_timer_other; [done|]. congruence.
    + rewrite fire_timer_other; [done|]. congruence.
    + rewrite fire_timer_other; [done|]. congruence.
  - by apply wf_sendCommand.
  - eapply wf_ext; [|done]. apply send_views.
  - eapply wf_ext; [|done]. apply setActivity_resume_views.
  - destruct (socket_close_fields s) as (H1 & H2 & H3 & H4 & H5 & H6).
    eapply (wf_heartbeat_cleared s); eauto.
    intros n cb. by rewrite H1.
  - destruct (disconnect_fields s)
      as (_ & H1 & H2 & H3 & H4 & H5 & H6 & H7 & _).
    eapply (wf_heartbeat_cleared s); eauto.
    intros n cb. by rewrite H1, lookup_empty.
Qed.

Lemma run_snoc (evs : list event) (ev : event) (s : State) :
  run (evs ++ [ev]) s = step (run evs s) ev.
Proof. unfold run. by rewrite fold_left_app. Qed.

Lemma wf_run (evs : list event) (s : State) :
  well_formed s -> well_formed (run evs s).
Proof.
  induction evs as [|ev evs IH] using rev_ind; [done|].
  intros Hwf. rewrite run_snoc. by apply wf_step, IH.
Qed.

Lemma wf_constructor (cid : option string) (dbg ar : option bool)
  (rd mx : option Z) (listener : bool) :
  well_formed (constructor cid dbg ar rd mx listener).
Proof.
  unfold constructor, log, modify. cbn.
  destruct (default false dbg); constructor; cbn; try done;
    intros; by rewrite ?lookup_empty in *.
Qed.

(** *** One command through every block *)

Local Abbreviation outcome_of := (outcome_of JSON_parse Date_toString).
Local Abbreviation ended := (ended JSON_parse Date_toString).
Local Abbreviation tracked := (tracked JSON_parse Date_toString).
Local Abbreviation readable_answer :=
  (readable_answer JSON_parse Date_toString).

Lemma outcome_of_mono (r : request) (evs evs' : list event)
  (o : Settlement) :
  outcome_of r evs o -> outcome_of r (evs ++ evs') o.
Proof.
  intros [op pl resp Hin|op pl resp data m Hin|Hin].
  - eapply resolved_by_response; eauto. apply in_or_app. by left.
  - eapply rejected_by_remote; eauto. apply in_or_app. by left.
  - eapply rejected_by_timeout; eauto. apply in_or_app. by left.
Qed.

(** A block that makes no call on the promise of [r] and keeps its
    timer leaves [r] where it is. *)
Lemma tracked_frame (r : request) (evs evs' : list event) (s s' : State) :
  tracked r evs s ->
  (nextPromise s <= nextPromise s')%nat ->
  promises s' !! rq_promise r = promises s !! rq_promise r ->
  calls_for (rq_promise r) s' = calls_for (rq_promise r) s ->
  (forall n c d,
     timers s !! rq_timer r = Some (TCommandTimeout n c (rq_promise r) d) ->
     timers s' !! rq_timer r = Some (TCommandTimeout n c (rq_promise r) d)) ->
  (forall t n c d,
     timers s' !! t = Some (TCommandTimeout n c (rq_promise r) d) ->
     timers s !! t = Some (TCommandTimeout n c (rq_promise r) d)) ->
  tracked r (evs ++ evs') s'.
Proof.
  intros [Hlt Hst] Hnp Hpr Hcalls Hkeep Hnew. split; [lia|].
  destruct Hst as [(H1 & H2 & H3)|(o & H1 & H2 & H3 & H4)].
  - left. repeat split; try congruence. by apply Hkeep.
  - right. exists o. repeat split; try congruence.
    + intros t n c d H. apply Hnew in H. by apply H3 in H.
    + by apply outcome_of_mono.
Qed.

Lemma tracked_ext (r : request) (evs evs' : list event) (s s' : State) :
  correlator s' = correlator s ->
  tracked r evs s -> tracked r (evs ++ evs') s'.
Proof.
  intros Hk Htr.
  apply correlator_fields in Hk as (Hp & Ht & Hnt & Hpr & Hnp & Hsc & Hhb).
  eapply tracked_frame; eauto; rewrite ?Hnp, ?Hpr, ?Ht; try done.
  unfold calls_for. by rewrite Hsc.
Qed.

(** The timer of another command goes, with at most one call on that
    other promise. *)
Lemma tracked_retire_other (r : request) (evs evs' : list event)
  (s s' : State) (t : nat) (n c : string) (p : nat) (d : Z) :
  tracked r evs s ->
  p <> rq_promise r ->
  timers s !! t = Some (TCommandTimeout n c p d) ->
  timers s' = delete t (timers s) ->
  nextPromise s' = nextPromise s ->
  ((settleCalls s' = settleCalls s /\ promises s' = promises s)
   \/ exists o,
        settleCalls s' = settleCalls s ++ [(p, o)]
        /\ promises s' = settled_with p o (promises s)) ->
  tracked r (evs ++ evs') s'.
Proof.
  intros Htr Hne Hin Ht Hnp Hset.
  eapply tracked_frame; eauto; rewrite ?Hnp, ?Ht; try done.
  - destruct Hset as [[_ ->]|(o & _ & ->)]; [done|].
    by rewrite settled_with_ne.
  - destruct Hset as [[Hsc _]|(o & Hsc & _)].
    + unfold calls_for. by rewrite Hsc.
    + rewrite (calls_for_app s s' _ p o Hsc).
      rewrite decide_False by done. by rewrite app_nil_r.
  - intros n0 c0 d0 H. rewrite lookup_delete_ne; [done|].
    intros Heq. rewrite <- Heq in H. congruence.
  - intros t0 n0 c0 d0 H. by apply lookup_delete_Some in H as [_ H].
Qed.

(** The timer that goes carries the promise of [r]: then [r] was
    waiting and this is its own timer. *)
Lemma tracked_own_timer (r : request) (evs : list event) (s : State)
  (t : nat) (n c : string) (d : Z) :
  well_formed s ->
  tracked r evs s ->
  timers s !! t = Some (TCommandTimeout n c (rq_promise r) d) ->
  waiting r s /\ t = rq_timer r /\ n = rq_nonce r /\ c = rq_cmd r.
Proof.
  intros Hwf [_ [Hw|(o & _ & _ & Hno & _)]] Hin; [|by apply Hno in Hin].
  pose proof Hw as (_ & _ & Hmine).
  assert (t = rq_timer r) as -> by (eapply (wf_one_timer s Hwf); eauto).
  rewrite Hmine in Hin. by simplify_eq.
Qed.

(** The own timer goes with one call on the promise: the command has
    ended with that outcome. *)
Lemma retire_own_ended (r : request) (evs : list event) (s s' : State)
  (o : Settlement) :
  well_formed s ->
  waiting r s ->
  timers s' = delete (rq_timer r) (timers s) ->
  settleCalls s' = settleCalls s ++ [(rq_promise r, o)] ->
  promises s' = settled_with (rq_promise r) o (promises s) ->
  outcome_of r evs o ->
  ended r evs s' o.
Proof.
  intros Hwf (Hp & Hc & Hmine) Ht Hsc Hpr Hout.
  repeat split; try done.
  - rewrite Hpr. by apply settled_with_fresh.
  - rewrite (calls_for_app s s' _ _ o Hsc), Hc.
    by rewrite decide_True.
  - intros t n c d. rewrite Ht. intros H.
    apply lookup_delete_Some in H as [Hne H]. apply Hne. symmetry.
    eapply (wf_one_timer s Hwf); eauto.
Qed.

Lemma tracked_step (r : request) (evs : list event) (s : State)
  (ev : event) :
  well_formed s ->
  tracked r evs s ->
  (waiting r s -> readable_answer r ev) ->
  tracked r (evs ++ [ev]) (step s ev).
Proof.
  intros Hwf Htr Hread.
  destruct ev as [opcode payload|t|cmd args timeout nonce
                 |opcode data|processed o| |]; unfold step.
  - change (tracked r (evs ++ [EFrame opcode payload])
              (deliver opcode payload s)).
    destruct (matched payload s) as [[[n cb] response]|] eqn:Hm;
      [|apply (tracked_ext r evs _ s); [by apply deliver_unmatched | done]].
    destruct (matched_Some _ _ _ _ _ Hm) as (Hparse & Hnonce & Hcb).
    destruct (wf_pending s Hwf _ _ Hcb) as (c & d & Ht).
    destruct (deliver_matched s opcode payload n cb response Hm)
      as (_ & H2 & _ & H4 & _ & H6).
    destruct (decide (cb_promise cb = rq_promise r)) as [Heq|Hne].
    + rewrite Heq in *.
      destruct (tracked_own_timer r evs s _ _ _ _ Hwf Htr Ht)
        as (Hw & Htimer & -> & ->).
      rewrite Htimer in *.
      destruct (Hread Hw response Hparse Hnonce) as [o Ho].
      fold response_outcome in Ho. rewrite Ho in H6.
      destruct H6 as [Hsc Hpr].
      split; [rewrite H4; apply Htr|]. right. exists o.
      eapply (retire_own_ended r _ s); eauto.
      assert (Hin : In (EFrame opcode payload)
                       (evs ++ [EFrame opcode payload]))
        by (apply in_or_app; right; by left).
      destruct (response_outcome_cases response o Ho)
        as [->|(data & m & He & Hd & Hmsg & ->)].
      * eapply resolved_by_response; eauto.
      * eapply rejected_by_remote; eauto.
    + eapply (tracked_retire_other r evs _ s); eauto.
      destruct (response_outcome response) as [o|];
        [right; exists o | left]; done.
  - change (tracked r (evs ++ [ETimer t]) (fire_timer t s).2).
    destruct (timers s !! t) as [[n c p d| |]|] eqn:Ht;
      try (rewrite fire_timer_other by congruence;
           by apply (tracked_ext r evs _ s)).
    destruct (fire_timer_timeout s t n c p d Ht)
      as (_ & H2 & _ & H4 & _ & H6 & H7).
    destruct (decide (p = rq_promise r)) as [->|Hne].
    + destruct (tracked_own_timer r evs s _ _ _ _ Hwf Htr Ht)
        as (Hw & -> & -> & ->).
      split; [rewrite H4; apply Htr|]. right. eexists.
      eapply (retire_own_ended r _ s); eauto.
      apply rejected_by_timeout. apply in_or_app. right. by left.
    + eapply (tracked_retire_other r evs _ s); eauto.
  - destruct (sendCommand_fields s cmd args timeout nonce)
      as (_ & Ht & _ & Hnp & _ & Hset).
    pose proof Htr as [Hlt _].
    eapply tracked_frame; eauto; rewrite ?Hnp, ?Ht; try lia.
    + destruct Hset as [[_ ->]|(e & _ & ->)]; [done|].
      rewrite settled_with_ne; [done|lia].
    + destruct Hset as [[Hsc _]|(e & Hsc & _)].
      * unfold calls_for. by rewrite Hsc.
      * rewrite (calls_for_app _ _ _ _ _ Hsc).
        rewrite decide_False by lia. by rewrite app_nil_r.
    + intros n c d H. rewrite lookup_insert_ne; [done|].
      apply (wf_timers s Hwf) in H. lia.
    + intros t n c d H.
      destruct (decide (t = nextTimer s)) as [->|Hne].
      * rewrite lookup_insert_eq in H. simplify_eq. lia.
      * by rewrite lookup_insert_ne in H.
  - apply (tracked_ext r evs _ s); [|done]. apply send_views.
  - apply (tracked_ext r evs _ s); [|done]. apply setActivity_resume_views.
  - destruct (socket_close_fields s) as (_ & H2 & H3 & H4 & _ & H6).
    eapply tracked_frame; eauto; rewrite ?H4, ?H2; try done.
    + unfold calls_for. by rewrite H3.
    + intros n c d H. pose proof (wf_timers s Hwf _ _ H).
      apply (without_heartbeat_command s _ _ _ _ _ Hwf) in H.
      destruct H6 as [[-> _]|(d' & -> & _)]; [done|].
      rewrite lookup_insert_ne; [done|lia].
    + intros t n c d H.
      destruct H6 as [[Ht _]|(d' & Ht & _)]; rewrite Ht in H.
      * by apply without_heartbeat_sub.
      * destruct (decide (t = nextTimer s)) as [->|Hne].
        -- by rewrite lookup_insert_eq in H.
        -- rewrite lookup_insert_ne in H by done.
           by apply without_heartbeat_sub.
  - destruct (disconnect_fields s)
      as (_ & _ & H2 & _ & H4 & H5 & H6 & _).
    eapply tracked_frame; eauto; rewrite ?H6, ?H4, ?H2; try done.
    + unfold calls_for. by rewrite H5.
    + intros n c d H. by apply without_heartbeat_command.
    + intros t n c d H. by apply without_heartbeat_sub.
Qed.

Lemma settled_with_keep (ps : gmap nat Settlement) (p q : nat)
  (o o' : Settlement) :
  ps !! q = Some o -> settled_with p o' ps !! q = Some o.
Proof.
  intros H. unfold settled_with. destruct (ps !! p) eqn:E; [done|].
  rewrite lookup_insert_ne; [done|]. congruence.
Qed.

(** A settled promise stays as it is, whatever runs next. *)
Lemma step_promise_stable (s : State) (ev : event) (p : nat)
  (o : Settlement) :
  promises s !! p = Some o -> promises (step s ev) !! p = Some o.
Proof.
  intros H.
  destruct ev as [opcode payload|t|cmd args timeout nonce
                 |opcode data|processed o'| |]; unfold step.
  - change (promises (deliver opcode payload s) !! p = Some o).
    destruct (matched payload s) as [[[n cb] response]|] eqn:Hm.
    + destruct (deliver_matched s opcode payload n cb response Hm)
        as (_ & _ & _ & _ & _ & H6).
      destruct (response_outcome response); destruct H6 as [_ ->];
        [by apply settled_with_keep | done].
    + pose proof (deliver_unmatched s opcode payload Hm) as Hk.
      apply correlator_fields in Hk as (_ & _ & _ & -> & _). done.
  - change (promises (fire_timer t s).2 !! p = Some o).
    destruct (timers s !! t) as [[n c p' d| |]|] eqn:Ht;
      try (by rewrite fire_timer_other by congruence).
    destruct (fire_timer_timeout s t n c p' d Ht)
      as (_ & _ & _ & _ & _ & _ & ->).
    by apply settled_with_keep.
  - destruct (sendCommand_fields s cmd args timeout nonce)
      as (_ & _ & _ & _ & _ & [[_ ->]|(e & _ & ->)]);
      [done | by apply settled_with_keep].
  - destruct (send_views s opcode data) as (_ & Hk & _).
    apply correlator_fields in Hk as (_ & _ & _ & -> & _). done.
  - destruct (setActivity_resume_views s processed o') as (Hk & _).
    apply correlator_fields in Hk as (_ & _ & _ & -> & _). done.
  - destruct (socket_close_fields s) as (_ & -> & _). done.
  - destruct (disconnect_fields s) as (_ & _ & _ & _ & -> & _). done.
Qed.

Lemma ended_step (r : request) (evs : list event) (s : State) (ev : event)
  (o : Settlement) :
  well_formed s ->
  (rq_promise r < nextPromise s)%nat ->
  ended r evs s o ->
  ended r (evs ++ [ev]) (step s ev) o.
Proof.
  intros Hwf Hlt Hend.
  assert (Htr : tracked r evs s) by (split; [done | right; eauto]).
  pose proof Hend as (Hp & _).
  destruct (tracked_step r evs s ev Hwf Htr) as [_ [Hw|(o' & Hend')]].
  - intros (Hnone & _). congruence.
  - destruct Hw as (Hnone & _).
    rewrite (step_promise_stable s ev _ o Hp) in Hnone. done.
  - pose proof Hend' as (Hp' & _).
    rewrite (step_promise_stable s ev _ o Hp) in Hp'. by simplify_eq.
Qed.

Lemma tracked_run (r : request) (evs0 evs : list event) (s : State) :
  well_formed s ->
  tracked r evs0 s ->
  Forall (readable_answer r) evs ->
  tracked r (evs0 ++ evs) (run evs s).
Proof.
  intros Hwf Htr Hall. induction evs as [|ev evs IH] using rev_ind.
  - by rewrite app_nil_r.
  - apply Forall_app in Hall as [Hall Hev].
    apply Forall_cons in Hev as [Hev _].
    rewrite run_snoc, app_assoc.
    apply tracked_step; [by apply wf_run | by apply IH | done].
Qed.

(** [sendCommand] on a well-formed state whose [send] does not throw
    leaves the new command waiting. *)
Lemma sendCommand_waiting (s : State) (cmd : string) (args : value)
  (timeout : Z) (nonce : string) :
  well_formed s ->
  let s1 := (sendCommand cmd args timeout nonce s).2 in
  let r := mkRequest nonce cmd timeout (nextTimer s) (nextPromise s) in
  promises s1 !! nextPromise s = None ->
  tracked r [] s1.
Proof.
  intros Hwf s1 r Hnone.
  destruct (sendCommand_fields s cmd args timeout nonce)
    as (_ & Ht & _ & Hnp & _ & Hset).
  fold s1 in Ht, Hnp, Hset.
  assert (Hfresh : promises s !! nextPromise s = None).
  { destruct (promises s !! nextPromise s) eqn:E; [|done].
    apply (wf_settled s Hwf) in E. lia. }
  assert (Hcalls : calls_for (nextPromise s) s = []).
  { unfold calls_for. pose proof (wf_calls s Hwf) as Hc. revert Hc.
    generalize (settleCalls s). intros l.
    induction l as [|[q o] l IH]; intros Hc; [done|].
    rewrite filter_cons. cbn. destruct (decide (q = nextPromise s)) as [->|].
    - specialize (Hc (nextPromise s) o (or_introl eq_refl)). lia.
    - apply IH. intros q' o' Hin. apply (Hc q' o'). by right. }
  split; [cbn; lia|]. left. repeat split; cbn.
  - done.
  - destruct Hset as [[Hsc _]|(e & _ & Hpr)].
    + unfold calls_for in *. by rewrite Hsc.
    + rewrite Hpr, settled_with_fresh in Hnone by done. done.
  - rewrite Ht. by rewrite lookup_insert_eq.
Qed.

Lemma late_response_unmatched (s : State) (payload : Buffer)
  (response : value) (n : string) :
  JSON_parse (Buf.toString payload) = Normal response ->
  JS.get response "nonce" = Normal (VStr n) ->
  pendingResponses s !! n = None ->
  matched payload s = None.
Proof.
  intros Hp Hn Hnone. unfold matched, pending_key. rewrite Hp, Hn, Hnone.
  destruct (JS.truthy (VStr n)); [|done].
  rewrite decide_False; [done|]. by intros [? ?].
Qed.

(** [sendCommand] is the registration followed by [send]; an exception
    of [send] becomes a call of [reject]. *)
Lemma sendCommand_sent (s : State) (cmd : string) (args : value)
  (timeout : Z) (nonce : string) :
  let r := mkRequest nonce cmd timeout (nextTimer s) (nextPromise s) in
  sendCommand cmd args timeout nonce s
  = match send 1 (command_message r args) (registered r s) with
    | (Normal _, s') => (Normal (rq_promise r), s')
    | (Thrown e, s') =>
        (Normal (rq_promise r), (settle (rq_promise r) (Rejected e) s').2)
    end.
Proof.
  cbn zeta. unfold sendCommand, setTimeout, registered, command_message.
  unfold try_catch, bind, modify, gets, ret. cbn.
  by destruct (send _ _ _) as [[[]|e] s'].
Qed.

Lemma registered_correlator (r : request) (s : State) :
  transport (registered r s) = transport s
  /\ promises (registered r s) = promises s
  /\ settleCalls (registered r s) = settleCalls s.
Proof. done. Qed.

Lemma calls_for_fresh (s : State) :
  well_formed s -> calls_for (nextPromise s) s = [].
Proof.
  intros Hwf. unfold calls_for. pose proof (wf_calls s Hwf) as Hc. revert Hc.
  generalize (settleCalls s). intros l.
  induction l as [|[q o] l IH]; intros Hc; [done|].
  rewrite filter_cons. cbn. destruct (decide (q = nextPromise s)) as [->|].
  - specialize (Hc (nextPromise s) o (or_introl eq_refl)). lia.
  - apply IH. intros q' o' Hin. apply (Hc q' o'). by right.
Qed.

(** The promise of a command right after [sendCommand]: untouched when
    [send] returned, rejected with the error of [send] when it threw. *)
Lemma sendCommand_promise (s : State) (cmd : string) (args : value)
  (timeout : Z) (nonce : string) :
  well_formed s ->
  let r := mkRequest nonce cmd timeout (nextTimer s) (nextPromise s) in
  let sent := send 1 (command_message r args) (registered r s) in
  let s1 := (sendCommand cmd args timeout nonce s).2 in
  (sent.1 = Normal tt -> promises s1 !! rq_promise r = None)
  /\ (forall e, sent.1 = Thrown e ->
        promises s1 !! rq_promise r = Some (Rejected e)
        /\ calls_for (rq_promise r) s1 = [(rq_promise r, Rejected e)]).
Proof.
  intros Hwf r sent s1.
  assert (Hfresh : promises s !! nextPromise s = None).
  { destruct (promises s !! nextPromise s) eqn:E; [|done].
    apply (wf_settled s Hwf) in E. lia. }
  pose proof (calls_for_fresh s Hwf) as Hcalls.
  subst s1. rewrite sendCommand_sent. fold r. fold sent.
  destruct (send_views (registered r s) 1 (command_message r args))
    as (_ & Hk & _).
  fold sent in Hk.
  apply correlator_fields in Hk as (_ & _ & _ & Hpr & _ & Hsc & _).
  destruct sent as [[[]|e] s']; cbn [fst snd] in *.
  - split; [|done]. intros _. by rewrite Hpr.
  - split; [done|]. intros e' [= <-].
    unfold settle, modify, calls_for in *. cbn [snd].
    change (promises (registered r s)) with (promises s) in Hpr.
    change (settleCalls (registered r s)) with (settleCalls s) in Hsc.
    rewrite Hpr. cbn [rq_promise r]. rewrite Hfresh. cbn.
    rewrite lookup_insert_eq. split; [done|].
    rewrite Hsc, filter_app, Hcalls. cbn. by rewrite decide_True.
Qed.

Lemma run_promise_stable (evs : list event) (s : State) (p : nat)
  (o : Settlement) :
  promises s !! p = Some o -> promises (run evs s) !! p = Some o.
Proof.
  intros H. induction evs as [|ev evs IH] using rev_ind; [done|].
  rewrite run_snoc. by apply step_promise_stable.
Qed.

(** A command whose entry is in the map has its timer armed, so it is
    waiting. *)
Lemma own_entry_waiting (r : request) (evs : list event) (s : State) :
  well_formed s -> tracked r evs s -> own_entry r s -> waiting r s.
Proof.
  intros Hwf [_ [Hw|(o & _ & _ & Hno & _)]] Hown; [done|].
  destruct (wf_pending s Hwf _ _ Hown) as (c & d & Ht). cbn in Ht.
  by apply Hno in Ht.
Qed.

(** A readable response that finds the entry of the command ends it. *)
Lemma answer_ends (r : request) (evs : list event) (s : State)
  (opcode : Z) (payload : Buffer) (response : value) (o : Settlement) :
  well_formed s ->
  tracked r evs s ->
  own_entry r s ->
  rq_nonce r <> EmptyString ->
  JSON_parse (Buf.toString payload) = Normal response ->
  JS.get response "nonce" = Normal (VStr (rq_nonce r)) ->
  response_outcome response = Some o ->
  ended r (evs ++ [EFrame opcode payload]) (step s (EFrame opcode payload)) o.
Proof.
  intros Hwf Htr Hown Hne Hparse Hnonce Ho.
  pose proof (own_entry_waiting r evs s Hwf Htr Hown) as Hw.
  assert (Hm : matched payload s
               = Some (rq_nonce r, mkCallback (rq_timer r) (rq_promise r),
                       response)).
  { unfold matched, pending_key. rewrite Hparse, Hnonce. cbn [JS.truthy].
    apply String.eqb_neq in Hne. rewrite Hne. cbn [negb].
    rewrite decide_True by (by rewrite Hown). by rewrite Hown. }
  destruct (deliver_matched s opcode payload _ _ response Hm)
    as (_ & H2 & _ & _ & _ & H6).
  fold response_outcome in Ho. rewrite Ho in H6. destruct H6 as [Hsc Hpr].
  cbn [cb_timeoutId cb_promise] in *.
  change (step s (EFrame opcode payload)) with (deliver opcode payload s).
  eapply (retire_own_ended r _ s); eauto.
  assert (Hin : In (EFrame opcode payload) (evs ++ [EFrame opcode payload]))
    by (apply in_or_app; right; by left).
  destruct (response_outcome_cases response o Ho)
    as [->|(data & m & He & Hd & Hmsg & ->)].
  - eapply resolved_by_response; eauto.
  - eapply rejected_by_remote; eauto.
Qed.

(** After [disconnect()] a waiting command is still waiting, and a
    response to it finds no entry. *)
Lemma response_after_disconnect (r : request) (s : State)
  (opcode : Z) (payload : Buffer) :
  well_formed s ->
  waiting r s ->
  waiting r (step (step s EDisconnect) (EFrame opcode payload)).
Proof.
  intros Hwf (Hp & Hc & Ht). cbn [step].
  destruct (disconnect_fields s)
    as (_ & H1 & H2 & _ & H4 & H5 & _).
  set (sd := (disconnect s).2) in *.
  assert (Hm : matched payload sd = None).
  { unfold matched, pending_key. rewrite H1.
    repeat case_match; try done; rewrite lookup_empty in *;
      simplify_eq; by destruct_and?. }
  pose proof (deliver_unmatched sd opcode payload Hm) as Hk.
  apply correlator_fields in Hk as (_ & Hti & _ & Hpr & _ & Hsc & _).
  change ((handleMessage opcode payload sd).2)
    with (deliver opcode payload sd).
  repeat split.
  - by rewrite Hpr, H4.
  - unfold calls_for in *. by rewrite Hsc, H5.
  - rewrite Hti, H2. by apply without_heartbeat_command.
Qed.

(** The entry of a waiting command stays in the map, and no other timer
    carries its nonce, through every block but [disconnect()] and a
    command under the same nonce. *)
Lemma entry_kept_step (r : request) (evs : list event) (s : State)
  (ev : event) :
  well_formed s ->
  tracked r evs s ->
  leaves_entry r ev ->
  (forall t c p d,
     timers s !! t = Some (TCommandTimeout (rq_nonce r) c p d) ->
     t = rq_timer r) ->
  (waiting r s -> own_entry r s) ->
  (forall t c p d,
     timers (step s ev) !! t = Some (TCommandTimeout (rq_nonce r) c p d) ->
     t = rq_timer r)
  /\ (waiting r (step s ev) -> own_entry r (step s ev)).
Proof.
  intros Hwf Htr Hev Hlone Hown.
  assert (Hback : waiting r (step s ev) -> waiting r s).
  { intros (Hp' & _). destruct Htr as [_ [Hw|(o & Hp & _)]]; [done|].
    rewrite (step_promise_stable s ev _ o Hp) in Hp'. done. }
  assert (Hsame : correlator (step s ev) = correlator s ->
            (forall t c p d,
               timers (step s ev) !! t
               = Some (TCommandTimeout (rq_nonce r) c p d) ->
               t = rq_timer r)
            /\ (waiting r (step s ev) -> own_entry r (step s ev))).
  { intros Hk. apply correlator_fields in Hk as (Hp & Ht & _).
    unfold own_entry. rewrite Hp, Ht. split; [done|].
    intros Hw. by apply Hown, Hback. }
  destruct ev as [opcode payload|t|cmd args timeout nonce
                 |opcode data|processed o| |]; cbn [leaves_entry] in Hev;
    try done.
  - destruct (matched payload s) as [[[n cb] response]|] eqn:Hm;
      [|apply Hsame; by apply deliver_unmatched].
    destruct (matched_Some _ _ _ _ _ Hm) as (_ & _ & Hcb).
    destruct (deliver_matched s opcode payload n cb response Hm)
      as (H1 & H2 & _).
    change (step s (EFrame opcode payload)) with (deliver opcode payload s)
      in *.
    split.
    + intros t c p d. rewrite H2. intros H.
      apply lookup_delete_Some in H as [_ H]. eauto.
    + intros Hw. pose proof (Hown (Hback Hw)) as Hmine.
      unfold own_entry in *. rewrite H1.
      destruct (decide (n = rq_nonce r)) as [->|Hne];
        [|by rewrite lookup_delete_ne].
      exfalso. rewrite Hmine in Hcb. simplify_eq.
      destruct Hw as (_ & _ & Ht). rewrite H2 in Ht. cbn in Ht.
      by rewrite lookup_delete_eq in Ht.
  - change (step s (ETimer t)) with (fire_timer t s).2 in *.
    destruct (timers s !! t) as [[n c p d| |]|] eqn:Ht;
      try (rewrite fire_timer_other in * by congruence; split; [done|];
           intros Hw; by apply Hown).
    destruct (fire_timer_timeout s t n c p d Ht) as (H1 & H2 & _).
    split.
    + intros t0 c0 p0 d0. rewrite H2. intros H.
      apply lookup_delete_Some in H as [_ H]. eauto.
    + intros Hw. pose proof (Hown (Hback Hw)) as Hmine.
      unfold own_entry in *. rewrite H1.
      destruct (decide (n = rq_nonce r)) as [->|Hne];
        [|by rewrite lookup_delete_ne].
      exfalso. apply Hlone in Ht as ->.
      destruct Hw as (_ & _ & Ht'). rewrite H2 in Ht'.
      by rewrite lookup_delete_eq in Ht'.
  - destruct (sendCommand_fields s cmd args timeout nonce)
      as (H1 & H2 & _).
    cbn [step]. split.
    + intros t c p d. rewrite H2. intros H.
      destruct (decide (t = nextTimer s)) as [->|Hne].
      * rewrite lookup_insert_eq in H. by simplify_eq.
      * rewrite lookup_insert_ne in H by done. eauto.
    + intros Hw. pose proof (Hown (Hback Hw)) as Hmine.
      unfold own_entry in *. rewrite H1. by rewrite lookup_insert_ne.
  - apply Hsame. apply send_views.
  - apply Hsame. apply setActivity_resume_views.
  - destruct (socket_close_fields s) as (H1 & _ & _ & _ & _ & H6).
    cbn [step]. split.
    + intros t c p d H.
      destruct H6 as [[Ht _]|(d' & Ht & _)]; rewrite Ht in H.
      * apply without_heartbeat_sub in H. eauto.
      * destruct (decide (t = nextTimer s)) as [->|Hne].
        -- by rewrite lookup_insert_eq in H.
        -- rewrite lookup_insert_ne in H by done.
           apply without_heartbeat_sub in H. eauto.
    + intros Hw. unfold own_entry. rewrite H1. by apply Hown, Hback.
Qed.

Lemma entry_kept_run (r : request) (evs0 evs : list event) (s : State) :
  well_formed s ->
  tracked r evs0 s ->
  Forall (readable_answer r) evs ->
  Forall (leaves_entry r) evs ->
  (forall t c p d,
     timers s !! t = Some (TCommandTimeout (rq_nonce r) c p d) ->
     t = rq_timer r) ->
  (waiting r s -> own_entry r s) ->
  waiting r (run evs s) -> own_entry r (run evs s).
Proof.
  intros Hwf Htr Hread Hall Hlone Hown.
  cut ((forall t c p d,
          timers (run evs s) !! t
          = Some (TCommandTimeout (rq_nonce r) c p d) ->
          t = rq_timer r)
       /\ (waiting r (run evs s) -> own_entry r (run evs s))).
  { by intros [_ H]. }
  induction evs as [|ev evs IH] using rev_ind; [done|].
  apply Forall_app in Hread as [Hread _].
  apply Forall_app in Hall as [Hall Hev].
  apply Forall_cons in Hev as [Hev _].
  destruct (IH Hread Hall) as [IH1 IH2].
  rewrite run_snoc.
  apply (entry_kept_step r (evs0 ++ evs)); try done.
  - by apply wf_run.
  - by apply tracked_run.
Qed.


(** *** [disconnect] *)

(** C4 (amended): [disconnect()] empties the pending map and the
    outbound queue, turns [connected], [authenticated] and
    [autoReconnect] off, drops the socket and emits one disconnect
    notification; it makes no call on any promise, and the timer of every
    outstanding command stays armed, so that each of them is rejected by
    its own timeout when that timer fires. *)
Theorem disconnect_clears_without_settling (s : State) :
  let s' := (disconnect s).2 in
  (disconnect s).1 = Normal tt
  /\ pendingResponses s' = ∅
  /\ messageQueue s' = []
  /\ connected s' = false
  /\ authenticated s' = false
  /\ autoReconnect s' = false
  /\ socket s' = None
  /\ emitted s' = emitted s ++ [NDisconnect]
  /\ promises s' = promises s
  /\ settleCalls s' = settleCalls s
  /\ (forall t n c p d,
        well_formed s ->
        timers s !! t = Some (TCommandTimeout n c p d) ->
        timers s' !! t = Some (TCommandTimeout n c p d)
        /\ (promises s !! p = None ->
            promises (fire_timer t s').2 !! p
            = Some (Rejected (timed_out c))
            /\ settleCalls (fire_timer t s').2
               = settleCalls s ++ [(p, Rejected (timed_out c))])).
Proof.
  intros s'.
  destruct (disconnect_fields s)
    as (H0 & H1 & H2 & H3 & H4 & H5 & H6 & H7 & H8 & H9 & H10 & H11
        & H12 & H13 & H14).
  fold s' in H1, H2, H3, H4, H5, H6, H7, H8, H9, H10, H11, H12, H13, H14.
  repeat split; try done.
  - rewrite H2. by apply without_heartbeat_command.
  - assert (Ht : timers s' !! t = Some (TCommandTimeout n c p d))
      by (rewrite H2; by apply without_heartbeat_command).
    destruct (fire_timer_timeout s' _ _ _ _ _ Ht)
      as (_ & _ & _ & _ & _ & _ & ->).
    rewrite H4. by apply settled_with_fresh.
  - assert (Ht : timers s' !! t = Some (TCommandTimeout n c p d))
      by (rewrite H2; by apply without_heartbeat_command).
    destruct (fire_timer_timeout s' _ _ _ _ _ Ht)
      as (_ & _ & _ & _ & _ & -> & _).
    by rewrite H5.
Qed.

End EngineFacts.

(** ** The statements at concrete inputs *)

Section Runs.

Import Sample.

Local Abbreviation send := (send stringify).
Local Abbreviation sendCommand := (sendCommand stringify).
Local Abbreviation deliver := (deliver stringify parse date_text).
Local Abbreviation step := (step stringify parse date_text).
Local Abbreviation run := (run stringify parse date_text).

Lemma online_well_formed : well_formed online.
Proof.
  apply (wf_ext fresh online); [reflexivity|]. apply wf_constructor.
Qed.

Lemma encode_decode_roundtrip_witness :
  connected online = true
  /\ is_Some (socket online)
  /\ 0 <= 1 <= Buf.uint32_max
  /\ stringify user_reply = Some (MiniJSON.print user_reply)
  /\ parse (MiniJSON.print user_reply) = Normal user_reply
  /\ Z.of_nat (length (Buf.from (MiniJSON.print user_reply)))
     <= Buf.uint32_max
  /\ exists bytes,
       (send 1 user_reply online).1 = Normal tt
       /\ written (send 1 user_reply online).2 = written online ++ [bytes]
       /\ bytes
          = Buf.header_bytes 1
              (Z.of_nat (length (Buf.from (MiniJSON.print user_reply))))
            ++ Buf.from (MiniJSON.print user_reply)
       /\ Buf.readUInt32LE bytes 0 = 1
       /\ Buf.readUInt32LE bytes 4
          = Z.of_nat (length (Buf.from (MiniJSON.print user_reply)))
       /\ feed (parse_frame parse) [bytes] ([], [])
          = ([], [(1, Normal user_reply)])
       /\ decoded_frames [bytes]
          = ([], [(1, Buf.from (MiniJSON.print user_reply))]).
Proof.
  assert (H1 : connected online = true) by reflexivity.
  assert (H2 : is_Some (socket online)) by (eexists; reflexivity).
  assert (H3 : 0 <= 1 <= Buf.uint32_max) by (unfold Buf.uint32_max; lia).
  assert (H4 : stringify user_reply = Some (MiniJSON.print user_reply))
    by reflexivity.
  assert (H5 : parse (MiniJSON.print user_reply) = Normal user_reply)
    by (vm_compute; reflexivity).
  assert (H6 : Z.of_nat (length (Buf.from (MiniJSON.print user_reply)))
               <= Buf.uint32_max)
    by (apply Z.leb_le; vm_compute; reflexivity).
  repeat (split; [assumption|]).
  exact (encode_decode_roundtrip stringify parse online 1 user_reply
           (MiniJSON.print user_reply) H1 H2 H3 H4 H5 H6).
Defined.

Lemma chunked_decoding_witness :
  Forall frame_ok two_frames
  /\ concat three_chunks
     = concat (map (fun f : Z * Buffer => Buf.frame_bytes f.1 f.2) two_frames)
  /\ decoded_frames three_chunks = ([], two_frames)
  /\ decoded_frames [concat three_chunks] = ([], two_frames).
Proof.
  assert (H1 : Forall frame_ok two_frames).
  { repeat constructor; cbn [fst snd]; unfold Buf.uint32_max;
      try lia; apply Z.leb_le; vm_compute; reflexivity. }
  assert (H2 : concat three_chunks
               = concat (map (fun f : Z * Buffer => Buf.frame_bytes f.1 f.2)
                             two_frames))
    by (vm_compute; reflexivity).
  split; [assumption|]. split; [assumption|].
  destruct (chunked_decoding_delivers_same_frames two_frames three_chunks
              H1 H2) as (Ha & Hb & _).
  split; assumption.
Defined.



(** C4 as stated fails: a command is outstanding, [disconnect()] runs,
    and the promise of the command has been neither rejected nor
    resolved; no call was made on it. *)
Lemma disconnect_rejects_nothing :
  let s1 := (sendCommand "GET_USER" user_args 100 "n-1" online).2 in
  let s2 := (disconnect s1).2 in
  pendingResponses s1 !! "n-1" = Some (mkCallback 0 0)
  /\ promises s1 !! 0%nat = None
  /\ pendingResponses s2 !! "n-1" = None
  /\ promises s2 !! 0%nat = None
  /\ settleCalls s2 = []
  /\ emitted s2 = [NConnect; NDisconnect].
Proof. intros s1 s2. repeat split; vm_compute; reflexivity. Qed.

Lemma reconnect_backoff_witness :
  reconnectDelay fresh = 1000
  /\ reconnectAttempts fresh = 0
  /\ scheduled_delays 6 fresh = [1000; 2000; 4000; 8000; 16000; 30000].
Proof.
  assert (H1 : reconnectDelay fresh = 1000) by reflexivity.
  assert (H2 : reconnectAttempts fresh = 0) by reflexivity.
  split; [assumption|]. split; [assumption|].
  exact (proj1 (reconnect_backoff_delays fresh H1 H2)).
Defined.

Lemma flush_stops_witness :
  exists e s',
    messageQueue queued
    = [(1, VObj [("cmd", VStr "SUBSCRIBE")])] ++ (1, VUndefined) :: [(0, VNull)]
    /\ Forall (fun x : Z * value => (send x.1 x.2 queued).1 = Normal tt)
              [(1, VObj [("cmd", VStr "SUBSCRIBE")])]
    /\ (send 1 VUndefined queued).1 = Thrown e
    /\ processQueue stringify 2 queued = Some (Thrown e, s')
    /\ messageQueue s' = [(0, VNull)]
    /\ length (written s') = 1%nat.
Proof.
  assert (H1 : messageQueue queued
               = [(1, VObj [("cmd", VStr "SUBSCRIBE")])]
                 ++ (1, VUndefined) :: [(0, VNull)])
    by (vm_compute; reflexivity).
  assert (H2 : Forall (fun x : Z * value => (send x.1 x.2 queued).1 = Normal tt)
                      [(1, VObj [("cmd", VStr "SUBSCRIBE")])])
    by (repeat constructor; vm_compute; reflexivity).
  destruct (send 1 VUndefined queued).1 as [[]|e] eqn:H3;
    [vm_compute in H3; discriminate|].
  destruct (flush_stops_at_failed_send stringify queued
              [(1, VObj [("cmd", VStr "SUBSCRIBE")])] [(0, VNull)]
              (1, VUndefined) e H1 H2 H3)
    as (s' & Hrun & _ & Hq & Hw & _).
  exists e, s'. repeat split; assumption.
Defined.

Lemma authorize_timeout_witness :
  has_token None = false
  /\ JS.includes "Invalid Client ID"
       (err_message (timed_out "AUTHORIZE"))
     || JS.includes "Unknown Application"
          (err_message (timed_out "AUTHORIZE")) = false
  /\ connected parked = true
  /\ is_Some (socket parked)
  /\ length (messageQueue parked) = 2%nat
  /\ Forall (fun x => is_Some (encoded stringify x)) (messageQueue parked)
  /\ (exists s1,
        authenticate_settled date_text None
          (Rejected (timed_out "AUTHORIZE")) parked = (Normal tt, s1)
        /\ authenticated s1 = true
        /\ emitted s1 = emitted parked ++ [NAuthenticated]
        /\ console s1
           = console parked
             ++ degraded_warnings parked (timed_out "AUTHORIZE"))
  /\ (exists s2,
        authenticate_resume stringify date_text
          (length (messageQueue parked)) None
          (Rejected (timed_out "AUTHORIZE")) parked = Some (Normal tt, s2)
        /\ authenticated s2 = true
        /\ emitted s2 = emitted parked ++ [NAuthenticated]
        /\ messageQueue s2 = []
        /\ written s2
           = written parked
             ++ omap (encoded stringify) (messageQueue parked))
  /\ JS.includes "Invalid Client ID" (err_message unknown_application)
     || JS.includes "Unknown Application"
          (err_message unknown_application) = true
  /\ (exists s1,
        (forall fuel,
           authenticate_resume stringify date_text fuel None
             (Rejected unknown_application) parked
           = Some (Thrown (invalid_client_id date_text parked), s1))
        /\ authenticated s1 = authenticated parked
        /\ emitted s1 = emitted parked
        /\ messageQueue s1 = messageQueue parked
        /\ written s1 = written parked).
Proof.
  assert (H1 : has_token None = false) by reflexivity.
  assert (H2 : JS.includes "Invalid Client ID"
                 (err_message (timed_out "AUTHORIZE"))
               || JS.includes "Unknown Application"
                    (err_message (timed_out "AUTHORIZE")) = false)
    by reflexivity.
  assert (H3 : connected parked = true) by (vm_compute; reflexivity).
  assert (H4 : is_Some (socket parked))
    by (exists 3%nat; vm_compute; reflexivity).
  assert (H5 : length (messageQueue parked) = 2%nat)
    by (vm_compute; reflexivity).
  assert (Hq : messageQueue parked
               = [(1, VObj [("cmd", VStr "SUBSCRIBE")]); (0, VNull)])
    by (vm_compute; reflexivity).
  assert (H6 : Forall (fun x => is_Some (encoded stringify x))
                 (messageQueue parked)).
  { rewrite Hq. repeat constructor; vm_compute; eexists; reflexivity. }
  assert (H7 : JS.includes "Invalid Client ID"
                 (err_message unknown_application)
               || JS.includes "Unknown Application"
                    (err_message unknown_application) = true)
    by reflexivity.
  do 6 (split; [assumption|]).
  destruct (authorize_failure_degrades stringify date_text parked None
              (timed_out "AUTHORIZE") H1)
    as [Hdegrade _].
  destruct (Hdegrade H2) as (s1 & Hrun & Hauth & Hem & Hcon & _ & Hflush).
  split; [exists s1; exact (conj Hrun (conj Hauth (conj Hem Hcon)))|].
  split; [exact (Hflush H3 H4 H6)|].
  split; [assumption|].
  destruct (authorize_failure_degrades stringify date_text parked None
              unknown_application H1)
    as [_ Hfatal].
  destruct (Hfatal H7) as (s1' & Hthrow & Ha & He & _ & Hmq & Hw & _).
  exists s1'. exact (conj Hthrow (conj Ha (conj He (conj Hmq Hw)))).
Defined.

(** C8 as stated fails: the remote rejects AUTHORIZE with the message
    "Invalid Client ID"; [authenticate()] without a token then throws,
    the client stays unauthenticated and no authenticated notification is
    emitted. *)
Lemma invalid_client_id_propagates :
  let s1 := (authenticate_begin stringify None "n-1" online).2 in
  let s2 := deliver 1 (payload_of invalid_client) s1 in
  let failure := Rejected (mkError KError "Invalid Client ID") in
  promises s2 !! 0%nat = Some failure
  /\ exists s3,
       authenticate_resume stringify date_text 5 None failure s2
       = Some (Thrown (mkError KError
                 "Invalid Client ID: 1234. Please check your Discord Application ID."),
               s3)
       /\ authenticated s3 = false
       /\ emitted s3 = [NConnect].
Proof.
  intros s1 s2 failure. split; [vm_compute; reflexivity|].
  eexists. split; [vm_compute; reflexivity|].
  split; vm_compute; reflexivity.
Qed.

Lemma malformed_payload_witness :
  parse (Buf.toString garbage)
  = Thrown (mkError KSyntaxError "Unexpected token in JSON")
  /\ (handleMessage stringify parse date_text 1 garbage online).1 = Normal tt
  /\ emitted (deliver 1 garbage online) = emitted online.
Proof.
  assert (H1 : parse (Buf.toString garbage)
               = Thrown (mkError KSyntaxError "Unexpected token in JSON"))
    by (vm_compute; reflexivity).
  split; [assumption|].
  destruct (malformed_payload_is_logged_and_dropped stringify parse
              date_text online 1 garbage _ H1) as (Ha & Hb & _).
  split; assumption.
Defined.

(** C9 as stated fails: a frame whose payload is not JSON is handled on
    a client that has a listener on ['error'] and no error notification
    is emitted; the failure goes to the console. *)
Lemma malformed_frame_emits_nothing :
  let s' := deliver 1 garbage online in
  emitted s' = emitted online
  /\ (forall e, ~ In (NError e) (emitted s'))
  /\ errorListeners online = true
  /\ console s'
     = console online
       ++ [(LError, "Failed to parse message: Unexpected token in JSON")].
Proof.
  intros s'. split; [vm_compute; reflexivity|].
  split; [|split; vm_compute; reflexivity].
  intros e. vm_compute. intros [H|[]]. discriminate.
Qed.

(** The aliasing that [processActivity] relies on: the date in the
    [timestamps] object the caller holds is converted in that object, and
    the frame written for SET_ACTIVITY is built from it. *)
Lemma processActivity_converts_in_place :
  let r := processActivity playing started in
  r.1 = Normal (mkActivity [("details", VStr "In a match");
                            ("application_id", VStr "1234")] (Some 0%nat))
  /\ heap started !! 0%nat = Some [("start", VDate 1700000000500)]
  /\ heap r.2 !! 0%nat = Some [("start", VNum 1700000000)]
  /\ stamps_settled [("start", VNum 1700000000)]
  /\ heap (setActivity_begin stringify 77 playing "n-1" started).2
     = heap r.2.
Proof.
  intros r. do 3 (split; [vm_compute; reflexivity|]).
  split; [split; reflexivity | vm_compute; reflexivity].
Qed.

End Runs.

(** * The rest of the client *)

(** * Properties of the rest of the client *)

(** ** Candidate paths *)

Lemma append_inj_r (p a b : string) : p +:+ a = p +:+ b -> a = b.
Proof. apply String.app_inj. Qed.

Lemma getIPCPaths_eq (platform : string) (env : string -> option string) :
  getIPCPaths platform env = map (ipc_path platform env) (seq 0 10).
Proof. reflexivity. Qed.

Lemma env_or_set (env : string -> option string) (name fallback dir : string) :
  env name = Some dir -> dir <> EmptyString -> env_or env name fallback = dir.
Proof.
  intros H Hne. unfold env_or. rewrite H.
  destruct (String.eqb dir EmptyString) eqn:E; [|done].
  by apply String.eqb_eq in E.
Qed.

Lemma env_or_unset (env : string -> option string) (name fallback : string) :
  env name = None \/ env name = Some EmptyString ->
  env_or env name fallback = fallback.
Proof. unfold env_or. by intros [-> | ->]. Qed.


(** ** [connect()] *)

Lemma set_console_same (s : State) : set_console (console s) s = s.
Proof. by destruct s. Qed.

Lemma logged_nil (s : State) : logged [] s = s.
Proof.
  unfold logged. destruct (debug s); [|done].
  by rewrite app_nil_r, set_console_same.
Qed.

Lemma log_logged (text : string) (level : Level) (s : State) :
  log text level s = (Normal tt, logged [(level, text)] s).
Proof. reflexivity. Qed.

Lemma logged_logged (l1 l2 : list (Level * string)) (s : State) :
  logged l2 (logged l1 s) = logged (l1 ++ l2) s.
Proof.
  unfold logged. destruct (debug s) eqn:Hd; cbn; rewrite ?Hd; [|done].
  cbn. by rewrite app_assoc.
Qed.

Section ConnectFacts.

Variable tryConnect : string -> Attempt.

Lemma refusal_lines_cons_refused (path : string) (rest : list string)
  (error : Error) :
  tryConnect path = Refused error ->
  refusal_lines tryConnect (path :: rest)
  = (LWarn, "Failed to connect to " +:+ path +:+ ": " +:+ err_message error)
    :: refusal_lines tryConnect rest.
Proof. intros H. unfold refusal_lines. cbn. by rewrite H. Qed.

Lemma connect_loop_refused (paths : list string) (lastError : option Error)
  (s : State) :
  Forall (refuses tryConnect) paths ->
  connect_loop tryConnect paths lastError s
  = (Thrown (could_not_connect
               (match last_refusal tryConnect paths with
                | Some error => Some error
                | None => lastError
                end)),
     logged (refusal_lines tryConnect paths) s).
Proof.
  intros Hall. revert lastError s.
  induction Hall as [|path rest [error He] _ IH]; intros lastError s.
  - cbn. by rewrite logged_nil.
  - cbn [connect_loop]. rewrite He, bind_eq, log_logged, IH.
    rewrite logged_logged, (refusal_lines_cons_refused _ _ error He).
    cbn [app]. do 3 f_equal. unfold last_refusal. cbn. rewrite He. cbn.
    rewrite last_cons. by destruct (last _).
Qed.

Lemma connect_loop_accepted (before after : list string) (path : string)
  (sock : nat) (lastError : option Error) (s : State) :
  Forall (refuses tryConnect) before ->
  tryConnect path = Accepted sock ->
  connect_loop tryConnect (before ++ path :: after) lastError s
  = socket_connect sock path (logged (refusal_lines tryConnect before) s).
Proof.
  intros Hall Hp. revert lastError s.
  induction Hall as [|p rest [error He] _ IH]; intros lastError s.
  - cbn. by rewrite Hp, logged_nil.
  - cbn [app connect_loop]. rewrite He, bind_eq, log_logged, IH.
    by rewrite logged_logged, (refusal_lines_cons_refused _ _ error He).
Qed.

(** [connect()] when a path accepts. *)
Lemma connect_accepted (s : State)
  (before after : list string) (path : string) (sock : nat) :
  connected s = false ->
  Forall (refuses tryConnect) before ->
  tryConnect path = Accepted sock ->
  let r := connect tryConnect (before ++ path :: after) s in
  r.1 = Normal tt
  /\ connected r.2 = true
  /\ socket r.2 = Some sock
  /\ reconnectAttempts r.2 = 0
  /\ emitted r.2 = emitted s ++ [NConnect]
  /\ console r.2
     = console s
       ++ (if debug s
           then refusal_lines tryConnect before
                ++ [(LInfo, "Connected to Discord via " +:+ path)]
           else [])
  /\ authenticated r.2 = authenticated s
  /\ currentActivity r.2 = currentActivity s
  /\ messageQueue r.2 = messageQueue s
  /\ written r.2 = written s
  /\ correlator r.2 = correlator s
  /\ heap r.2 = heap s.
Proof.
  intros Hc Hall Hp r. subst r. unfold connect. rewrite bind_eq. cbn [gets].
  rewrite Hc, (connect_loop_accepted before after path sock None s Hall Hp).
  unfold socket_connect, logged, log, emit, correlator.
  unfold bind, modify. cbn.
  destruct (debug s) eqn:Hd; cbn; rewrite ?Hd; cbn;
    rewrite <- ?app_assoc, ?app_nil_r; done.
Qed.

(** [connect()] when every path refuses. *)
Lemma connect_refused (s : State) (paths : list string) :
  connected s = false ->
  Forall (refuses tryConnect) paths ->
  connect tryConnect paths s
  = (Thrown (could_not_connect (last_refusal tryConnect paths)),
     logged (refusal_lines tryConnect paths) s).
Proof.
  intros Hc Hall. unfold connect. rewrite bind_eq. cbn [gets].
  rewrite Hc, connect_loop_refused by done.
  by destruct (last_refusal tryConnect paths).
Qed.

(** X2: [connect()] on a client that is not connected takes the first
    path that accepts: the paths before it are tried in order and each
    refusal is logged as a warning, the paths after it are not tried; the
    client then holds that socket and is connected, its attempt counter is
    reset to 0 and one connect notification is emitted.  Nothing else in
    the client changes. *)
Theorem connect_takes_first_accepting_path (s : State)
  (before after : list string) (path : string) (sock : nat) :
  connected s = false ->
  Forall (refuses tryConnect) before ->
  tryConnect path = Accepted sock ->
  let r := connect tryConnect (before ++ path :: after) s in
  r.1 = Normal tt
  /\ connected r.2 = true
  /\ socket r.2 = Some sock
  /\ reconnectAttempts r.2 = 0
  /\ emitted r.2 = emitted s ++ [NConnect]
  /\ console r.2
     = console s
       ++ (if debug s
           then refusal_lines tryConnect before
                ++ [(LInfo, "Connected to Discord via " +:+ path)]
           else [])
  /\ authenticated r.2 = authenticated s
  /\ currentActivity r.2 = currentActivity s
  /\ messageQueue r.2 = messageQueue s
  /\ written r.2 = written s
  /\ correlator r.2 = correlator s
  /\ heap r.2 = heap s.
Proof.
  intros Hc Hall Hp. by apply connect_accepted.
Qed.

(** X3: a [connect()] that establishes no connection changes nothing but
    the console.  When the client is already connected it returns at
    once, without trying a path; when every path refuses it throws
    "Could not connect to Discord: " followed by the message of the last
    refusal and the troubleshooting text, having logged one warning for
    each path, in order. *)
Theorem connect_without_success_only_logs (s : State) (paths : list string) :
  (connected s = true ->
   connect tryConnect paths s
   = (Normal tt, logged [(LInfo, "Already connected")] s))
  /\ (connected s = false ->
      Forall (refuses tryConnect) paths ->
      connect tryConnect paths s
      = (Thrown (could_not_connect (last_refusal tryConnect paths)),
         logged (refusal_lines tryConnect paths) s))
  /\ (forall lines,
        let s' := logged lines s in
        connected s' = connected s
        /\ socket s' = socket s
        /\ emitted s' = emitted s
        /\ reconnectAttempts s' = reconnectAttempts s
        /\ messageQueue s' = messageQueue s
        /\ written s' = written s
        /\ correlator s' = correlator s
        /\ console s' = console s ++ (if debug s then lines else [])).
Proof.
  split; [|split].
  - intros Hc. unfold connect. rewrite bind_eq. cbn [gets]. by rewrite Hc.
  - apply connect_refused.
  - intros lines. unfold logged, correlator.
    destruct (debug s); cbn; rewrite ?app_nil_r; done.
Qed.

End ConnectFacts.

(** ** The engine, block by block *)

Section ClientFacts.

Variable JSON_stringify : value -> option string.
Variable JSON_parse : string -> completion value.
Variable Date_toString : Z -> string.

Local Abbreviation send := (send JSON_stringify).
Local Abbreviation sendCommand := (sendCommand JSON_stringify).
Local Abbreviation handleMessage :=
  (handleMessage JSON_stringify JSON_parse Date_toString).
Local Abbreviation deliver :=
  (deliver JSON_stringify JSON_parse Date_toString).
Local Abbreviation processQueue := (processQueue JSON_stringify).


(** What [handleMessage] leaves alone. *)
Lemma handleMessage_fields (s : State) (opcode : Z) (payload : Buffer) :
  let r := handleMessage opcode payload s in
  r.1 = Normal tt
  /\ written r.2 = written s
  /\ messageQueue r.2 = messageQueue s
  /\ transport r.2 = transport s
  /\ authenticated r.2 = authenticated s
  /\ reconnectAttempts r.2 = reconnectAttempts s
  /\ maxReconnectAttempts r.2 = maxReconnectAttempts s
  /\ currentActivity r.2 = currentActivity s
  /\ heap r.2 = heap s
  /\ nextTimer r.2 = nextTimer s
  /\ nextPromise r.2 = nextPromise s
  /\ timers r.2 ⊆ timers s
  /\ pendingResponses r.2 ⊆ pendingResponses s.
Proof.
  intros r. subst r. rewrite handleMessage_eq.
  unfold parse_failed, on_response, handleDispatch, emit, log, clearTimeout,
    settle, transport.
  unfold try_catch, bind, lift, modify, gets, ret.
  repeat (case_match; cbn in *; simplify_eq; try done);
    repeat split; cbn; try congruence;
    try apply delete_subseteq; try reflexivity.
Qed.

(** X5: [handleMessage] never throws, whatever the frame and the state:
    an exception of its body (a payload that is not JSON, a message that
    is [null], an ['error'] event nobody listens to) ends in the [catch]
    clause.  It never writes to the socket, never touches the queue or the
    connection flags, never arms a timer and never registers a request:
    the timers and the pending entries after it are among those before. *)
Theorem handleMessage_never_throws (s : State) (opcode : Z)
  (payload : Buffer) :
  let r := handleMessage opcode payload s in
  r.1 = Normal tt
  /\ written r.2 = written s
  /\ messageQueue r.2 = messageQueue s
  /\ transport r.2 = transport s
  /\ authenticated r.2 = authenticated s
  /\ reconnectAttempts r.2 = reconnectAttempts s
  /\ currentActivity r.2 = currentActivity s
  /\ heap r.2 = heap s
  /\ nextTimer r.2 = nextTimer s
  /\ nextPromise r.2 = nextPromise s
  /\ timers r.2 ⊆ timers s
  /\ pendingResponses r.2 ⊆ pendingResponses s.
Proof.
  intros r.
  destruct (handleMessage_fields s opcode payload)
    as (H1 & H2 & H3 & H4 & H5 & H6 & _ & H8 & H9 & H10 & H11 & H12 & H13).
  done.
Qed.

Local Abbreviation handleDispatch := (handleDispatch Date_toString).

(** A frame that parses and matches no pending entry goes to the
    [switch] on [message.cmd], in the state the "Received" line left. *)
Lemma handleMessage_unsolicited (s : State) (opcode : Z) (payload : Buffer)
  (message nonce : value) :
  JSON_parse (Buf.toString payload) = Normal message ->
  JS.get message "nonce" = Normal nonce ->
  pending_key nonce s = None ->
  handleMessage opcode payload s
  = try_catch
      (bind (lift (JS.get message "cmd")) (fun cmd =>
         if JS.is_str cmd "DISPATCH" then handleDispatch message
         else emit (NMessage message)))
      parse_failed
      (logged [(LInfo, "Received: " +:+ stringify_text JSON_stringify message)]
              s).
Proof.
  intros Hp Hn Hk. rewrite handleMessage_eq, Hp. cbn zeta. rewrite Hn.
  rewrite log_logged. cbn [snd].
  rewrite (pending_key_ext s (logged _ s) nonce), Hk; [done|].
  unfold logged. by destruct (debug s).
Qed.

(** X6: a frame that parses and answers no pending request is routed by
    its [cmd] and [evt]: anything but a DISPATCH is emitted as a message
    event carrying the parsed message; a DISPATCH with [evt] READY is
    emitted as ready with its [data], one with another [evt] than READY
    and ERROR as dispatch with [evt] and [data], and one with [evt] ERROR,
    on a client with an error listener, as an error event whose message is
    [data.message].  In each case exactly one notification is emitted and
    the correlator is untouched. *)
Theorem unsolicited_frames_are_routed (s : State) (opcode : Z)
  (payload : Buffer) (message nonce cmd evt data : value) :
  JSON_parse (Buf.toString payload) = Normal message ->
  JS.get message "nonce" = Normal nonce ->
  pending_key nonce s = None ->
  JS.get message "cmd" = Normal cmd ->
  JS.get message "evt" = Normal evt ->
  JS.get message "data" = Normal data ->
  let s' := deliver opcode payload s in
  correlator s' = correlator s
  /\ (JS.is_str cmd "DISPATCH" = false ->
      emitted s' = emitted s ++ [NMessage message])
  /\ (JS.is_str cmd "DISPATCH" = true ->
      (JS.is_str evt "READY" = true ->
       emitted s' = emitted s ++ [NReady data])
      /\ (JS.is_str evt "READY" = false -> JS.is_str evt "ERROR" = false ->
          emitted s' = emitted s ++ [NDispatch evt data])
      /\ (JS.is_str evt "ERROR" = true -> errorListeners s = true ->
          forall m, JS.get data "message" = Normal m ->
            emitted s' = emitted s ++ [NError (JS.new_Error Date_toString m)])).
Proof.
  intros Hp Hn Hk Hcmd Hevt Hdata s'. subst s'. unfold deliver.
  rewrite (handleMessage_unsolicited s opcode payload message nonce Hp Hn Hk).
  unfold handleDispatch, parse_failed, emit, log, logged, correlator.
  unfold try_catch, bind, lift, modify. rewrite Hcmd, Hevt, Hdata.
  split; [|split].
  - repeat (case_match; cbn in *; simplify_eq; try done).
  - intros ->. by destruct (debug s).
  - intros ->. split; [|split].
    + intros ->. by destruct (debug s).
    + intros -> ->. by destruct (debug s).
    + intros He Hl m Hm.
      assert (Hr : JS.is_str evt "READY" = false).
      { destruct evt; try done. cbn in *.
        apply String.eqb_eq in He. by subst. }
      rewrite Hr, He, Hm. destruct (debug s); cbn; by rewrite Hl.
Qed.

(** X7: a DISPATCH frame with [evt] ERROR cannot crash the client.  When
    nobody listens to ['error'], the error that [emit] throws is caught
    in [handleMessage]; when [data] is [undefined] or [null], so is the
    [TypeError] of reading [data.message].  Either way no notification
    is emitted and, in debug mode, the console gets the line "Failed to
    parse message: " followed by the message of that error. *)
Theorem dispatch_error_is_contained (s : State) (opcode : Z)
  (payload : Buffer) (message nonce data : value) :
  JSON_parse (Buf.toString payload) = Normal message ->
  JS.get message "nonce" = Normal nonce ->
  pending_key nonce s = None ->
  JS.get message "cmd" = Normal (VStr "DISPATCH") ->
  JS.get message "evt" = Normal (VStr "ERROR") ->
  JS.get message "data" = Normal data ->
  let r := handleMessage opcode payload s in
  let received :=
    (LInfo, "Received: " +:+ stringify_text JSON_stringify message) in
  let swallowed (e : Error) :=
    r.1 = Normal tt
    /\ emitted r.2 = emitted s
    /\ console r.2
       = console s
         ++ (if debug s
             then [received;
                   (LError, "Failed to parse message: " +:+ err_message e)]
             else []) in
  (errorListeners s = false ->
   forall m, JS.get data "message" = Normal m ->
     swallowed (JS.new_Error Date_toString m))
  /\ (forall e, JS.get data "message" = Thrown e -> swallowed e)
  /\ (data = VUndefined ->
      JS.get data "message" = Thrown (JS.cannot_read "message" "undefined")).
Proof.
  intros Hp Hn Hk Hcmd Hevt Hdata r received swallowed.
  subst r swallowed received.
  rewrite (handleMessage_unsolicited s opcode payload message nonce Hp Hn Hk).
  unfold handleDispatch, parse_failed, emit, log, logged.
  unfold try_catch, bind, lift, modify. rewrite Hcmd, Hevt, Hdata. cbn.
  split; [|split].
  - intros Hl m ->. destruct (debug s) eqn:Hd; cbn; rewrite Hl; cbn;
      rewrite ?Hd; cbn; rewrite <- ?app_assoc, ?app_nil_r; done.
  - intros e ->. destruct (debug s) eqn:Hd; cbn;
      rewrite ?Hd; cbn; rewrite <- ?app_assoc, ?app_nil_r; done.
  - by intros ->.
Qed.

End ClientFacts.


Section CommandFacts.

Variable JSON_stringify : value -> option string.
Variable JSON_parse : string -> completion value.
Variable Date_toString : Z -> string.

Local Abbreviation send := (send JSON_stringify).
Local Abbreviation sendCommand := (sendCommand JSON_stringify).
Local Abbreviation handleMessage :=
  (handleMessage JSON_stringify JSON_parse Date_toString).
Local Abbreviation deliver :=
  (deliver JSON_stringify JSON_parse Date_toString).
Local Abbreviation processQueue := (processQueue JSON_stringify).
Local Abbreviation handshake := (handshake JSON_stringify).

(** The message [sendCommand] hands to [send]. *)
Lemma sendCommand_queued (s : State) (cmd : string) (args : value)
  (timeout : Z) (nonce : string) :
  connected s = false ->
  autoReconnect s = true ->
  let s1 := (sendCommand cmd args timeout nonce s).2 in
  messageQueue s1
  = messageQueue s
    ++ [(1, VObj [("cmd", VStr cmd); ("nonce", VStr nonce); ("args", args)])]
  /\ written s1 = written s
  /\ promises s1 = promises s
  /\ settleCalls s1 = settleCalls s
  /\ connected s1 = false
  /\ autoReconnect s1 = true.
Proof.
  intros Hc Ha. unfold sendCommand, setTimeout.
  unfold try_catch, bind, modify, gets, ret. cbn.
  rewrite send_queues by done. cbn. done.
Qed.

(** X8: a command issued while the client is disconnected (with
    auto-reconnect) is put in the queue and its timer armed; when the
    timer fires the promise is rejected with the timeout error and the
    pending entry removed, but the command stays in the queue: it is not
    withdrawn, and nothing has been written. *)
Theorem timed_out_command_stays_queued (s : State) (cmd nonce : string)
  (args : value) (timeout : Z) :
  well_formed s ->
  connected s = false ->
  autoReconnect s = true ->
  let message :=
    VObj [("cmd", VStr cmd); ("nonce", VStr nonce); ("args", args)] in
  let s1 := (sendCommand cmd args timeout nonce s).2 in
  let s2 := (fire_timer (nextTimer s) s1).2 in
  messageQueue s1 = messageQueue s ++ [(1, message)]
  /\ promises s1 !! nextPromise s = None
  /\ pendingResponses s1 !! nonce
     = Some (mkCallback (nextTimer s) (nextPromise s))
  /\ promises s2 !! nextPromise s = Some (Rejected (timed_out cmd))
  /\ pendingResponses s2 !! nonce = None
  /\ messageQueue s2 = messageQueue s ++ [(1, message)]
  /\ written s2 = written s.
Proof.
  intros Hwf Hc Ha message s1 s2.
  destruct (sendCommand_queued s cmd args timeout nonce Hc Ha)
    as (Hq & Hw & Hpr & _).
  destruct (sendCommand_fields JSON_stringify s cmd args timeout nonce)
    as (Hp & Ht & _).
  fold s1 in Hq, Hw, Hpr, Hp, Ht.
  assert (Hfresh : promises s !! nextPromise s = None).
  { destruct (promises s !! nextPromise s) eqn:E; [|done].
    apply (wf_settled s Hwf) in E. lia. }
  assert (Htimer : timers s1 !! nextTimer s
                   = Some (TCommandTimeout nonce cmd (nextPromise s) timeout))
    by (rewrite Ht; apply lookup_insert_eq).
  destruct (fire_timer_timeout s1 _ _ _ _ _ Htimer)
    as (H1 & _ & _ & _ & _ & _ & H7).
  fold s2 in H1, H7.
  assert (Hrest : messageQueue s2 = messageQueue s1 /\ written s2 = written s1).
  { subst s2. unfold fire_timer. rewrite Htimer.
    unfold command_timeout, clearTimeout, settle, bind, modify. cbn.
    by destruct (promises s1 !! nextPromise s). }
  destruct Hrest as [Hq2 Hw2].
  split; [done|]. split; [by rewrite Hpr|].
  split; [rewrite Hp; apply lookup_insert_eq|].
  split; [rewrite H7, Hpr; by apply settled_with_fresh|].
  split; [rewrite H1, Hp; apply lookup_delete_eq|].
  split; [by rewrite Hq2 | by rewrite Hw2].
Qed.

(** *** [handshake] and the heartbeat *)

Lemma startHeartbeat_fields (s : State) :
  let r := startHeartbeat s in
  r.1 = Normal tt
  /\ heartbeatInterval r.2 = Some (nextTimer s)
  /\ timers r.2 = <[nextTimer s := THeartbeat]> (timers s)
  /\ nextTimer r.2 = S (nextTimer s)
  /\ pendingResponses r.2 = pendingResponses s
  /\ promises r.2 = promises s
  /\ nextPromise r.2 = nextPromise s
  /\ settleCalls r.2 = settleCalls s
  /\ written r.2 = written s
  /\ messageQueue r.2 = messageQueue s
  /\ session r.2 = session s
  /\ transport r.2 = transport s
  /\ heap r.2 = heap s.
Proof. unfold startHeartbeat, setTimeout, bind, modify. cbn. done. Qed.

Lemma handshake_eq (s : State) :
  handshake s
  = if JS.truthy (clientId_value s) then
      match send 0 (handshake_message s) s with
      | (Normal _, s1) => startHeartbeat s1
      | (Thrown e, s1) => (Thrown e, s1)
      end
    else (Thrown client_id_required, s).
Proof.
  unfold handshake. rewrite bind_eq. cbn [gets].
  destruct (JS.truthy (clientId_value s)); [|done].
  cbn [negb]. rewrite bind_eq. cbn [gets]. by rewrite bind_eq.
Qed.

(** X9: [handshake()] throws "Client ID is required" on a client whose
    id is missing or empty, and then nothing is sent and no heartbeat
    started.  Otherwise it hands the message [{v: 1, client_id}] to [send]
    with opcode 0: if [send] throws, so does [handshake], with the client
    unchanged and no heartbeat; if not, one interval is armed and its
    handle stored in [heartbeatInterval], and nothing else is added to
    what [send] did. *)
Theorem handshake_sends_then_starts_heartbeat (s : State) :
  let r := handshake s in
  let sent := send 0 (handshake_message s) s in
  (clientId s = None \/ clientId s = Some EmptyString ->
   r = (Thrown client_id_required, s))
  /\ (forall cid, clientId s = Some cid -> cid <> EmptyString ->
      (forall e, sent.1 = Thrown e -> r = (Thrown e, s))
      /\ (sent.1 = Normal tt ->
          r.1 = Normal tt
          /\ heartbeatInterval r.2 = Some (nextTimer s)
          /\ timers r.2 = <[nextTimer s := THeartbeat]> (timers s)
          /\ nextTimer r.2 = S (nextTimer s)
          /\ written r.2 = written sent.2
          /\ messageQueue r.2 = messageQueue sent.2
          /\ pendingResponses r.2 = pendingResponses s
          /\ promises r.2 = promises s
          /\ session r.2 = session s
          /\ transport r.2 = transport s)).
Proof.
  intros r sent. subst r sent. rewrite handshake_eq. split.
  - unfold clientId_value. by intros [-> | ->].
  - intros cid Hcid Hne.
    assert (Ht : JS.truthy (clientId_value s) = true).
    { unfold clientId_value. rewrite Hcid. cbn.
      destruct (String.eqb cid EmptyString) eqn:E; [|done].
      by apply String.eqb_eq in E. }
    rewrite Ht.
    destruct (send_views JSON_stringify s 0 (handshake_message s))
      as (Htr & Hk & Hse).
    pose proof (send_thrown JSON_stringify s 0 (handshake_message s)) as Hth.
    destruct (send 0 (handshake_message s) s) as [[[]|e] s1];
      cbn [fst snd] in *.
    + split; [done|]. intros _.
      destruct (startHeartbeat_fields s1)
        as (H1 & H2 & H3 & H4 & H5 & H6 & H7 & H8 & H9 & H10 & H11 & H12 & _).
      apply correlator_fields in Hk as (Kp & Kt & Knt & Kpr & _).
      rewrite H2, H3, H4, H5, H6, H9, H10, H11, H12, Knt, Kt, Kp, Kpr.
      done.
    + split; [|done]. intros e0 [= <-]. by rewrite (Hth e).
Qed.

(** X10: [startHeartbeat] does not clear the interval it replaces.  After
    two calls of [handshake()] that both return, two intervals are armed
    and [heartbeatInterval] holds the second; [disconnect()] then clears
    that one only, and the first keeps ticking with no handle left to
    clear it. *)
Theorem second_handshake_orphans_heartbeat (s : State) :
  (handshake s).1 = Normal tt ->
  let s1 := (handshake s).2 in
  (handshake s1).1 = Normal tt ->
  let s2 := (handshake s1).2 in
  let s3 := (disconnect s2).2 in
  heartbeatInterval s1 = Some (nextTimer s)
  /\ heartbeatInterval s2 = Some (S (nextTimer s))
  /\ timers s2 !! nextTimer s = Some THeartbeat
  /\ timers s2 !! S (nextTimer s) = Some THeartbeat
  /\ heartbeatInterval s3 = None
  /\ timers s3 !! S (nextTimer s) = None
  /\ timers s3 !! nextTimer s = Some THeartbeat.
Proof.
  assert (Hstep : forall s0 : State,
             (handshake s0).1 = Normal tt ->
             heartbeatInterval (handshake s0).2 = Some (nextTimer s0)
             /\ timers (handshake s0).2
                = <[nextTimer s0 := THeartbeat]> (timers s0)
             /\ nextTimer (handshake s0).2 = S (nextTimer s0)).
  { intros s0. rewrite handshake_eq.
    destruct (JS.truthy (clientId_value s0)); [|done].
    destruct (send_views JSON_stringify s0 0 (handshake_message s0))
      as (_ & Hk & _).
    destruct (send 0 (handshake_message s0) s0) as [[[]|e] s1];
      cbn [fst snd] in *; [|done].
    intros _. apply correlator_fields in Hk as (_ & Kt & Knt & _).
    destruct (startHeartbeat_fields s1) as (_ & H2 & H3 & H4 & _).
    by rewrite H2, H3, H4, Kt, Knt. }
  intros H1 s1 H2 s2 s3.
  destruct (Hstep s H1) as (Ha & Hb & Hc). fold s1 in Ha, Hb, Hc.
  destruct (Hstep s1 H2) as (Hd & He & Hf). fold s2 in Hd, He, Hf.
  rewrite Hc in Hd, He.
  destruct (disconnect_fields s2) as (_ & _ & Ht3 & _ & _ & _ & _ & Hh3 & _).
  fold s3 in Ht3, Hh3. unfold without_heartbeat in Ht3. rewrite Hd in Ht3.
  rewrite Ht3, He, Hb.
  split; [done|]. split; [done|].
  split; [rewrite lookup_insert_ne by lia; apply lookup_insert_eq|].
  split; [apply lookup_insert_eq|]. split; [done|].
  split; [apply lookup_delete_eq|].
  rewrite lookup_delete_ne by lia. rewrite lookup_insert_ne by lia.
  apply lookup_insert_eq.
Qed.

(** *** [sendAuthorize] *)

Local Abbreviation sendAuthorize := (sendAuthorize JSON_stringify).

(** X11: [sendAuthorize(nonce)] hands one AUTHORIZE message to [send]
    and registers nothing: no pending entry, no timer, no promise.  The
    reply to it, carrying that nonce, therefore settles nothing; unless
    another request is pending under the same nonce it is treated as an
    unsolicited frame, and one that is not a DISPATCH is emitted as a
    message event. *)
Theorem sendAuthorize_reply_is_unsolicited (s : State) (n : string)
  (opcode : Z) (payload : Buffer) (reply cmd : value) :
  pendingResponses s !! n = None ->
  JSON_parse (Buf.toString payload) = Normal reply ->
  JS.get reply "nonce" = Normal (VStr n) ->
  JS.get reply "cmd" = Normal cmd ->
  JS.is_str cmd "DISPATCH" = false ->
  let s1 := (sendAuthorize (VStr n) s).2 in
  let s2 := deliver opcode payload s1 in
  sendAuthorize (VStr n) s = send 1 (authorize_message (VStr n) s) s
  /\ correlator s1 = correlator s
  /\ correlator s2 = correlator s
  /\ emitted s2 = emitted s ++ [NMessage reply].
Proof.
  intros Hnone Hp Hn Hcmd Hd s1 s2.
  assert (Heq : sendAuthorize (VStr n) s
                = send 1 (authorize_message (VStr n) s) s) by reflexivity.
  destruct (send_views JSON_stringify s 1 (authorize_message (VStr n) s))
    as (_ & Hk & Hse).
  rewrite <- Heq in Hk, Hse. fold s1 in Hk, Hse.
  apply correlator_fields in Hk as Hf. destruct Hf as (Kp & _).
  assert (Hkey : pending_key (VStr n) s1 = None).
  { unfold pending_key. rewrite Kp, Hnone.
    destruct (JS.truthy (VStr n)); [|done].
    rewrite decide_False; [done|]. by intros [? ?]. }
  split; [done|]. split; [done|]. split.
  - subst s2. rewrite <- Hk. apply deliver_unmatched.
    eapply late_response_unmatched; eauto. by rewrite Kp.
  - subst s2. unfold deliver.
    rewrite (handleMessage_unsolicited _ _ _ s1 opcode payload reply
               (VStr n) Hp Hn Hkey).
    unfold try_catch, bind, lift. rewrite Hcmd, Hd.
    unfold emit, logged, session in *. simplify_eq.
    destruct (debug s1); cbn; congruence.
Qed.

(** *** [authenticate] with an access token *)

Local Abbreviation authenticate_begin := (authenticate_begin JSON_stringify).
Local Abbreviation authenticate_settled :=
  (authenticate_settled Date_toString).
Local Abbreviation authenticate_resume :=
  (authenticate_resume JSON_stringify Date_toString).

(** X12: [authenticate(accessToken)] with a non-empty token issues one
    AUTHENTICATE command with the default timeout of ten seconds, and has
    no [try] around it: when the command is rejected (by the remote or by
    its timeout) the same error is thrown, the client is exactly as
    before, so not authenticated by this call, without notification, and
    the queue is not flushed.  When the command is resolved,
    [authenticated] is set, one authenticated notification is emitted and
    the flush of the queue starts from that state. *)
Theorem authenticate_with_token_propagates (s : State) (token nonce : string) :
  token <> EmptyString ->
  let s1 := (authenticate_begin (Some token) nonce s).2 in
  (authenticate_begin (Some token) nonce s).1 = Normal (nextPromise s)
  /\ timers s1 !! nextTimer s
     = Some (TCommandTimeout nonce "AUTHENTICATE" (nextPromise s) 10000)
  /\ pendingResponses s1 !! nonce
     = Some (mkCallback (nextTimer s) (nextPromise s))
  /\ (forall (s' : State) (error : Error) (fuel : nat),
        authenticate_resume fuel (Some token) (Rejected error) s'
        = Some (Thrown error, s'))
  /\ (forall (s' : State) (response : value) (fuel : nat),
        let s2 := (authenticate_settled (Some token) (Resolved response)
                     s').2 in
        authenticate_resume fuel (Some token) (Resolved response) s'
        = processQueue fuel s2
        /\ authenticated s2 = true
        /\ emitted s2 = emitted s' ++ [NAuthenticated]
        /\ messageQueue s2 = messageQueue s'
        /\ written s2 = written s'
        /\ transport s2 = transport s'
        /\ correlator s2 = correlator s').
Proof.
  intros Hne s1.
  assert (Htok : has_token (Some token) = true).
  { cbn. destruct (String.eqb token EmptyString) eqn:E; [|done].
    by apply String.eqb_eq in E. }
  assert (Hbegin : authenticate_begin (Some token) nonce s
                   = sendCommand "AUTHENTICATE"
                       (VObj [("access_token", VStr token)]) 10000 nonce s).
  { unfold authenticate_begin. by rewrite Htok. }
  destruct (sendCommand_fields JSON_stringify s "AUTHENTICATE"
              (VObj [("access_token", VStr token)]) 10000 nonce)
    as (Hp & Ht & _).
  subst s1. rewrite Hbegin.
  split; [apply sendCommand_views|].
  split; [rewrite Ht; apply lookup_insert_eq|].
  split; [rewrite Hp; apply lookup_insert_eq|].
  split.
  - intros s' error fuel. unfold authenticate_resume, authenticate_settled.
    rewrite Htok. reflexivity.
  - intros s' response fuel s2. subst s2.
    unfold authenticate_resume, authenticate_settled. rewrite Htok.
    unfold emit, bind, modify, ret, transport, correlator. cbn. done.
Qed.

(** *** The flush of the queue *)

Lemma processQueue_ends (s : State) :
  connected s = true \/ autoReconnect s = false ->
  exists r, processQueue (length (messageQueue s)) s = Some r.
Proof.
  remember (messageQueue s) as q eqn:Hq. revert s Hq.
  induction q as [|[o d] q IH]; intros s Hq Hmode.
  - eexists. by apply processQueue_empty.
  - cbn [length]. rewrite (processQueue_step _ _ _ o d q) by done.
    set (s0 := set_messageQueue q s).
    destruct (send_views JSON_stringify s0 o d) as (Ht & _).
    pose proof (send_queue_unchanged JSON_stringify s0 o d Hmode) as Hmq.
    destruct (send o d s0) as [[[]|e] s1]; cbn [fst snd] in *;
      [|by eexists].
    apply IH; [by rewrite Hmq|].
    unfold transport in Ht. simplify_eq. cbn in *.
    destruct Hmode; [left|right]; congruence.
Qed.

(** X13: [processQueue()] returns exactly when the client is connected,
    or does not reconnect, or has an empty queue; in the remaining case
    (disconnected with auto-reconnect and something queued) no amount of
    iterations ends the loop.  When it returns it has taken at most as
    many iterations as the queue was long, and more fuel changes
    nothing. *)
Theorem flush_returns_iff (s : State) :
  ((exists fuel r, processQueue fuel s = Some r)
   <-> connected s = true \/ autoReconnect s = false \/ messageQueue s = [])
  /\ (forall fuel r, processQueue fuel s = Some r ->
        forall more, (length (messageQueue s) <= more)%nat ->
          processQueue more s = Some r).
Proof.
  assert (Hends : connected s = true \/ autoReconnect s = false
                  \/ messageQueue s = [] ->
                  exists r, processQueue (length (messageQueue s)) s = Some r).
  { intros [H|[H|H]].
    - apply processQueue_ends. by left.
    - apply processQueue_ends. by right.
    - eexists. by apply processQueue_empty. }
  assert (Hspin : (exists fuel r, processQueue fuel s = Some r) ->
                  connected s = true \/ autoReconnect s = false
                  \/ messageQueue s = []).
  { intros (fuel & r & Hr).
    destruct (connected s) eqn:Hc; [by left|].
    destruct (autoReconnect s) eqn:Ha; [|by right; left].
    destruct (messageQueue s) as [|x q] eqn:Hq; [by right; right|].
    rewrite processQueue_spins in Hr; try done. by rewrite Hq. }
  split; [split|].
  - exact Hspin.
  - intros H. destruct (Hends H) as [r Hr]. eauto.
  - intros fuel r Hr more Hmore.
    destruct (Hends (Hspin (ex_intro _ fuel (ex_intro _ r Hr)))) as [r' Hr'].
    destruct (Nat.le_ge_cases fuel (length (messageQueue s))) as [Hle|Hge].
    + pose proof (processQueue_more_fuel _ _ _ _ _ Hr Hle) as Hlen.
      by apply (processQueue_more_fuel _ _ _ _ _ Hlen).
    + pose proof (processQueue_more_fuel _ _ _ _ _ Hr' Hge) as Hfuel.
      assert (r' = r) as -> by congruence.
      by apply (processQueue_more_fuel _ _ _ _ _ Hr').
Qed.

(** X14: on a live connection [processQueue()] writes the frame of every
    queued entry, in the order of the queue, and leaves the queue empty,
    provided each entry can be encoded; the session, the correlator and
    the connection flags are as before. *)
Theorem flush_writes_queue_in_order (s : State) :
  connected s = true ->
  is_Some (socket s) ->
  Forall (fun x => is_Some (encoded JSON_stringify x)) (messageQueue s) ->
  exists s',
    (forall fuel, (length (messageQueue s) <= fuel)%nat ->
       processQueue fuel s = Some (Normal tt, s'))
    /\ messageQueue s' = []
    /\ written s' = written s ++ omap (encoded JSON_stringify) (messageQueue s)
    /\ length (written s')
       = (length (written s) + length (messageQueue s))%nat
    /\ transport s' = transport s
    /\ correlator s' = correlator s
    /\ session s' = session s.
Proof.
  intros Hc Hs Hall.
  destruct (processQueue_fifo JSON_stringify s Hc Hs Hall)
    as (s' & Hrun & Hq & Hw & Ht & Hk & Hse).
  exists s'. repeat split; try done.
  - intros fuel Hf. by apply (processQueue_more_fuel _ _ _ _ _ Hrun).
  - rewrite Hw, length_app. f_equal.
    clear -Hall. induction Hall as [|x l [b Hb] _ IH]; [done|].
    change (omap (encoded JSON_stringify) (x :: l))
      with (match encoded JSON_stringify x with
            | Some y => y :: omap (encoded JSON_stringify) l
            | None => omap (encoded JSON_stringify) l
            end).
    rewrite Hb. cbn. by rewrite IH.
Qed.

End CommandFacts.


(** ** Activities *)

Lemma assign_field_again (k : string) (v : value)
  (fields : list (string * value)) :
  JS.assign_field k v (JS.assign_field k v fields) = JS.assign_field k v fields.
Proof.
  induction fields as [|[k0 v0] fields IH]; cbn.
  - by rewrite String.eqb_refl.
  - destruct (String.eqb k k0) eqn:E; cbn; rewrite ?String.eqb_refl, ?E;
      [done | by rewrite IH].
Qed.

Lemma assign_field_present (k : string) (v : value)
  (fields : list (string * value)) :
  JS.lookup_field k fields = v -> v <> VUndefined ->
  JS.assign_field k v fields = fields.
Proof.
  intros H Hne. induction fields as [|[k0 v0] fields IH]; cbn in *.
  - congruence.
  - destruct (String.eqb k k0) eqn:E.
    + apply String.eqb_eq in E. by subst.
    + by rewrite IH.
Qed.

(** The object [processed] before the conversions: [{...activity}] with
    the default [application_id]. *)
Lemma processActivity_eq (s : State) (activity : Activity) :
  let base :=
    if JS.truthy (JS.lookup_field "application_id" (act_fields activity))
    then act_fields activity
    else JS.assign_field "application_id" (clientId_value s)
           (act_fields activity) in
  let check (processed : list (string * value)) (s1 : State) :=
    if JS.truthy (JS.lookup_field "buttons" processed)
       && more_than_two (JS.lookup_field "buttons" processed)
    then (Thrown (mkError KError "Maximum 2 buttons allowed"), s1)
    else
      if JS.truthy (JS.lookup_field "assets" processed) then
        match bad_asset (asset_entries (JS.lookup_field "assets" processed)) with
        | Some key =>
            (Thrown (mkError KError ("Asset " +:+ key +:+ " must be a string")),
             s1)
        | None => (Normal (mkActivity processed (act_stamps activity)), s1)
        end
      else (Normal (mkActivity processed (act_stamps activity)), s1) in
  processActivity activity s
  = match act_stamps activity with
    | Some l =>
        match convert_shared l s with
        | (Normal _, s1) => check base s1
        | (Thrown e, s1) => (Thrown e, s1)
        end
    | None =>
        match convert_owned base with
        | Normal processed => check processed s
        | Thrown e => (Thrown e, s)
        end
    end.
Proof.
  cbn zeta. unfold processActivity. rewrite bind_eq. cbn [gets].
  rewrite bind_eq.
  destruct (act_stamps activity) as [l|].
  - rewrite bind_eq. destruct (convert_shared l s) as [[[]|e] s1]; [|done].
    unfold bind, ret, throw.
    repeat (case_match; cbn in *; simplify_eq; try done).
  - unfold bind, ret, throw, lift.
    repeat (case_match; cbn in *; simplify_eq; try done).
Qed.

Lemma convert_stamp_value (k : string) (stamps stamps' : list (string * value)) :
  convert_stamp k stamps = Normal stamps' ->
  JS.lookup_field k stamps' = seconds (JS.lookup_field k stamps)
  /\ (forall k', k <> k' ->
        JS.lookup_field k' stamps' = JS.lookup_field k' stamps)
  /\ needs_conversion k stamps' = false.
Proof.
  intros H. destruct (convert_stamp_result _ _ _ H) as [Hs Hk].
  split; [|done]. revert H. unfold convert_stamp, needs_conversion.
  destruct (JS.lookup_field k stamps) eqn:E; cbn;
    try (intros ?; simplify_eq; by rewrite ?E);
    repeat case_match; intros ?; simplify_eq; rewrite ?E; try done.
  by rewrite lookup_assign_field_eq.
Qed.

Lemma convert_both (stamps st1 st2 : list (string * value)) :
  convert_stamp "start" stamps = Normal st1 ->
  convert_stamp "end" st1 = Normal st2 ->
  stamps_settled st2
  /\ forall k,
       JS.lookup_field k st2
       = if is_stamp_key k then seconds (JS.lookup_field k stamps)
         else JS.lookup_field k stamps.
Proof.
  intros H1 H2.
  destruct (convert_stamp_value _ _ _ H1) as (Hv1 & Hk1 & Hs1).
  destruct (convert_stamp_value _ _ _ H2) as (Hv2 & Hk2 & Hs2).
  split.
  - split; [|done]. unfold needs_conversion in *.
    by rewrite (Hk2 "start").
  - intros k. unfold is_stamp_key.
    destruct (String.eqb k "start") eqn:E1.
    + apply String.eqb_eq in E1. subst k. cbn.
      by rewrite (Hk2 "start"), Hv1.
    + destruct (String.eqb k "end") eqn:E2; cbn.
      * apply String.eqb_eq in E2. subst k.
        by rewrite Hv2, (Hk1 "end").
      * apply String.eqb_neq in E1, E2.
        rewrite (Hk2 k), (Hk1 k); done.
Qed.

Lemma convert_shared_eq (s : State) (l : nat) :
  convert_shared l s
  = match heap s !! l with
    | None => (Normal tt, s)
    | Some stamps =>
        match convert_stamp "start" stamps with
        | Thrown e => (Thrown e, s)
        | Normal st1 =>
            match convert_stamp "end" st1 with
            | Thrown e => (Thrown e, set_heap (<[l := st1]> (heap s)) s)
            | Normal st2 =>
                (Normal tt,
                 set_heap (<[l := st2]> (<[l := st1]> (heap s))) s)
            end
        end
    end.
Proof.
  unfold convert_shared, bind, gets, lift, modify.
  destruct (heap s !! l) as [stamps|]; cbn; [|done].
  destruct (convert_stamp "start" stamps) as [st1|e1]; cbn; [|done].
  by destruct (convert_stamp "end" st1) as [st2|e2].
Qed.

(** What [processActivity] returns when it returns. *)
Lemma processActivity_returns (s : State) (activity processed : Activity) :
  (processActivity activity s).1 = Normal processed ->
  let s' := (processActivity activity s).2 in
  act_stamps processed = act_stamps activity
  /\ JS.lookup_field "application_id" (act_fields processed)
     = (if JS.truthy (JS.lookup_field "application_id" (act_fields activity))
        then JS.lookup_field "application_id" (act_fields activity)
        else clientId_value s)
  /\ (forall k, k <> "application_id" -> k <> "timestamps" ->
        JS.lookup_field k (act_fields processed)
        = JS.lookup_field k (act_fields activity))
  /\ (forall stamps, stamps_of (heap s) activity = Some stamps ->
        exists stamps',
          stamps_of (heap s') processed = Some stamps'
          /\ stamps_settled stamps'
          /\ forall k,
               JS.lookup_field k stamps'
               = if is_stamp_key k then seconds (JS.lookup_field k stamps)
                 else JS.lookup_field k stamps)
  /\ JS.truthy (JS.lookup_field "buttons" (act_fields processed))
     && more_than_two (JS.lookup_field "buttons" (act_fields processed))
     = false
  /\ (JS.truthy (JS.lookup_field "assets" (act_fields processed)) = true ->
      bad_asset (asset_entries
                   (JS.lookup_field "assets" (act_fields processed))) = None).
Proof.
  intros Hn s'. subst s'. revert Hn. rewrite processActivity_eq. cbn zeta.
  set (base := if JS.truthy (JS.lookup_field "application_id"
                               (act_fields activity))
               then act_fields activity
               else JS.assign_field "application_id" (clientId_value s)
                      (act_fields activity)).
  assert (Hbase_id : JS.lookup_field "application_id" base
                     = (if JS.truthy (JS.lookup_field "application_id"
                                        (act_fields activity))
                        then JS.lookup_field "application_id"
                               (act_fields activity)
                        else clientId_value s)).
  { subst base. destruct (JS.truthy _); [done|].
    apply lookup_assign_field_eq. }
  assert (Hbase_other : forall k, k <> "application_id" ->
                          JS.lookup_field k base
                          = JS.lookup_field k (act_fields activity)).
  { intros k Hk. subst base. destruct (JS.truthy _); [done|].
    by apply lookup_assign_field_ne. }
  clearbody base.
  assert (Hcheck : forall (fields : list (string * value)) (s1 : State),
             (if JS.truthy (JS.lookup_field "buttons" fields)
                 && more_than_two (JS.lookup_field "buttons" fields)
              then (Thrown (mkError KError "Maximum 2 buttons allowed"), s1)
              else
                if JS.truthy (JS.lookup_field "assets" fields) then
                  match bad_asset (asset_entries
                                     (JS.lookup_field "assets" fields)) with
                  | Some key =>
                      (Thrown (mkError KError
                                 ("Asset " +:+ key +:+ " must be a string")),
                       s1)
                  | None =>
                      (Normal (mkActivity fields (act_stamps activity)), s1)
                  end
                else (Normal (mkActivity fields (act_stamps activity)), s1)).1
             = Normal processed ->
             processed = mkActivity fields (act_stamps activity)
             /\ JS.truthy (JS.lookup_field "buttons" fields)
                && more_than_two (JS.lookup_field "buttons" fields) = false
             /\ (JS.truthy (JS.lookup_field "assets" fields) = true ->
                 bad_asset (asset_entries (JS.lookup_field "assets" fields))
                 = None)).
  { intros fields s1.
    destruct (JS.truthy (JS.lookup_field "buttons" fields)
              && more_than_two (JS.lookup_field "buttons" fields)); [done|].
    destruct (JS.truthy (JS.lookup_field "assets" fields)).
    - destruct (bad_asset _); [done|]. cbn. intros [= <-]. done.
    - cbn. intros [= <-]. done. }
  destruct (act_stamps activity) as [l|] eqn:Hst.
  - rewrite convert_shared_eq.
    destruct (heap s !! l) as [stamps|] eqn:Hl.
    + destruct (convert_stamp "start" stamps) as [st1|] eqn:H1; [|done].
      destruct (convert_stamp "end" st1) as [st2|] eqn:H2; [|done].
      intros Hn. apply Hcheck in Hn as (-> & Hb & Ha). cbn.
      destruct (convert_both _ _ _ H1 H2) as [Hset Hval].
      repeat split; try done.
      * intros k Hk _. by apply Hbase_other.
      * unfold stamps_of. cbn. rewrite Hst, Hl. intros ? [= <-].
        exists st2. rewrite insert_insert_eq.
        match goal with
        | |- context [ heap ?x ] =>
            replace (heap x) with (<[l := st2]> (heap s))
        end.
        -- by rewrite lookup_insert_eq.
        -- repeat case_match; done.
    + intros Hn. apply Hcheck in Hn as (-> & Hb & Ha). cbn.
      repeat split; try done.
      * intros k Hk _. by apply Hbase_other.
      * unfold stamps_of. cbn. rewrite Hst, Hl. done.
  - unfold convert_owned.
    destruct (JS.lookup_field "timestamps" base) as [| | | | | | |obj] eqn:Hts;
      try (intros Hn; apply Hcheck in Hn as (-> & Hb & Ha); cbn;
           repeat split; try done;
           [ intros k Hk _; by apply Hbase_other
           | unfold stamps_of; cbn; rewrite Hst;
             rewrite <- (Hbase_other "timestamps") by done;
             by rewrite Hts ]).
    destruct (convert_stamp "start" obj) as [st1|] eqn:H1; [|done].
    destruct (convert_stamp "end" st1) as [st2|] eqn:H2; [|done].
    intros Hn. apply Hcheck in Hn as (-> & Hb & Ha). cbn in *.
    destruct (convert_both _ _ _ H1 H2) as [Hset Hval].
    split; [done|]. split; [by rewrite lookup_assign_field_ne|].
    split; [intros k Hk Hk'; rewrite lookup_assign_field_ne by done;
            by apply Hbase_other|].
    split; [|done].
    unfold stamps_of. cbn. rewrite Hst.
    rewrite <- (Hbase_other "timestamps") by done. rewrite Hts.
    intros ? [= <-]. exists st2. by rewrite lookup_assign_field_eq.
Qed.

Lemma bad_asset_none (fields : list (string * value)) (key : string)
  (v : value) :
  bad_asset fields = None ->
  In (key, v) fields ->
  JS.truthy v = true ->
  exists text, v = VStr text.
Proof.
  induction fields as [|[k0 v0] fields IH]; [done|].
  cbn. destruct (JS.truthy v0 && _) eqn:E; [done|].
  intros Hb [[= -> ->]|Hin] Hv; [|by apply IH].
  rewrite Hv in E. destruct v; try done. by eexists.
Qed.

(** X15: what [processActivity] returns when it returns.  The result has
    the [application_id] of the activity if that is truthy and the
    client id otherwise; in its [timestamps] object, if it has one, a
    [start] or [end] that was a date is the whole number of seconds
    [Math.floor(ms / 1000)] and every other property is as it was, so
    that nothing is left to convert; its [buttons], if any, are at most
    two, and every truthy property of its [assets] is a string; every
    other property of the activity is carried over unchanged. *)
Theorem processActivity_result (s : State) (activity processed : Activity) :
  (processActivity activity s).1 = Normal processed ->
  let s' := (processActivity activity s).2 in
  act_stamps processed = act_stamps activity
  /\ JS.lookup_field "application_id" (act_fields processed)
     = (if JS.truthy (JS.lookup_field "application_id" (act_fields activity))
        then JS.lookup_field "application_id" (act_fields activity)
        else clientId_value s)
  /\ (forall k, k <> "application_id" -> k <> "timestamps" ->
        JS.lookup_field k (act_fields processed)
        = JS.lookup_field k (act_fields activity))
  /\ (forall stamps, stamps_of (heap s) activity = Some stamps ->
        exists stamps',
          stamps_of (heap s') processed = Some stamps'
          /\ stamps_settled stamps'
          /\ forall k,
               JS.lookup_field k stamps'
               = if is_stamp_key k then seconds (JS.lookup_field k stamps)
                 else JS.lookup_field k stamps)
  /\ (forall buttons,
        JS.lookup_field "buttons" (act_fields processed) = VArr buttons ->
        (length buttons <= 2)%nat)
  /\ (forall assets key v,
        JS.lookup_field "assets" (act_fields processed) = VObj assets ->
        In (key, v) assets ->
        JS.truthy v = true ->
        exists text, v = VStr text).
Proof.
  intros Hn s'.
  destruct (processActivity_returns s activity processed Hn)
    as (H1 & H2 & H3 & H4 & H5 & H6).
  do 4 (split; [done|]). split.
  - intros buttons Hb. rewrite Hb in H5. cbn in H5. lia.
  - intros assets key v Ha Hin Hv. rewrite Ha in H6.
    specialize (H6 eq_refl). cbn in H6.
    eapply bad_asset_none; eauto.
Qed.

Lemma convert_owned_settled (fields stamps : list (string * value)) :
  JS.lookup_field "timestamps" fields = VObj stamps ->
  stamps_settled stamps ->
  convert_owned fields = Normal fields.
Proof.
  intros Hts [Hs He]. unfold convert_owned. rewrite Hts.
  rewrite (convert_stamp_settled _ _ Hs), (convert_stamp_settled _ _ He).
  f_equal. by apply assign_field_present.
Qed.

Lemma assign_field_keys (k k' : string) (v : value)
  (fields : list (string * value)) :
  k' ∈ (JS.assign_field k v fields).*1 <-> k' = k \/ k' ∈ fields.*1.
Proof.
  induction fields as [|[k0 v0] fields IH]; cbn.
  - apply elem_of_cons.
  - destruct (String.eqb k k0) eqn:E; cbn; rewrite !elem_of_cons.
    + apply String.eqb_eq in E. subst k0. tauto.
    + rewrite IH. tauto.
Qed.

Lemma assign_field_id (k : string) (v : value)
  (fields : list (string * value)) :
  k ∈ fields.*1 -> JS.lookup_field k fields = v ->
  JS.assign_field k v fields = fields.
Proof.
  induction fields as [|[k0 v0] fields IH]; cbn.
  - by intros ?%elem_of_nil.
  - destruct (String.eqb k k0) eqn:E.
    + apply String.eqb_eq in E. by intros _ ->; subst.
    + intros Hin Hv. rewrite IH; [done | | done].
      apply elem_of_cons in Hin as [->|Hin]; [|done].
      by rewrite String.eqb_refl in E.
Qed.

Lemma set_heap_same (s : State) : set_heap (heap s) s = s.
Proof. by destruct s. Qed.

Lemma convert_shared_settled (s : State) (l : nat) :
  (forall stamps, heap s !! l = Some stamps -> stamps_settled stamps) ->
  convert_shared l s = (Normal tt, s).
Proof.
  intros H. rewrite convert_shared_eq.
  destruct (heap s !! l) as [stamps|] eqn:Hl; [|done].
  destruct (H stamps eq_refl) as [Hs He].
  rewrite (convert_stamp_settled _ _ Hs), (convert_stamp_settled _ _ He).
  by rewrite insert_insert_eq, insert_id, set_heap_same.
Qed.

(** The default [application_id] is in place after one pass. *)
Lemma application_id_settled (cid : value) (fields : list (string * value))
  (v : value) :
  let base :=
    if JS.truthy (JS.lookup_field "application_id" fields) then fields
    else JS.assign_field "application_id" cid fields in
  forall processed,
    processed = base \/ processed = JS.assign_field "timestamps" v base ->
    (if JS.truthy (JS.lookup_field "application_id" processed) then processed
     else JS.assign_field "application_id" cid processed) = processed.
Proof.
  intros base processed Hp.
  assert (Hlook : JS.lookup_field "application_id" processed
                  = JS.lookup_field "application_id" base).
  { destruct Hp as [->| ->]; [done|]. by apply lookup_assign_field_ne. }
  rewrite Hlook. subst base.
  destruct (JS.truthy (JS.lookup_field "application_id" fields)) eqn:E.
  - by rewrite E.
  - rewrite lookup_assign_field_eq.
    destruct (JS.truthy cid); [done|].
    apply assign_field_id.
    + destruct Hp as [->| ->]; rewrite !assign_field_keys; tauto.
    + rewrite Hlook. apply lookup_assign_field_eq.
Qed.

(** X16: [processActivity] is idempotent.  Given the activity it has
    returned, in the state it has left, it returns the same activity and
    changes nothing; this is the call [setActivity(this.currentActivity)]
    of the reconnect callback. *)
Theorem processActivity_idempotent (s : State)
  (activity processed : Activity) :
  (processActivity activity s).1 = Normal processed ->
  let s' := (processActivity activity s).2 in
  processActivity processed s' = (Normal processed, s').
Proof.
  intros Hn s'.
  destruct (processActivity_returns s activity processed Hn)
    as (Hst & _ & _ & Hstamps & Hb & Ha).
  fold s' in Hstamps.
  destruct (processActivity_fields s activity)
    as (_ & _ & Hse & _ & _ & _ & _ & _ & Hnew).
  fold s' in Hse, Hnew.
  assert (Hcid : clientId_value s' = clientId_value s).
  { unfold clientId_value. unfold session in Hse.
    by replace (clientId s') with (clientId s) by congruence. }
  assert (Hshape :
            (act_fields processed
             = (if JS.truthy (JS.lookup_field "application_id"
                                (act_fields activity))
                then act_fields activity
                else JS.assign_field "application_id" (clientId_value s)
                       (act_fields activity))
             /\ (act_stamps activity = None ->
                 forall obj,
                   JS.lookup_field "timestamps" (act_fields processed)
                   <> VObj obj))
            \/ exists st2,
                 act_stamps activity = None
                 /\ stamps_settled st2
                 /\ act_fields processed
                    = JS.assign_field "timestamps" (VObj st2)
                        (if JS.truthy (JS.lookup_field "application_id"
                                         (act_fields activity))
                         then act_fields activity
                         else JS.assign_field "application_id"
                                (clientId_value s) (act_fields activity))).
  { clear -Hn. revert Hn. rewrite processActivity_eq. cbn zeta.
    destruct (act_stamps activity) as [l|].
    - destruct (convert_shared l s) as [[[]|e] s1]; [|done].
      repeat case_match; try done; cbn; intros [= <-]; by left.
    - unfold convert_owned.
      destruct (JS.lookup_field "timestamps" _) as [| | | | | | |obj0] eqn:Hts;
        try (repeat case_match; try done; cbn; intros [= <-]; left;
             (split; [done|]); intros _ obj; cbn; by rewrite Hts).
      destruct (convert_stamp "start" obj0) as [st1|] eqn:H1; [|done].
      destruct (convert_stamp "end" st1) as [st2|] eqn:H2; [|done].
      destruct (convert_both _ _ _ H1 H2) as [Hset _].
      repeat case_match; try done; cbn; intros [= <-]; right;
        exists st2; done. }
  rewrite processActivity_eq. cbn zeta. rewrite Hcid.
  assert (Hbase : (if JS.truthy (JS.lookup_field "application_id"
                                   (act_fields processed))
                   then act_fields processed
                   else JS.assign_field "application_id" (clientId_value s)
                          (act_fields processed))
                  = act_fields processed).
  { destruct Hshape as [[Hp _]|(st2 & _ & _ & Hp)].
    - apply (application_id_settled _ (act_fields activity) VUndefined).
      by left.
    - apply (application_id_settled _ (act_fields activity) (VObj st2)).
      by right. }
  rewrite Hbase, Hb.
  assert (Hret : (if JS.truthy (JS.lookup_field "assets"
                                  (act_fields processed))
                  then
                    match bad_asset (asset_entries
                                       (JS.lookup_field "assets"
                                          (act_fields processed))) with
                    | Some key =>
                        (Thrown (mkError KError
                                   ("Asset " +:+ key +:+ " must be a string")),
                         s')
                    | None =>
                        (Normal (mkActivity (act_fields processed)
                                            (act_stamps processed)), s')
                    end
                  else (Normal (mkActivity (act_fields processed)
                                           (act_stamps processed)), s'))
                 = (Normal processed, s')).
  { destruct (JS.truthy (JS.lookup_field "assets" (act_fields processed)));
      rewrite ?Ha by done; by destruct processed. }
  destruct (act_stamps processed) as [l|] eqn:Hl.
  - rewrite convert_shared_settled; [rewrite ?Hb; exact Hret|].
    intros stamps Hs. eapply Hnew; eauto.
  - assert (Howned : convert_owned (act_fields processed)
                     = Normal (act_fields processed)).
    { destruct Hshape as [[Hp Hno]|(st2 & _ & Hset & Hp)].
      - unfold convert_owned. rewrite Hst in Hl.
        destruct (JS.lookup_field "timestamps" (act_fields processed))
          as [| | | | | | |obj] eqn:Hts; try done.
        assert (Hnone : act_stamps activity = None) by congruence.
        by destruct (Hno Hnone obj).
      - apply (convert_owned_settled _ st2); [|done].
        rewrite Hp. apply lookup_assign_field_eq. }
    rewrite Howned, ?Hb. exact Hret.
Qed.

Section ActivityFacts.

Variable JSON_stringify : value -> option string.
Variable pid : Z.

Local Abbreviation sendCommand := (sendCommand JSON_stringify).
Local Abbreviation setActivity_begin := (setActivity_begin JSON_stringify pid).
Local Abbreviation clearActivity_begin :=
  (clearActivity_begin JSON_stringify pid).

(** X17: an activity that [processActivity] rejects is not sent:
    [setActivity] throws the same error before it issues any command, so
    no timer, no pending entry and no promise is created, nothing is
    written or queued, and the session is untouched.  The conversion of
    the timestamps has already happened by then: when the [timestamps]
    object the caller holds converts without error and the activity is
    then refused for its buttons or assets, that object holds the
    converted values although the activity was rejected; no other object
    of the store has changed. *)
Theorem rejected_activity_is_not_sent (s : State) (activity : Activity)
  (nonce : string) (e : Error) :
  (processActivity activity s).1 = Thrown e ->
  let b := setActivity_begin activity nonce s in
  b.1 = Thrown e
  /\ correlator b.2 = correlator s
  /\ written b.2 = written s
  /\ messageQueue b.2 = messageQueue s
  /\ session b.2 = session s
  /\ transport b.2 = transport s
  /\ (forall l, act_stamps activity <> Some l -> heap b.2 !! l = heap s !! l)
  /\ (forall l stamps st1 st2,
        act_stamps activity = Some l ->
        heap s !! l = Some stamps ->
        convert_stamp "start" stamps = Normal st1 ->
        convert_stamp "end" st1 = Normal st2 ->
        heap b.2 !! l = Some st2
        /\ (e = mkError KError "Maximum 2 buttons allowed"
            \/ exists key,
                 e = mkError KError ("Asset " +:+ key +:+ " must be a string"))).
Proof.
  intros He b.
  assert (Hb : b.1 = Thrown e /\ b.2 = (processActivity activity s).2).
  { subst b. unfold setActivity_begin. rewrite bind_eq.
    destruct (processActivity activity s) as [[p|e0] s0]; [done|].
    cbn in *. by simplify_eq. }
  destruct Hb as [Hb1 Hb2]. rewrite Hb2.
  destruct (processActivity_fields s activity)
    as (Ht & Hk & Hse & Hq & Hw & _ & Hother & _).
  split; [done|]. do 5 (split; [done|]). split; [done|].
  intros l stamps st1 st2 Hst Hl H1 H2. revert He.
  rewrite processActivity_eq. cbn zeta. rewrite Hst, convert_shared_eq, Hl.
  rewrite H1, H2.
  repeat case_match; cbn; try done; intros [= <-];
    (split; [by rewrite insert_insert_eq, lookup_insert_eq | eauto]).
Qed.

(** X18: [clearActivity()] issues one SET_ACTIVITY command that carries
    the process id only, with the default timeout, and changes neither
    [currentActivity] nor the notifications by doing so.  It has no
    [try]: when the command is rejected the error is thrown and the
    client is exactly as before, so [currentActivity] keeps its value and
    no activityCleared is emitted; when it is resolved,
    [currentActivity] becomes [null] and one activityCleared is emitted,
    and nothing else changes. *)
Theorem clearActivity_clears_on_success (s : State) (nonce : string) :
  let b := clearActivity_begin nonce s in
  b = sendCommand "SET_ACTIVITY" (VObj [("pid", VNum pid)]) 10000 nonce s
  /\ b.1 = Normal (nextPromise s)
  /\ session b.2 = session s
  /\ timers b.2 !! nextTimer s
     = Some (TCommandTimeout nonce "SET_ACTIVITY" (nextPromise s) 10000)
  /\ (forall (s' : State) (error : Error),
        clearActivity_resume (Rejected error) s' = (Thrown error, s'))
  /\ (forall (s' : State) (response : value),
        let r := clearActivity_resume (Resolved response) s' in
        r.1 = Normal tt
        /\ currentActivity r.2 = None
        /\ emitted r.2 = emitted s' ++ [NActivityCleared]
        /\ authenticated r.2 = authenticated s'
        /\ correlator r.2 = correlator s'
        /\ transport r.2 = transport s'
        /\ messageQueue r.2 = messageQueue s'
        /\ written r.2 = written s'
        /\ heap r.2 = heap s').
Proof.
  intros b. subst b. unfold clearActivity_begin.
  destruct (sendCommand_views JSON_stringify s "SET_ACTIVITY"
              (VObj [("pid", VNum pid)]) 10000 nonce) as (H1 & H2 & _).
  destruct (sendCommand_fields JSON_stringify s "SET_ACTIVITY"
              (VObj [("pid", VNum pid)]) 10000 nonce) as (_ & Ht & _).
  split; [done|]. split; [done|]. split; [done|].
  split; [rewrite Ht; apply lookup_insert_eq|].
  split; [done|]. intros s' response.
  unfold clearActivity_resume, emit, bind, modify, correlator, transport.
  cbn. done.
Qed.

End ActivityFacts.

(** *** The query helpers *)

Lemma lookup_spread_fields (k : string) (fields target : list (string * value)) :
  NoDup fields.*1 ->
  JS.lookup_field k
    (fold_left (fun acc (kv : string * value) =>
                  JS.assign_field kv.1 kv.2 acc) fields target)
  = if decide (k ∈ fields.*1) then JS.lookup_field k fields
    else JS.lookup_field k target.
Proof.
  revert target. induction fields as [|[k0 v0] fields IH]; intros target Hnd.
  - cbn. rewrite decide_False; [done|]. apply not_elem_of_nil.
  - cbn [fold_left fst snd]. apply NoDup_cons in Hnd as [Hk0 Hnd].
    rewrite IH by done. cbn [fmap list_fmap fst JS.lookup_field].
    destruct (String.eqb k k0) eqn:E.
    + apply String.eqb_eq in E. subst k0.
      rewrite decide_False by done.
      rewrite decide_True by (apply elem_of_cons; by left).
      apply lookup_assign_field_eq.
    + apply String.eqb_neq in E.
      destruct (decide (k ∈ fields.*1)) as [Hin|Hin].
      * rewrite decide_True by (apply elem_of_cons; by right). done.
      * rewrite decide_False by (rewrite elem_of_cons; tauto).
        by rewrite lookup_assign_field_ne.
Qed.

(** X19: in [subscribe(event, args)] and [unsubscribe(event, args)] the
    properties of [args] are spread after [evt]: an [evt] property of
    [args] replaces the event that was passed, every other property of
    [args] is sent as it is, and without [args] (or with [null]) the
    command carries the event alone.  The command is SUBSCRIBE or
    UNSUBSCRIBE with the default timeout. *)
Theorem subscribe_args_override_event (JSON_stringify : value -> option string)
  (s : State) (event args : value) (nonce : string) :
  let sent := spread [("evt", event)] args in
  subscribe JSON_stringify event args nonce s
  = sendCommand JSON_stringify "SUBSCRIBE" (VObj sent) 10000 nonce s
  /\ unsubscribe JSON_stringify event args nonce s
     = sendCommand JSON_stringify "UNSUBSCRIBE" (VObj sent) 10000 nonce s
  /\ (args = VUndefined \/ args = VNull -> sent = [("evt", event)])
  /\ (forall fields, args = VObj fields -> NoDup fields.*1 ->
        JS.lookup_field "evt" sent
        = (if decide ("evt" ∈ fields.*1) then JS.lookup_field "evt" fields
           else event)
        /\ forall k, k <> "evt" ->
             JS.lookup_field k sent = JS.lookup_field k fields).
Proof.
  intros sent. split; [done|]. split; [done|]. split.
  - by intros [-> | ->].
  - intros fields -> Hnd. subst sent. unfold spread. split.
    + by rewrite lookup_spread_fields.
    + intros k Hk. rewrite lookup_spread_fields by done.
      destruct (decide (k ∈ fields.*1)) as [Hin|Hin]; [done|].
      cbn. apply String.eqb_neq in Hk. rewrite Hk.
      clear -Hin. induction fields as [|[k0 v0] fields IH]; [done|].
      cbn in *. apply not_elem_of_cons in Hin as [Hne Hin].
      apply String.eqb_neq in Hne. rewrite Hne. by apply IH.
Qed.


(** ** The decoder on arbitrary bytes *)

Lemma of_Z_unsigned (z : Z) (b : byte) :
  z mod 256 = Buf.unsigned b -> Buf.of_Z z = b.
Proof.
  intros H. unfold Buf.of_Z, Buf.unsigned in *. rewrite H.
  by rewrite N2Z.id, Byte.of_to_N.
Qed.

Lemma readUInt32LE_bytes (b0 b1 b2 b3 : byte) (rest : Buffer) :
  let v := Buf.readUInt32LE (b0 :: b1 :: b2 :: b3 :: rest) 0 in
  0 <= v <= Buf.uint32_max
  /\ Buf.of_Z v = b0
  /\ Buf.of_Z (Z.shiftr v 8) = b1
  /\ Buf.of_Z (Z.shiftr v 16) = b2
  /\ Buf.of_Z (Z.shiftr v 24) = b3.
Proof.
  cbn zeta. unfold Buf.readUInt32LE, Buf.at_, Buf.uint32_max. cbn.
  pose proof (BufFacts.unsigned_range b0).
  pose proof (BufFacts.unsigned_range b1).
  pose proof (BufFacts.unsigned_range b2).
  pose proof (BufFacts.unsigned_range b3).
  split; [lia|].
  repeat split; apply of_Z_unsigned;
    rewrite ?Z.shiftr_div_pow2 by lia;
    change (2 ^ 8) with 256; change (2 ^ 16) with 65536;
    change (2 ^ 24) with 16777216;
    Z.div_mod_to_equations; lia.
Qed.

Lemma readUInt32LE_drop (buf : Buffer) (offset : nat) :
  Buf.readUInt32LE buf offset = Buf.readUInt32LE (drop offset buf) 0.
Proof.
  unfold Buf.readUInt32LE, Buf.at_. rewrite !lookup_drop.
  by rewrite Nat.add_0_r.
Qed.

(** The header the decoder reads is the header [send] would write. *)
Lemma header_bytes_read (buf : Buffer) :
  (8 <= length buf)%nat ->
  Buf.header_bytes (Buf.readUInt32LE buf 0) (Buf.readUInt32LE buf 4)
  = take 8 buf
  /\ 0 <= Buf.readUInt32LE buf 0 <= Buf.uint32_max
  /\ 0 <= Buf.readUInt32LE buf 4 <= Buf.uint32_max.
Proof.
  intros H.
  destruct buf as [|b0 [|b1 [|b2 [|b3 [|b4 [|b5 [|b6 [|b7 rest]]]]]]]];
    cbn in H; try lia.
  rewrite (readUInt32LE_drop _ 4). cbn [drop take].
  destruct (readUInt32LE_bytes b0 b1 b2 b3 (b4 :: b5 :: b6 :: b7 :: rest))
    as (Hr0 & H0 & H1 & H2 & H3).
  destruct (readUInt32LE_bytes b4 b5 b6 b7 rest)
    as (Hr4 & H4 & H5 & H6 & H7).
  cbn zeta in *. unfold Buf.header_bytes.
  rewrite H0, H1, H2, H3, H4, H5, H6, H7. done.
Qed.

Lemma data_loop_recorded (buf : Buffer) (seen : list (Z * Buffer)) :
  exists frames,
    (data_loop record_frame buf seen).2 = seen ++ frames
    /\ concat (map (fun f : Z * Buffer => Buf.frame_bytes f.1 f.2) frames)
       ++ (data_loop record_frame buf seen).1 = buf
    /\ incomplete (data_loop record_frame buf seen).1
    /\ Forall frame_ok frames
    /\ (frames = [] <-> incomplete buf)
    /\ (forall f, head frames = Some f ->
          f = (Buf.readUInt32LE buf 0,
               Buf.slice buf 8 (8 + Z.to_nat (Buf.readUInt32LE buf 4))))
    /\ forall (St : Type) (h : Z -> Buffer -> St -> St) (s : St),
         data_loop h buf s
         = ((data_loop record_frame buf seen).1,
            fold_left (fun s f => h f.1 f.2 s) frames s).
Proof.
  remember (length buf) as n eqn:Hn. revert buf seen Hn.
  induction n as [n IH] using lt_wf_ind. intros buf seen ->.
  destruct (decide (8 <= length buf)%nat) as [H8|H8].
  2: { exists []. rewrite (data_loop_short _ buf) by lia.
       cbn. rewrite app_nil_r. repeat split; try done.
       - left. lia.
       - intros _. left. lia.
       - intros St h s. by rewrite (data_loop_short _ buf) by lia. }
  destruct (decide (Z.of_nat (length buf) < 8 + Buf.readUInt32LE buf 4))
    as [Hi|Hi].
  { exists []. rewrite (data_loop_incomplete _ buf) by done.
    cbn. rewrite app_nil_r. repeat split; try done.
    - by right.
    - intros _. by right.
    - intros St h s. by rewrite (data_loop_incomplete _ buf). }
  destruct (header_bytes_read buf H8) as (Hhead & Ho & Hl).
  set (len := Z.to_nat (Buf.readUInt32LE buf 4)) in *.
  set (op := Buf.readUInt32LE buf 0) in *.
  set (payload := Buf.slice buf 8 (8 + len)).
  assert (Hpl : length payload = len).
  { subst payload. unfold Buf.slice. rewrite length_take, length_drop. lia. }
  rewrite (data_loop_frame _ buf) by lia. fold len op payload.
  destruct (IH (length (Buf.slice_from buf (8 + len)))
              ltac:(unfold Buf.slice_from; rewrite length_drop; lia)
              (Buf.slice_from buf (8 + len))
              (record_frame op payload seen) eq_refl)
    as (frames & Hf & Hbytes & Hinc & Hok & _ & _ & Hany).
  exists ((op, payload) :: frames).
  split; [rewrite Hf; unfold record_frame; by rewrite <- app_assoc|].
  split.
  { cbn [map concat fst snd]. rewrite <- app_assoc, Hbytes.
    unfold Buf.frame_bytes. rewrite Hpl.
    replace (Z.of_nat len) with (Buf.readUInt32LE buf 4) by lia.
    rewrite Hhead. subst payload. unfold Buf.slice, Buf.slice_from.
    replace (8 + len - 8)%nat with len by lia.
    rewrite <- app_assoc, <- drop_drop, (take_drop len (drop 8 buf)).
    apply take_drop. }
  split; [done|].
  split.
  { constructor; [|done]. split; cbn [fst snd]; [done|]. rewrite Hpl. lia. }
  split.
  { split; [done|]. intros [H|H]; lia. }
  split; [by intros f [= <-]|].
  intros St h s. rewrite (data_loop_frame _ buf) by lia. fold len op payload.
  by rewrite Hany.
Qed.

(** X20: on any sequence of chunks, well formed or not, the stream
    decoder neither loses nor invents a byte: the frames it has
    delivered, encoded again, followed by the bytes it keeps, are the
    bytes it was given.  What it keeps never holds a complete frame, the
    fields of every frame it delivers are [uint32], and a handler of any
    kind is called with exactly these frames, in this order. *)
Theorem decoder_conserves_bytes (chunks : list Buffer) :
  let rest := (decoded_frames chunks).1 in
  let frames := (decoded_frames chunks).2 in
  concat (map (fun f : Z * Buffer => Buf.frame_bytes f.1 f.2) frames) ++ rest
  = concat chunks
  /\ incomplete rest
  /\ Forall frame_ok frames
  /\ (frames = [] <-> incomplete (concat chunks))
  /\ forall (St : Type) (h : Z -> Buffer -> St -> St) (s : St),
       feed h chunks ([], s)
       = (rest, fold_left (fun s f => h f.1 f.2 s) frames s).
Proof.
  intros rest frames. subst rest frames. unfold decoded_frames.
  rewrite feed_concat.
  destruct (data_loop_recorded (concat chunks) [])
    as (frames & Hf & Hbytes & Hinc & Hok & Hnil & _ & Hany).
  cbn [app] in Hf. rewrite Hf.
  repeat split; try done; try apply Hnil.
  intros St h s. by rewrite feed_concat, Hany.
Qed.

(** ** [receive()] *)

Section ReceiveFacts.

Variable JSON_parse : string -> completion value.

Local Abbreviation onData := (onData JSON_parse).
Local Abbreviation receive_data := (receive_data JSON_parse).
Local Abbreviation receive_feed := (receive_feed JSON_parse).
Local Abbreviation received_value := (received_value JSON_parse).

(** Once the listener is removed the receiver no longer changes. *)
Lemma receive_feed_detached (this_socket : option nat)
  (chunks : list Buffer) (r : Receiver) :
  rc_socket r = None -> receive_feed this_socket chunks r = (Normal tt, r).
Proof.
  intros H. induction chunks as [|c chunks IH]; [done|].
  cbn [receive_feed]. unfold receive_data. by rewrite H.
Qed.

Lemma incomplete_dec (buf : Buffer) : Decision (incomplete buf).
Proof. unfold incomplete. apply _. Qed.

Lemma complete_app (buf extra : Buffer) :
  ~ incomplete buf ->
  ~ incomplete (buf ++ extra)
  /\ Buf.readUInt32LE (buf ++ extra) 0 = Buf.readUInt32LE buf 0
  /\ Buf.readUInt32LE (buf ++ extra) 4 = Buf.readUInt32LE buf 4
  /\ Buf.slice (buf ++ extra) 8
       (8 + Z.to_nat (Buf.readUInt32LE (buf ++ extra) 4))
     = Buf.slice buf 8 (8 + Z.to_nat (Buf.readUInt32LE buf 4)).
Proof.
  unfold incomplete. intros H.
  assert (H8 : (8 <= length buf)%nat) by lia.
  assert (Hl : 8 + Buf.readUInt32LE buf 4 <= Z.of_nat (length buf)) by lia.
  pose proof (BufFacts.readUInt32LE_nonneg buf 4).
  rewrite !BufFacts.readUInt32LE_app by lia.
  split; [rewrite length_app; lia|]. split; [done|]. split; [done|].
  unfold Buf.slice. rewrite drop_app_le by lia.
  rewrite take_app_le; [done|]. rewrite length_drop. lia.
Qed.

(** One ['data'] event, in terms of the bytes that have arrived. *)
Lemma receive_data_bytes (this_socket : option nat) (k : nat) (c : Buffer)
  (r0 : Receiver) (arrived : Buffer) :
  rc_socket r0 = Some k ->
  rc_promise r0 = None ->
  ((length arrived < 8)%nat ->
   rc_header r0 = None /\ rc_buffer r0 = arrived) ->
  ((8 <= length arrived)%nat ->
   rc_header r0
   = Some (Buf.readUInt32LE arrived 0, Buf.readUInt32LE arrived 4)
   /\ rc_buffer r0 = drop 8 arrived) ->
  let now := arrived ++ c in
  exists r1,
    rc_socket r1 = Some k
    /\ rc_promise r1 = None
    /\ ((length now < 8)%nat -> rc_header r1 = None /\ rc_buffer r1 = now)
    /\ ((8 <= length now)%nat ->
        rc_header r1
        = Some (Buf.readUInt32LE now 0, Buf.readUInt32LE now 4)
        /\ rc_buffer r1 = drop 8 now)
    /\ receive_data this_socket c r0
       = if decide (incomplete now) then (Normal tt, r1)
         else
           match removeListener this_socket r1 with
           | (Normal _, r2) =>
               (Normal tt,
                rc_settle
                  (Resolved
                     (received_value
                        (Buf.toString
                           (Buf.slice now 8
                              (8 + Z.to_nat (Buf.readUInt32LE now 4))))))
                  r2)
           | (Thrown e, r2) => (Thrown e, r2)
           end.
Proof.
  intros Hsock Hprom Hlt Hge now.
  unfold receive_data. rewrite Hsock. unfold onData.
  destruct (decide (length arrived < 8)%nat) as [Hs|Hs].
  - destruct (Hlt Hs) as [Hh Hb]. rewrite Hh, Hb. fold now.
    destruct (decide (8 <= length now)%nat) as [H8|H8].
    + eexists (mkReceiver (rc_socket r0) (Buf.slice_from now 8)
                 (Some (Buf.readUInt32LE now 0, Buf.readUInt32LE now 4))
                 (rc_promise r0)).
      cbn [rc_socket rc_promise rc_header rc_buffer].
      split; [done|]. split; [done|].
      split; [lia|]. split; [done|].
      unfold Buf.slice_from, incomplete.
      pose proof (BufFacts.readUInt32LE_nonneg now 4).
      rewrite length_drop.
      destruct (decide (Buf.readUInt32LE now 4
                        <= Z.of_nat (length now - 8))) as [Hc|Hc].
      * rewrite decide_False by lia.
        unfold Buf.slice. rewrite Nat.sub_0_r. cbn [drop].
        replace (8 + Z.to_nat (Buf.readUInt32LE now 4) - 8)%nat
          with (Z.to_nat (Buf.readUInt32LE now 4)) by lia.
        done.
      * rewrite decide_True by lia. done.
    + eexists (mkReceiver (rc_socket r0) now None (rc_promise r0)).
      cbn [rc_socket rc_promise rc_header rc_buffer].
      split; [done|]. split; [done|]. split; [done|].
      split; [lia|]. rewrite decide_True; [done|]. left. lia.
  - assert (H8 : (8 <= length arrived)%nat) by lia.
    destruct (Hge H8) as [Hh Hb]. rewrite Hh, Hb.
    cbn [rc_socket rc_promise rc_header rc_buffer].
    assert (Hnow : drop 8 arrived ++ c = drop 8 now)
      by (subst now; by rewrite drop_app_le by lia).
    assert (Hr0 : Buf.readUInt32LE now 0 = Buf.readUInt32LE arrived 0)
      by (subst now; by rewrite BufFacts.readUInt32LE_app by lia).
    assert (Hr4 : Buf.readUInt32LE now 4 = Buf.readUInt32LE arrived 4)
      by (subst now; by rewrite BufFacts.readUInt32LE_app by lia).
    assert (Hlen : (8 <= length now)%nat)
      by (subst now; rewrite length_app; lia).
    eexists (mkReceiver (rc_socket r0) (drop 8 now)
               (Some (Buf.readUInt32LE now 0, Buf.readUInt32LE now 4))
               (rc_promise r0)).
    cbn [rc_socket rc_promise rc_header rc_buffer].
    split; [done|]. split; [done|].
    split; [lia|]. split; [done|].
    rewrite Hnow, <- Hr4, <- Hr0. unfold incomplete.
    pose proof (BufFacts.readUInt32LE_nonneg now 4).
    rewrite length_drop.
    destruct (decide (Buf.readUInt32LE now 4
                      <= Z.of_nat (length now - 8))) as [Hc|Hc].
    * rewrite decide_False by lia.
      unfold Buf.slice. rewrite Nat.sub_0_r. cbn [drop].
      replace (8 + Z.to_nat (Buf.readUInt32LE now 4) - 8)%nat
        with (Z.to_nat (Buf.readUInt32LE now 4)) by lia.
      done.
    * rewrite decide_True by lia. done.
Qed.

(** The receiver as a function of the bytes that have arrived, while the
    client holds the socket the listener is on, and once it holds none. *)
Lemma receive_feed_bytes (this_socket : option nat) (k : nat)
  (chunks : list Buffer) (r0 : Receiver) (arrived : Buffer) :
  this_socket = Some k \/ this_socket = None ->
  rc_socket r0 = Some k ->
  rc_promise r0 = None ->
  incomplete arrived ->
  ((length arrived < 8)%nat ->
   rc_header r0 = None /\ rc_buffer r0 = arrived) ->
  ((8 <= length arrived)%nat ->
   rc_header r0
   = Some (Buf.readUInt32LE arrived 0, Buf.readUInt32LE arrived 4)
   /\ rc_buffer r0 = drop 8 arrived) ->
  let all := arrived ++ concat chunks in
  let r := receive_feed this_socket chunks r0 in
  (incomplete all ->
   r.1 = Normal tt /\ rc_promise r.2 = None /\ rc_socket r.2 = Some k)
  /\ (~ incomplete all ->
      match this_socket with
      | Some _ =>
          r.1 = Normal tt
          /\ rc_socket r.2 = None
          /\ rc_promise r.2
             = Some (Resolved
                       (received_value
                          (Buf.toString
                             (Buf.slice all 8
                                (8 + Z.to_nat (Buf.readUInt32LE all 4))))))
      | None =>
          r.1 = Thrown (JS.cannot_read "removeListener" "null")
          /\ rc_socket r.2 = Some k
          /\ rc_promise r.2 = None
      end).
Proof.
  intros Hthis. revert r0 arrived.
  induction chunks as [|c chunks IH]; intros r0 arrived Hsock Hprom Hinc Hlt Hge.
  - cbn. rewrite app_nil_r. by repeat split.
  - cbn [concat receive_feed]. rewrite app_assoc.
    destruct (receive_data_bytes this_socket k c r0 arrived Hsock Hprom Hlt Hge)
      as (r1 & Hs1 & Hp1 & Hlt1 & Hge1 & Hrun).
    cbn zeta in *. set (now := arrived ++ c) in *.
    rewrite Hrun. destruct (decide (incomplete now)) as [Hi|Hi].
    + by apply IH.
    + destruct (complete_app now (concat chunks) Hi) as (Hc & _ & H4 & Hsl).
      split; [done|]. intros _.
      destruct Hthis as [-> | ->]; unfold removeListener.
      * rewrite Hs1, decide_True by done.
        rewrite receive_feed_detached by done. cbn [fst snd].
        split; [done|]. split; [done|].
        unfold rc_settle. cbn [rc_promise rc_socket].
        by rewrite Hp1, Hsl.
      * done.
Qed.

Lemma first_frame_eq (chunks : list Buffer) :
  let all := concat chunks in
  first_frame chunks
  = if decide (incomplete all) then None
    else Some (Buf.readUInt32LE all 0,
               Buf.slice all 8 (8 + Z.to_nat (Buf.readUInt32LE all 4))).
Proof.
  cbn zeta. unfold first_frame, decoded_frames. rewrite feed_concat.
  destruct (data_loop_recorded (concat chunks) [])
    as (frames & Hf & _ & _ & _ & Hnil & Hhead & _).
  cbn [app] in Hf. rewrite Hf.
  destruct (decide (incomplete (concat chunks))) as [Hi|Hi].
  - apply Hnil in Hi. by rewrite Hi.
  - destruct frames as [|f frames]; [by destruct Hi; apply Hnil|].
    cbn. f_equal. by apply Hhead.
Qed.

(** The receiver [receive()] creates, before any byte. *)
Lemma receive_feed_fresh (this_socket : option nat) (k : nat)
  (chunks : list Buffer) :
  this_socket = Some k \/ this_socket = None ->
  let r0 := mkReceiver (Some k) [] None None in
  let all := concat chunks in
  let r := receive_feed this_socket chunks r0 in
  (incomplete all ->
   r.1 = Normal tt /\ rc_promise r.2 = None /\ rc_socket r.2 = Some k)
  /\ (~ incomplete all ->
      match this_socket with
      | Some _ =>
          r.1 = Normal tt
          /\ rc_socket r.2 = None
          /\ rc_promise r.2
             = Some (Resolved
                       (received_value
                          (Buf.toString
                             (Buf.slice all 8
                                (8 + Z.to_nat (Buf.readUInt32LE all 4))))))
      | None =>
          r.1 = Thrown (JS.cannot_read "removeListener" "null")
          /\ rc_socket r.2 = Some k
          /\ rc_promise r.2 = None
      end).
Proof.
  intros Hthis r0 all r.
  apply (receive_feed_bytes this_socket k chunks r0 []); try done.
  - left. cbn. lia.
  - cbn. lia.
Qed.

(** X21: [receive()] on a connected client resolves with the payload of
    the first frame of the stream, as soon as that frame is complete
    and however the bytes are cut into chunks: its promise is settled
    exactly when the stream decoder of [setupSocketHandlers] has
    delivered a first frame for the same chunks, with the JSON value of
    that frame's payload, or with the payload text itself when it is not
    JSON; until then the promise is pending and the listener attached,
    after that the listener is removed and later bytes are ignored. *)
Theorem receive_resolves_with_first_frame (s : State) (k : nat)
  (chunks : list Buffer) :
  connected s = true ->
  socket s = Some k ->
  let r := receive_feed (Some k) chunks (receive s) in
  r.1 = Normal tt
  /\ rc_promise r.2
     = match first_frame chunks with
       | Some (_, payload) =>
           Some (Resolved (received_value (Buf.toString payload)))
       | None => None
       end
  /\ rc_socket r.2
     = match first_frame chunks with
       | Some _ => None
       | None => Some k
       end
  /\ (forall payload : Buffer,
        received_value (Buf.toString payload)
        = match JSON_parse (Buf.toString payload) with
          | Normal message => message
          | Thrown _ => VStr (Buf.toString payload)
          end).
Proof.
  intros Hc Hs r.
  assert (Hr0 : receive s = mkReceiver (Some k) [] None None).
  { unfold receive. by rewrite Hc, Hs. }
  destruct (receive_feed_fresh (Some k) k chunks (or_introl eq_refl))
    as (Hpend & Hdone).
  subst r. rewrite Hr0, first_frame_eq. cbn zeta.
  destruct (decide (incomplete (concat chunks))) as [Hi|Hi].
  - destruct (Hpend Hi) as (-> & -> & ->). done.
  - destruct (Hdone Hi) as (-> & -> & ->). done.
Qed.

(** X22: the promise of [receive()] is settled once at most, and the two
    callbacks fail when the socket is gone.  On a client that is not
    connected it is rejected at once with "Not connected to Discord" and
    no listener is attached.  Otherwise, when the timer fires first the
    promise is rejected with "Receive timeout" and later data is ignored,
    and when it fires after the frame the resolution stands.  But once
    [disconnect()] has set [this.socket] to [null], both the timer
    callback and a ['data'] event that completes the frame throw a
    [TypeError] from [this.socket.removeListener], and the promise stays
    pending. *)
Theorem receive_settles_once_or_throws (s : State) (k : nat) :
  (connected s = false \/ socket s = None ->
   receive s = mkReceiver None [] None (Some (Rejected not_connected)))
  /\ (connected s = true -> socket s = Some k ->
      let r0 := receive s in
      rc_promise r0 = None
      /\ rc_socket r0 = Some k
      /\ (let r1 := (receive_timeout (Some k) r0).2 in
          rc_promise r1 = Some (Rejected receive_timed_out)
          /\ forall chunks,
               receive_feed (Some k) chunks r1 = (Normal tt, r1))
      /\ (forall chunks,
            let r1 := (receive_feed (Some k) chunks r0).2 in
            is_Some (first_frame chunks) ->
            rc_promise (receive_timeout (Some k) r1).2 = rc_promise r1)
      /\ receive_timeout (socket (disconnect s).2) r0
         = (Thrown (JS.cannot_read "removeListener" "null"), r0)
      /\ (forall chunks,
            is_Some (first_frame chunks) ->
            let r1 := receive_feed (socket (disconnect s).2) chunks r0 in
            r1.1 = Thrown (JS.cannot_read "removeListener" "null")
            /\ rc_promise r1.2 = None)).
Proof.
  split.
  - unfold receive. intros [-> | ->]; [done|]. by destruct (connected s).
  - intros Hc Hs r0.
    assert (Hr0 : r0 = mkReceiver (Some k) [] None None).
    { subst r0. unfold receive. by rewrite Hc, Hs. }
    assert (Hgone : socket (disconnect s).2 = None) by apply disconnect_fields.
    rewrite Hgone. clearbody r0. subst r0.
    split; [done|]. split; [done|]. split; [|split; [|split]].
    + unfold receive_timeout, removeListener. cbn.
      rewrite decide_True by done. cbn. split; [done|].
      intros chunks. by apply receive_feed_detached.
    + intros chunks r1 Hff.
      destruct (receive_feed_fresh (Some k) k chunks (or_introl eq_refl))
        as (_ & Hdone).
      rewrite first_frame_eq in Hff. cbn zeta in Hff.
      destruct (decide (incomplete (concat chunks))) as [Hi|Hi];
        [by destruct Hff|].
      destruct (Hdone Hi) as (_ & Hsock & Hprom). fold r1 in Hsock, Hprom.
      unfold receive_timeout, removeListener, rc_settle.
      destruct (decide (rc_socket r1 = Some k)); cbn; by rewrite Hprom.
    + done.
    + intros chunks Hff r1.
      destruct (receive_feed_fresh None k chunks (or_intror eq_refl))
        as (_ & Hdone).
      rewrite first_frame_eq in Hff. cbn zeta in Hff.
      destruct (decide (incomplete (concat chunks))) as [Hi|Hi];
        [by destruct Hff|].
      destruct (Hdone Hi) as (H1 & _ & H2). by fold r1 in H1, H2.
Qed.

End ReceiveFacts.


(** ** Reconnection *)

(** [log] changes the console only. *)
Lemma logged_console (lines : list (Level * string)) (s : State) :
  exists c, logged lines s = set_console c s.
Proof.
  unfold logged. destruct (debug s); [by eexists|].
  exists (console s). by rewrite set_console_same.
Qed.

(** Replaces what [log] did by a console one does not look into. *)
Ltac forget_logs :=
  repeat match goal with
         | |- context [ logged ?l ?s ] =>
             let c := fresh "c" in
             destruct (logged_console l s) as [c ->]
         end.

Lemma socket_close_eq (s : State) :
  socket_close s
  = let s1 :=
      set_authenticated false
        (set_connected false (logged [(LInfo, "Socket closed")] s)) in
    let s2 :=
      match heartbeatInterval s1 with
      | Some t =>
          set_heartbeatInterval None (set_timers (delete t (timers s1)) s1)
      | None => s1
      end in
    let s3 := set_emitted (emitted s2 ++ [NDisconnect]) s2 in
    if autoReconnect s3 && (reconnectAttempts s3 <? maxReconnectAttempts s3)
    then scheduleReconnect s3
    else (Normal tt, s3).
Proof.
  cbv beta iota zeta
    delta [socket_close clearHeartbeat bind gets modify ret emit clearTimeout
           log logged].
  destruct (heartbeatInterval _) as [t|];
    (destruct (autoReconnect _ && _); reflexivity).
Qed.

Lemma scheduleReconnect_eq (s : State) :
  exists lines,
    scheduleReconnect s
    = let s1 :=
        logged lines (set_reconnectAttempts (reconnectAttempts s + 1) s) in
      (Normal tt,
       set_nextTimer (S (nextTimer s1))
         (set_timers
            (<[nextTimer s1 :=
                 TReconnect
                   (Z.min (reconnectDelay s * 2 ^ (reconnectAttempts s + 1 - 1))
                          30000)]> (timers s1)) s1)).
Proof. eexists. reflexivity. Qed.

Section ReconnectFacts.

Variable JSON_stringify : value -> option string.
Variable JSON_parse : string -> completion value.
Variable Date_toString : Z -> string.
Variable pid : Z.

Local Abbreviation send := (send JSON_stringify).
Local Abbreviation sendCommand := (sendCommand JSON_stringify).
Local Abbreviation handshake := (handshake JSON_stringify).
Local Abbreviation setActivity_begin := (setActivity_begin JSON_stringify pid).
Local Abbreviation reconnect_activity :=
  (reconnect_activity JSON_stringify pid).
Local Abbreviation reconnect_attempt :=
  (reconnect_attempt JSON_stringify pid).
Local Abbreviation fire_reconnect := (fire_reconnect JSON_stringify pid).

(** The fields a block can leave alone while it sends on a live
    connection. *)
Lemma send_live (s : State) (opcode : Z) (data : value) :
  connected s = true ->
  let r := send opcode data s in
  messageQueue r.2 = messageQueue s
  /\ transport r.2 = transport s
  /\ session r.2 = session s
  /\ correlator r.2 = correlator s
  /\ heap r.2 = heap s.
Proof.
  intros Hc r. subst r.
  destruct (send_views JSON_stringify s opcode data) as (H1 & H2 & H3).
  split; [apply send_queue_unchanged; by left|].
  repeat split; try done. apply send_heap.
Qed.

Lemma sendCommand_live (s : State) (cmd : string) (args : value)
  (timeout : Z) (nonce : string) :
  connected s = true ->
  let r := sendCommand cmd args timeout nonce s in
  messageQueue r.2 = messageQueue s
  /\ transport r.2 = transport s
  /\ session r.2 = session s
  /\ heap r.2 = heap s.
Proof.
  intros Hc r. subst r.
  destruct (sendCommand_views JSON_stringify s cmd args timeout nonce)
    as (_ & H2 & H3 & H4).
  split; [|done].
  unfold sendCommand, setTimeout, settle.
  unfold try_catch, bind, modify, gets, ret. cbn.
  match goal with
  | |- context [ send ?o ?d ?s0 ] =>
      pose proof (send_live s0 o d Hc) as (Hq & _);
      destruct (send o d s0) as [[[]|e] s1]
  end; cbn in *; [done|].
  by destruct (promises s1 !! nextPromise s).
Qed.

Lemma handshake_live (s : State) :
  connected s = true ->
  let r := handshake s in
  messageQueue r.2 = messageQueue s
  /\ transport r.2 = transport s
  /\ session r.2 = session s
  /\ heap r.2 = heap s.
Proof.
  intros Hc r. subst r. rewrite handshake_eq.
  destruct (JS.truthy (clientId_value s)); [|done].
  destruct (send_live s 0 (handshake_message s) Hc) as (Hq & Ht & Hs & _ & Hh).
  destruct (send 0 (handshake_message s) s) as [[[]|e] s1];
    cbn [fst snd] in *; [|done].
  destruct (startHeartbeat_fields s1)
    as (_ & _ & _ & _ & _ & _ & _ & _ & _ & H10 & H11 & H12 & H13).
  rewrite H10, H11, H12, H13. done.
Qed.

Lemma setActivity_begin_live (s : State) (activity : Activity)
  (nonce : string) :
  connected s = true ->
  let r := setActivity_begin activity nonce s in
  messageQueue r.2 = messageQueue s
  /\ transport r.2 = transport s
  /\ session r.2 = session s.
Proof.
  intros Hc r. subst r. unfold setActivity_begin. rewrite bind_eq.
  destruct (processActivity_fields s activity)
    as (Ht & _ & Hs & Hq & _).
  destruct (processActivity activity s) as [[p|e] s0]; cbn [fst snd] in *;
    [|done].
  rewrite bind_eq. cbn [gets]. rewrite bind_eq.
  assert (Hc0 : connected s0 = true).
  { unfold transport in Ht. congruence. }
  match goal with
  | |- context [ sendCommand ?c ?a ?t ?n s0 ] =>
      destruct (sendCommand_live s0 c a t n Hc0) as (Hq' & Ht' & Hs' & _);
      destruct (sendCommand_views JSON_stringify s0 c a t n) as (Hp & _);
      destruct (sendCommand c a t n s0) as [[q|e] s1]
  end; cbn [fst snd ret] in *; [|done].
  repeat split; congruence.
Qed.

Lemma reconnect_failed_fields (e : Error) (s : State) :
  reconnect_failed e s
  = (Normal AwaitNothing,
     logged [(LError, "Reconnect attempt failed: " +:+ err_message e)] s).
Proof. reflexivity. Qed.

Lemma logged_fields (lines : list (Level * string)) (s : State) :
  let s' := logged lines s in
  messageQueue s' = messageQueue s
  /\ transport s' = transport s
  /\ session s' = session s
  /\ correlator s' = correlator s
  /\ written s' = written s
  /\ heap s' = heap s.
Proof.
  unfold logged, transport, session, correlator.
  destruct (debug s) eqn:Hd; cbn; rewrite ?Hd; done.
Qed.

(** The callback of the reconnect timer on a client that is disconnected
    and unauthenticated, when one of the paths accepts. *)
Lemma reconnect_unauthenticated (s : State) (t : nat) (delay : Z)
  (tryConnect : string -> Attempt) (before after : list string)
  (path : string) (sock : nat) (nonce : string) :
  timers s !! t = Some (TReconnect delay) ->
  connected s = false ->
  authenticated s = false ->
  Forall (refuses tryConnect) before ->
  tryConnect path = Accepted sock ->
  let r := fire_reconnect t tryConnect (before ++ path :: after) nonce s in
  (forall p, r.1 <> Normal (AwaitAuthenticate p))
  /\ (exists a, r.1 = Normal a)
  /\ authenticated r.2 = false
  /\ messageQueue r.2 = messageQueue s
  /\ emitted r.2 = emitted s ++ [NConnect]
  /\ connected r.2 = true
  /\ socket r.2 = Some sock
  /\ reconnectAttempts r.2 = 0.
Proof.
  intros Ht Hc Ha Hall Hp r.
  cut (exists a sf,
         r = (Normal a, sf)
         /\ (forall p, a <> AwaitAuthenticate p)
         /\ authenticated sf = false
         /\ messageQueue sf = messageQueue s
         /\ emitted sf = emitted s ++ [NConnect]
         /\ connected sf = true
         /\ socket sf = Some sock
         /\ reconnectAttempts sf = 0).
  { intros (a & sf & -> & Hna & H). cbn [fst snd].
    split; [intros p [= ->]; by apply (Hna p)|]. split; [by eexists|]. done. }
  subst r.
  unfold fire_reconnect. rewrite bind_eq. cbn [gets]. rewrite Ht, bind_eq.
  unfold clearTimeout at 1. cbn [modify].
  set (s0 := set_timers (delete t (timers s)) s).
  unfold reconnect_attempt, try_catch. rewrite bind_eq.
  destruct (connect_accepted tryConnect s0 before after path
              sock Hc Hall Hp)
    as (C1 & C2 & C3 & C4 & C5 & _ & C7 & _ & C9 & _).
  destruct (connect tryConnect (before ++ path :: after) s0) as [c1 s1].
  cbn [fst snd] in *. subst c1. subst s0. cbn in C5, C7, C9.
  (* what every later block keeps of the state [connect] has left *)
  assert (Hkeep : forall s' : State,
             messageQueue s' = messageQueue s1 ->
             transport s' = transport s1 ->
             session s' = session s1 ->
             authenticated s' = false
             /\ messageQueue s' = messageQueue s
             /\ emitted s' = emitted s ++ [NConnect]
             /\ connected s' = true
             /\ socket s' = Some sock
             /\ reconnectAttempts s' = 0).
  { intros s' Hq Htr Hse. unfold transport, session in *.
    repeat split; congruence. }
  assert (Hlog : forall (s' : State) lines,
             messageQueue s' = messageQueue s1 ->
             transport s' = transport s1 ->
             session s' = session s1 ->
             messageQueue (logged lines s') = messageQueue s1
             /\ transport (logged lines s') = transport s1
             /\ session (logged lines s') = session s1).
  { intros s' lines Hq Htr Hse.
    destruct (logged_fields lines s') as (-> & -> & -> & _). done. }
  rewrite bind_eq.
  destruct (handshake_live s1 C2) as (H1 & H2 & H3 & _).
  destruct (handshake s1) as [[[]|e2] s2]; cbn [fst snd] in *.
  2: { rewrite reconnect_failed_fields. eexists _, _.
       split; [reflexivity|]. split; [done|].
       apply Hkeep; by apply Hlog. }
  rewrite bind_eq. cbn [gets].
  assert (Ha2 : authenticated s2 = false).
  { unfold session in H3. congruence. }
  rewrite Ha2. unfold reconnect_activity. rewrite bind_eq. cbn [gets].
  destruct (currentActivity s2) as [activity|].
  2: { cbn. eexists _, _. split; [reflexivity|]. split; [done|].
       by apply Hkeep. }
  rewrite bind_eq.
  assert (Hc2 : connected s2 = true).
  { unfold transport in H2. congruence. }
  destruct (setActivity_begin_live s2 activity nonce Hc2)
    as (A1 & A2 & A3).
  destruct (setActivity_begin activity nonce s2) as [[[p processed]|e3] s3];
    cbn [fst snd ret] in *.
  - eexists _, _. split; [reflexivity|]. split; [done|].
    apply Hkeep; congruence.
  - rewrite reconnect_failed_fields. eexists _, _.
    split; [reflexivity|]. split; [done|].
    apply Hkeep; apply Hlog; congruence.
Qed.

(** X23: when the reconnect timer fires and every path refuses, the
    callback logs the failure and ends: the client stays disconnected, no
    notification is emitted, the attempt counter keeps its value and no
    new timer is armed, so that no further attempt follows this one. *)
Theorem failed_reconnect_is_not_retried (s : State) (t : nat) (delay : Z)
  (tryConnect : string -> Attempt) (paths : list string) (nonce : string) :
  timers s !! t = Some (TReconnect delay) ->
  connected s = false ->
  Forall (refuses tryConnect) paths ->
  let r := fire_reconnect t tryConnect paths nonce s in
  let failure := could_not_connect (last_refusal tryConnect paths) in
  r.1 = Normal AwaitNothing
  /\ timers r.2 = delete t (timers s)
  /\ nextTimer r.2 = nextTimer s
  /\ reconnectAttempts r.2 = reconnectAttempts s
  /\ connected r.2 = false
  /\ socket r.2 = socket s
  /\ emitted r.2 = emitted s
  /\ messageQueue r.2 = messageQueue s
  /\ written r.2 = written s
  /\ pendingResponses r.2 = pendingResponses s
  /\ console r.2
     = console s
       ++ (if debug s
           then refusal_lines tryConnect paths
                ++ [(LError,
                     "Reconnect attempt failed: " +:+ err_message failure)]
           else []).
Proof.
  intros Ht Hc Hall r failure.
  assert (Hr : r = (Normal AwaitNothing,
                    logged (refusal_lines tryConnect paths
                            ++ [(LError, "Reconnect attempt failed: "
                                         +:+ err_message failure)])
                           (set_timers (delete t (timers s)) s))).
  { subst r failure.
    unfold fire_reconnect. rewrite bind_eq. cbn [gets]. rewrite Ht, bind_eq.
    unfold clearTimeout at 1. cbn [modify].
    set (s0 := set_timers (delete t (timers s)) s).
    unfold reconnect_attempt, try_catch. rewrite bind_eq.
    rewrite (connect_refused tryConnect s0 paths Hc Hall).
    by rewrite reconnect_failed_fields, logged_logged. }
  rewrite Hr. unfold logged. cbn.
  destruct (debug s); cbn; rewrite ?app_nil_r; done.
Qed.

(** The ['close'] listener on a client that reconnects and has attempts
    left. *)
Lemma socket_close_schedules (s : State) :
  autoReconnect s = true ->
  reconnectAttempts s < maxReconnectAttempts s ->
  let s' := (socket_close s).2 in
  (socket_close s).1 = Normal tt
  /\ connected s' = false
  /\ authenticated s' = false
  /\ timers s' !! nextTimer s
     = Some (TReconnect
               (Z.min (reconnectDelay s * 2 ^ reconnectAttempts s) 30000))
  /\ reconnectAttempts s' = reconnectAttempts s + 1
  /\ messageQueue s' = messageQueue s
  /\ emitted s' = emitted s ++ [NDisconnect]
  /\ heartbeatInterval s' = None.
Proof.
  intros Ha Hlt.
  assert (Hb : (reconnectAttempts s <? maxReconnectAttempts s) = true)
    by (by apply Z.ltb_lt).
  rewrite socket_close_eq. cbn zeta. forget_logs.
  destruct (heartbeatInterval s) as [t|] eqn:Hh;
    cbn -[Z.ltb scheduleReconnect]; rewrite Hh;
    cbn -[Z.ltb scheduleReconnect]; rewrite Ha, Hb; cbn [andb];
    match goal with
    | |- context [ scheduleReconnect ?s0 ] =>
        destruct (scheduleReconnect_eq s0) as [lines ->]
    end; cbn zeta; forget_logs; cbn -[Z.pow Z.min Z.add Z.sub Z.mul];
    rewrite lookup_insert_eq;
    replace (reconnectAttempts s + 1 - 1) with (reconnectAttempts s) by lia;
    done.
Qed.

(** The ['close'] listener on a client that does not reconnect and has no
    heartbeat. *)
Lemma socket_close_final (s : State) :
  autoReconnect s = false ->
  heartbeatInterval s = None ->
  let s' := (socket_close s).2 in
  (socket_close s).1 = Normal tt
  /\ emitted s' = emitted s ++ [NDisconnect]
  /\ timers s' = timers s
  /\ nextTimer s' = nextTimer s
  /\ reconnectAttempts s' = reconnectAttempts s
  /\ connected s' = false.
Proof.
  intros Ha Hh. rewrite socket_close_eq. cbn zeta. forget_logs.
  cbn -[Z.ltb scheduleReconnect]. rewrite Hh.
  cbn -[Z.ltb scheduleReconnect]. rewrite Ha. done.
Qed.

(** A command on a client that is neither connected nor reconnecting is
    rejected by the exception of [send]. *)
Lemma sendCommand_offline (s : State) (cmd : string) (args : value)
  (timeout : Z) (nonce : string) :
  connected s = false ->
  autoReconnect s = false ->
  let r := sendCommand cmd args timeout nonce s in
  written r.2 = written s
  /\ messageQueue r.2 = messageQueue s
  /\ settleCalls r.2
     = settleCalls s ++ [(nextPromise s, Rejected not_connected)]
  /\ (promises s !! nextPromise s = None ->
      promises r.2 !! nextPromise s = Some (Rejected not_connected)).
Proof.
  intros Hc Ha r. subst r.
  unfold sendCommand, setTimeout, settle.
  unfold try_catch, bind, modify, gets, ret. cbn.
  match goal with
  | |- context [ send ?o ?d ?s0 ] =>
      assert (Hs0 : send o d s0 = (Thrown not_connected, s0))
        by (by apply send_not_connected)
  end.
  rewrite Hs0. cbn.
  destruct (promises s !! nextPromise s) eqn:E; cbn;
    (split; [done|]); (split; [done|]); (split; [done|]); [done|].
  intros _. apply lookup_insert_eq.
Qed.

Lemma disconnect_attempts (s : State) :
  reconnectAttempts (disconnect s).2 = reconnectAttempts s.
Proof.
  unfold disconnect, clearHeartbeat, clearTimeout, emit, log.
  unfold bind, modify, gets, ret.
  repeat (case_match; cbn in *; simplify_eq; try done).
Qed.


(** *** After [disconnect()] *)

Local Abbreviation processQueue := (processQueue JSON_stringify).


End ReconnectFacts.


(** ** The activity builder *)

Lemma lookup_remove_field_ne (k k' : string) (fields : list (string * value)) :
  k <> k' ->
  JS.lookup_field k' (remove_field k fields) = JS.lookup_field k' fields.
Proof.
  intros Hne. unfold remove_field.
  induction fields as [|[k0 v0] fields IH]; [done|].
  cbn. destruct (String.eqb k k0) eqn:E; cbn.
  - apply String.eqb_eq in E. subst k0.
    destruct (String.eqb k' k) eqn:E'; [|apply IH].
    apply String.eqb_eq in E'. congruence.
  - destruct (String.eqb k' k0); [done | apply IH].
Qed.

Lemma bad_asset_assign (k text : string) (fields : list (string * value)) :
  bad_asset fields = None ->
  bad_asset (JS.assign_field k (VStr text) fields) = None.
Proof.
  induction fields as [|[k0 v0] fields IH]; cbn.
  - by rewrite andb_false_r.
  - destruct (JS.truthy v0 && _) eqn:E; [done|]. intros H.
    destruct (String.eqb k k0); cbn.
    + by rewrite andb_false_r.
    + rewrite E. by apply IH.
Qed.

Lemma bad_asset_set_if (k : string) (v : value)
  (fields : list (string * value)) :
  ActivityBuilder.text_like v ->
  bad_asset fields = None ->
  bad_asset (ActivityBuilder.set_if k v fields) = None.
Proof.
  intros Hv H. unfold ActivityBuilder.set_if.
  destruct v; try done; cbn.
  destruct (negb _); [by apply bad_asset_assign | done].
Qed.

Lemma stamp_like_set_if (k k' : string) (v : value)
  (fields : list (string * value)) :
  ActivityBuilder.stamp_like v ->
  ActivityBuilder.stamp_like (JS.lookup_field k' fields) ->
  ActivityBuilder.stamp_like
    (JS.lookup_field k' (ActivityBuilder.set_if k v fields)).
Proof.
  intros Hv H. unfold ActivityBuilder.set_if.
  destruct (JS.truthy v); [|done].
  destruct (String.eqb k k') eqn:E.
  - apply String.eqb_eq in E. subst k'. by rewrite lookup_assign_field_eq.
  - apply String.eqb_neq in E. by rewrite lookup_assign_field_ne.
Qed.

(** The buttons of a builder after one more call. *)
Lemma call_buttons (c : ActivityBuilder.Call) (b : ActivityBuilder.Builder) :
  match c with
  | ActivityBuilder.AddButton _ _ => True
  | _ =>
      JS.lookup_field "buttons" (ActivityBuilder.call c b).2
      = JS.lookup_field "buttons" b
  end.
Proof.
  destruct c; cbn; try done;
    unfold ActivityBuilder.setName, ActivityBuilder.setType,
      ActivityBuilder.setDetails, ActivityBuilder.setState,
      ActivityBuilder.setTimestamps, ActivityBuilder.setAssets,
      ActivityBuilder.setParty, ActivityBuilder.setStreamingUrl;
    rewrite ?lookup_assign_field_ne; done.
Qed.

Lemma addButton_cases (label url : value) (b : ActivityBuilder.Builder) :
  let r := ActivityBuilder.addButton label url b in
  let button := VObj [("label", label); ("url", url)] in
  (JS.lookup_field "buttons" b = VUndefined ->
   r.1 = Normal tt
   /\ JS.lookup_field "buttons" r.2 = VArr [button]
   /\ forall k, k <> "buttons" ->
        JS.lookup_field k r.2 = JS.lookup_field k b)
  /\ (forall elems,
        JS.lookup_field "buttons" b = VArr elems ->
        if decide (2 <= length elems)%nat
        then r = (Thrown ActivityBuilder.too_many_buttons, b)
        else r.1 = Normal tt
             /\ JS.lookup_field "buttons" r.2 = VArr (elems ++ [button])
             /\ forall k, k <> "buttons" ->
                  JS.lookup_field k r.2 = JS.lookup_field k b).
Proof.
  cbn zeta. unfold ActivityBuilder.addButton. split.
  - intros H. rewrite H. cbn. rewrite lookup_assign_field_eq. cbn.
    change (2 <=? Z.of_nat 0) with false. cbn.
    rewrite lookup_assign_field_eq. split; [done|]. split; [done|].
    intros k Hk. by rewrite !lookup_assign_field_ne.
  - intros elems H. rewrite H. cbn [JS.truthy]. cbv zeta. rewrite H.
    unfold ActivityBuilder.at_least_two.
    destruct (decide (2 <= length elems)%nat) as [Hl|Hl].
    + by replace (2 <=? Z.of_nat (length elems)) with true by lia.
    + replace (2 <=? Z.of_nat (length elems)) with false by lia.
      cbn. rewrite lookup_assign_field_eq. split; [done|]. split; [done|].
      intros k Hk. by rewrite lookup_assign_field_ne.
Qed.

Lemma addButton_others (label url : value) (b : ActivityBuilder.Builder)
  (k : string) :
  k <> "buttons" ->
  JS.lookup_field k (ActivityBuilder.addButton label url b).2
  = JS.lookup_field k b.
Proof.
  intros Hk. unfold ActivityBuilder.addButton. cbv zeta.
  repeat case_match; cbn [snd]; rewrite ?lookup_assign_field_ne; done.
Qed.

Lemma after_snoc (calls : list ActivityBuilder.Call)
  (c : ActivityBuilder.Call) :
  ActivityBuilder.after (calls ++ [c])
  = (ActivityBuilder.call c (ActivityBuilder.after calls)).2.
Proof. unfold ActivityBuilder.after. by rewrite fold_left_app. Qed.

Lemma buttons_added_snoc (calls : list ActivityBuilder.Call)
  (c : ActivityBuilder.Call) :
  buttons_added (calls ++ [c])
  = buttons_added calls
    ++ match c with
       | ActivityBuilder.AddButton label url =>
           [VObj [("label", label); ("url", url)]]
       | _ => []
       end.
Proof.
  unfold buttons_added. rewrite omap_app. f_equal. by destruct c.
Qed.

(** The builder holds the first two buttons that were added. *)
Lemma after_buttons (calls : list ActivityBuilder.Call) :
  JS.lookup_field "buttons" (ActivityBuilder.after calls)
  = match buttons_added calls with
    | [] => VUndefined
    | added => VArr (take 2 added)
    end.
Proof.
  induction calls as [|c calls IH] using rev_ind; [done|].
  rewrite after_snoc, buttons_added_snoc.
  pose proof (call_buttons c (ActivityBuilder.after calls)) as Hc.
  destruct c; try (rewrite Hc, app_nil_r; exact IH). clear Hc.
  cbn [ActivityBuilder.call].
  destruct (addButton_cases label url (ActivityBuilder.after calls))
    as [Hnone Hsome].
  destruct (buttons_added calls) as [|x added] eqn:E.
  - destruct (Hnone IH) as (_ & -> & _). done.
  - specialize (Hsome _ IH).
    destruct (decide (2 <= length (take 2 (x :: added)))%nat) as [Hl|Hl].
    + rewrite Hsome. cbn [snd]. rewrite IH.
      rewrite length_take in Hl.
      rewrite <- app_comm_cons. cbv iota.
      rewrite app_comm_cons, take_app_le by lia. done.
    + destruct Hsome as (_ & -> & _).
      rewrite length_take in Hl.
      rewrite (take_ge (x :: added)) by lia.
      rewrite <- app_comm_cons. cbv iota.
      rewrite take_ge by (cbn [length] in *; rewrite length_app; cbn; lia).
      done.
Qed.

(** X26: an [ActivityBuilder] holds the first two buttons that were added
    to it, in the order of the calls, whatever else was called in between
    and whether or not the exceptions of refused calls were caught.  The
    [buttons] property is absent until the first [addButton]; from the
    third on, [addButton] throws "Maximum 2 buttons allowed" and leaves the
    builder as it is, and it never fails in another way. *)
Theorem builder_keeps_first_two_buttons (calls : list ActivityBuilder.Call)
  (label url : value) :
  let b := ActivityBuilder.after calls in
  let added := buttons_added calls in
  let r := ActivityBuilder.addButton label url b in
  JS.lookup_field "buttons" (ActivityBuilder.build b)
  = match added with
    | [] => VUndefined
    | _ => VArr (take 2 added)
    end
  /\ (if decide (2 <= length added)%nat
      then r = (Thrown ActivityBuilder.too_many_buttons, b)
      else r.1 = Normal tt
           /\ JS.lookup_field "buttons" r.2
              = VArr (added ++ [VObj [("label", label); ("url", url)]])).
Proof.
  intros b added r. pose proof (after_buttons calls) as Hb.
  fold b added in Hb. clearbody added. split; [by destruct added|].
  destruct (addButton_cases label url b) as [Hnone Hsome]. fold r in Hnone, Hsome.
  destruct added as [|x added].
  - rewrite decide_False by (cbn; lia). destruct (Hnone Hb) as (? & ? & _).
    done.
  - specialize (Hsome _ Hb). rewrite length_take in Hsome.
    destruct (decide (2 <= length (x :: added))%nat) as [Hl|Hl].
    + by rewrite decide_True in Hsome by lia.
    + rewrite decide_False in Hsome by lia.
      rewrite take_ge in Hsome by lia. destruct Hsome as (? & ? & _). done.
Qed.

(** The other two properties [processActivity] looks into. *)
Lemma call_assets (c : ActivityBuilder.Call) (b : ActivityBuilder.Builder) :
  match c with
  | ActivityBuilder.SetAssets _ _ _ _ => True
  | _ =>
      JS.lookup_field "assets" (ActivityBuilder.call c b).2
      = JS.lookup_field "assets" b
  end.
Proof.
  destruct c; cbn [ActivityBuilder.call snd]; try done;
    try apply addButton_others; try done;
    unfold ActivityBuilder.setName, ActivityBuilder.setType,
      ActivityBuilder.setDetails, ActivityBuilder.setState,
      ActivityBuilder.setTimestamps, ActivityBuilder.setAssets,
      ActivityBuilder.setParty, ActivityBuilder.setStreamingUrl;
    rewrite ?lookup_assign_field_ne; done.
Qed.

Lemma call_timestamps (c : ActivityBuilder.Call)
  (b : ActivityBuilder.Builder) :
  match c with
  | ActivityBuilder.SetTimestamps _ _ => True
  | _ =>
      JS.lookup_field "timestamps" (ActivityBuilder.call c b).2
      = JS.lookup_field "timestamps" b
  end.
Proof.
  destruct c; cbn [ActivityBuilder.call snd]; try done;
    try apply addButton_others; try done;
    unfold ActivityBuilder.setName, ActivityBuilder.setType,
      ActivityBuilder.setDetails, ActivityBuilder.setState,
      ActivityBuilder.setTimestamps, ActivityBuilder.setAssets,
      ActivityBuilder.setParty, ActivityBuilder.setStreamingUrl;
    rewrite ?lookup_assign_field_ne; done.
Qed.

Lemma after_well_built (calls : list ActivityBuilder.Call) :
  Forall ActivityBuilder.typed calls ->
  well_built (ActivityBuilder.after calls).
Proof.
  intros Hall. split; [|split].
  - rewrite after_buttons. destruct (buttons_added calls) as [|x added];
      [by left|]. right. eexists. split; [done|]. rewrite length_take. lia.
  - induction calls as [|c calls IH] using rev_ind; [by left|].
    apply Forall_app in Hall as [Hall Hc]. apply Forall_inv in Hc.
    specialize (IH Hall). rewrite after_snoc.
    pose proof (call_assets c (ActivityBuilder.after calls)) as Hk.
    destruct c; try (rewrite Hk; exact IH). clear Hk.
    right. cbn [ActivityBuilder.call snd]. unfold ActivityBuilder.setAssets.
    rewrite lookup_assign_field_eq. eexists. split; [done|].
    cbn in Hc. destruct Hc as (H1 & H2 & H3 & H4).
    by repeat apply bad_asset_set_if.
  - induction calls as [|c calls IH] using rev_ind; [by left|].
    apply Forall_app in Hall as [Hall Hc]. apply Forall_inv in Hc.
    specialize (IH Hall). rewrite after_snoc.
    pose proof (call_timestamps c (ActivityBuilder.after calls)) as Hk.
    destruct c; try (rewrite Hk; exact IH). clear Hk.
    right. cbn [ActivityBuilder.call snd].
    unfold ActivityBuilder.setTimestamps.
    rewrite lookup_assign_field_eq. eexists. split; [done|].
    cbn in Hc. destruct Hc as (H1 & H2).
    split; by repeat apply stamp_like_set_if.
Qed.

Lemma convert_stamp_like (k : string) (stamps : list (string * value)) :
  ActivityBuilder.stamp_like (JS.lookup_field k stamps) ->
  exists stamps',
    convert_stamp k stamps = Normal stamps'
    /\ forall k', k <> k' ->
         JS.lookup_field k' stamps' = JS.lookup_field k' stamps.
Proof.
  intros H. unfold convert_stamp, needs_conversion.
  destruct (JS.lookup_field k stamps); try done; cbn;
    rewrite ?andb_false_r; eauto.
  eexists. split; [done|]. intros k' Hk. by apply lookup_assign_field_ne.
Qed.

(** [processActivity] returns on what a well-built object is handed over
    as. *)
Lemma well_built_accepted (built : list (string * value)) (l : nat)
  (s : State) :
  well_built built ->
  exists processed,
    (processActivity (hand_over l built s).1 (hand_over l built s).2).1
    = Normal processed.
Proof.
  intros (Hb & Ha & Ht). rewrite processActivity_eq. cbn zeta.
  assert (Hcheck : forall (fields : list (string * value)) stamps (s1 : State),
    JS.lookup_field "buttons" fields = JS.lookup_field "buttons" built ->
    JS.lookup_field "assets" fields = JS.lookup_field "assets" built ->
    exists processed,
      (if JS.truthy (JS.lookup_field "buttons" fields)
          && more_than_two (JS.lookup_field "buttons" fields)
       then (Thrown (mkError KError "Maximum 2 buttons allowed"), s1)
       else
         if JS.truthy (JS.lookup_field "assets" fields) then
           match bad_asset (asset_entries (JS.lookup_field "assets" fields))
           with
           | Some key =>
               (Thrown (mkError KError
                          ("Asset " +:+ key +:+ " must be a string")), s1)
           | None => (Normal (mkActivity fields stamps), s1)
           end
         else (Normal (mkActivity fields stamps), s1)).1
      = Normal processed).
  { intros fields stamps s1 -> ->.
    assert (JS.truthy (JS.lookup_field "buttons" built)
            && more_than_two (JS.lookup_field "buttons" built) = false) as ->.
    { destruct Hb as [-> | (elems & -> & Hl)]; [done|]. cbn. lia. }
    destruct Ha as [-> | (fields' & -> & Hbad)]; cbn; [by eexists|].
    rewrite Hbad. by eexists. }
  unfold hand_over.
  destruct Ht as [Hu | (stamps & Hs & H1 & H2)].
  - rewrite Hu. cbn [fst snd act_stamps act_fields].
    set (base := if JS.truthy (JS.lookup_field "application_id" built)
                 then built
                 else JS.assign_field "application_id" (clientId_value s)
                        built).
    assert (Hbase : forall k, k <> "application_id" ->
              JS.lookup_field k base = JS.lookup_field k built).
    { intros k Hk. subst base. case_match; [done|].
      by apply lookup_assign_field_ne. }
    unfold convert_owned. rewrite (Hbase "timestamps"), Hu by done.
    apply Hcheck; by apply Hbase.
  - rewrite Hs. cbn [fst snd act_stamps act_fields].
    rewrite convert_shared_eq. cbn [heap set_heap]. 
    replace (heap (set_heap (<[l:=stamps]> (heap s)) s))
      with (<[l:=stamps]> (heap s)) by (by destruct s).
    rewrite lookup_insert_eq.
    destruct (convert_stamp_like "start" stamps H1) as (st1 & -> & Hk1).
    rewrite <- (Hk1 "end") in H2 by done.
    destruct (convert_stamp_like "end" st1 H2) as (st2 & -> & Hk2).
    apply Hcheck.
    + case_match; rewrite ?lookup_assign_field_ne by done;
        by apply lookup_remove_field_ne.
    + case_match; rewrite ?lookup_assign_field_ne by done;
        by apply lookup_remove_field_ne.
Qed.

(** X27: what an [ActivityBuilder] builds is accepted by the client.  For
    every sequence of calls on a builder whose arguments have the types of
    the declarations (numbers or dates for [setTimestamps], strings for
    [setAssets]; any argument may be left out), [processActivity] returns
    on the built activity: neither the conversion of the timestamps nor
    the checks of the buttons and the assets throw, so that
    [setActivity(builder.build())] issues its command. *)
Theorem built_activity_is_accepted (calls : list ActivityBuilder.Call)
  (l : nat) (s : State) :
  Forall ActivityBuilder.typed calls ->
  let built := ActivityBuilder.build (ActivityBuilder.after calls) in
  let given := hand_over l built s in
  exists processed, (processActivity given.1 given.2).1 = Normal processed.
Proof.
  intros Hall built given. apply well_built_accepted.
  by apply after_well_built.
Qed.


(** ** Invariants of the client over all its blocks *)

Lemma sound_frame (s s' : State) :
  sound s ->
  correlator s' = correlator s ->
  transport s' = transport s ->
  reconnectAttempts s' = reconnectAttempts s ->
  maxReconnectAttempts s' = maxReconnectAttempts s ->
  (autoReconnect s = false -> messageQueue s' = messageQueue s) ->
  sound s'.
Proof.
  intros [Hwf [S1 S2 S3]] Hk Ht Ha Hm Hq. split; [by eapply wf_ext|].
  unfold transport in Ht.
  assert (connected s' = connected s) as Hc by congruence.
  assert (autoReconnect s' = autoReconnect s) as Har by congruence.
  assert (socket s' = socket s) as Hs by congruence.
  constructor; rewrite ?Hc, ?Har, ?Hs, ?Ha, ?Hm; try done.
  intros H. rewrite Hq; auto.
Qed.

Lemma sound_views (s s' : State) :
  sound s ->
  correlator s' = correlator s ->
  transport s' = transport s ->
  session s' = session s ->
  (autoReconnect s = false -> messageQueue s' = messageQueue s) ->
  sound s'.
Proof.
  intros H Hk Ht Hs Hq. unfold session in Hs.
  eapply sound_frame; eauto; congruence.
Qed.

Section Keeps.

Context {A B : Type} (P : State -> Prop).

Lemma keeps_ret (a : A) : keeps P (ret a).
Proof. by intros s. Qed.

Lemma keeps_throw (e : Error) : keeps P (throw (A := A) e).
Proof. by intros s. Qed.

Lemma keeps_lift (c : completion A) : keeps P (lift c).
Proof. by intros s. Qed.

Lemma keeps_gets (f : State -> A) : keeps P (gets f).
Proof. by intros s. Qed.

Lemma keeps_bind (m : M A) (k : A -> M B) :
  keeps P m -> (forall a, keeps P (k a)) -> keeps P (bind m k).
Proof.
  intros Hm Hk s H. unfold bind. specialize (Hm s H).
  destruct (m s) as [[a|e] s1]; [by apply Hk | done].
Qed.

Lemma keeps_try_catch (m : M A) (handler : Error -> M A) :
  keeps P m -> (forall e, keeps P (handler e)) -> keeps P (try_catch m handler).
Proof.
  intros Hm Hh s H. unfold try_catch. specialize (Hm s H).
  destruct (m s) as [[a|e] s1]; [done | by apply Hh].
Qed.

End Keeps.

Lemma keeps_log (text : string) (level : Level) : keeps sound (log text level).
Proof.
  intros s H. destruct (log_views s text level) as (_ & Ht & Hk & Hs & Hq & _).
  by eapply sound_views.
Qed.

Lemma keeps_emit (n : Notification) : keeps sound (emit n).
Proof.
  intros s H. eapply sound_frame; [done|..];
    unfold emit, correlator, transport; repeat case_match; done.
Qed.

Lemma steady_frame (s s' : State) :
  steady s ->
  transport s' = transport s ->
  reconnectAttempts s' = reconnectAttempts s ->
  maxReconnectAttempts s' = maxReconnectAttempts s ->
  (autoReconnect s = false -> messageQueue s' = messageQueue s) ->
  steady s'.
Proof.
  intros [S1 S2 S3] Ht Ha Hm Hq. unfold transport in Ht.
  assert (connected s' = connected s) as Hc by congruence.
  assert (autoReconnect s' = autoReconnect s) as Har by congruence.
  assert (socket s' = socket s) as Hs by congruence.
  constructor; rewrite ?Hc, ?Har, ?Hs, ?Ha, ?Hm; try done.
  intros H. rewrite Hq; auto.
Qed.

Section BlockInvariants.

Variable JSON_stringify : value -> option string.
Variable JSON_parse : string -> completion value.
Variable Date_toString : Z -> string.
Variable pid : Z.

Local Abbreviation send := (send JSON_stringify).
Local Abbreviation sendCommand := (sendCommand JSON_stringify).
Local Abbreviation handleMessage :=
  (handleMessage JSON_stringify JSON_parse Date_toString).
Local Abbreviation processQueue := (processQueue JSON_stringify).
Local Abbreviation step := (step JSON_stringify JSON_parse Date_toString).
Local Abbreviation handshake := (handshake JSON_stringify).
Local Abbreviation perform :=
  (perform JSON_stringify JSON_parse Date_toString pid).
Local Abbreviation perform_all :=
  (perform_all JSON_stringify JSON_parse Date_toString pid).
Local Abbreviation reached :=
  (reached JSON_stringify JSON_parse Date_toString pid).

Lemma keeps_send (opcode : Z) (data : value) : keeps sound (send opcode data).
Proof.
  intros s H.
  destruct (send_views JSON_stringify s opcode data) as (Ht & Hk & Hs).
  eapply sound_views; eauto.
  intros Ha. apply send_queue_unchanged. by right.
Qed.

Lemma sendCommand_queue_kept (s : State) (cmd : string) (args : value)
  (timeout : Z) (nonce : string) :
  connected s = true \/ autoReconnect s = false ->
  messageQueue (sendCommand cmd args timeout nonce s).2 = messageQueue s.
Proof.
  intros Hmode.
  unfold sendCommand, setTimeout, settle.
  unfold try_catch, bind, modify, gets, ret. cbn.
  match goal with
  | |- context [ send ?o ?d ?s0 ] =>
      pose proof (send_queue_unchanged JSON_stringify s0 o d Hmode) as Hq;
      destruct (send o d s0) as [[[]|e] s1]
  end; cbn in *; [done|].
  by destruct (promises s1 !! nextPromise s).
Qed.

Lemma keeps_sendCommand (cmd : string) (args : value) (timeout : Z)
  (nonce : string) :
  keeps sound (sendCommand cmd args timeout nonce).
Proof.
  intros s [Hwf Hst]. split; [by apply wf_sendCommand|].
  destruct (sendCommand_views JSON_stringify s cmd args timeout nonce)
    as (_ & Hs & Ht & _).
  unfold session in Hs.
  eapply steady_frame; eauto; try congruence.
  intros Ha. apply sendCommand_queue_kept. by right.
Qed.

Lemma keeps_handleMessage (opcode : Z) (payload : Buffer) :
  keeps sound (handleMessage opcode payload).
Proof.
  intros s [Hwf Hst]. split.
  - exact (wf_step JSON_stringify JSON_parse Date_toString s
             (EFrame opcode payload) Hwf).
  - destruct (handleMessage_fields JSON_stringify JSON_parse Date_toString
                s opcode payload)
      as (_ & _ & Hq & Ht & _ & Ha & Hm & _).
    by eapply steady_frame.
Qed.

Lemma fire_timer_steady (t : nat) (s : State) :
  steady s -> steady (fire_timer t s).2.
Proof.
  intros H. eapply steady_frame; [done|..];
    unfold fire_timer, command_timeout, clearTimeout, settle, transport;
    block_solve.
Qed.

Lemma setActivity_resume_steady (processed : Activity) (o : Settlement)
  (s : State) :
  steady s -> steady (setActivity_resume processed o s).2.
Proof.
  intros H. eapply steady_frame; [done|..];
    unfold setActivity_resume, emit, log, transport;
    block_solve.
Qed.

Lemma socket_close_steady (s : State) :
  steady s -> steady (socket_close s).2.
Proof.
  intros [S1 S2 S3]. rewrite socket_close_eq. cbn zeta. forget_logs.
  destruct (heartbeatInterval s) as [t|] eqn:Hh;
    cbn -[Z.ltb scheduleReconnect]; rewrite Hh;
    cbn -[Z.ltb scheduleReconnect];
    (destruct (autoReconnect s) eqn:Ha; cbn [andb];
     [destruct (reconnectAttempts s <? maxReconnectAttempts s) eqn:Hlt|]);
    try match goal with
      | |- context [ scheduleReconnect ?s0 ] =>
          destruct (scheduleReconnect_eq s0) as [lines ->];
          cbn zeta; forget_logs; apply Z.ltb_lt in Hlt
      end;
    (constructor; cbn -[Z.max Z.add]; [done | lia | by rewrite ?Ha]).
Qed.

Lemma disconnect_steady (s : State) : steady s -> steady (disconnect s).2.
Proof.
  intros [S1 S2 S3].
  destruct (disconnect_fields s)
    as (_ & _ & _ & _ & _ & _ & _ & _ & _ & _ & Hc & _ & Hq & _).
  assert (Hm : maxReconnectAttempts (disconnect s).2 = maxReconnectAttempts s).
  { unfold disconnect, clearHeartbeat, clearTimeout, emit, log.
    unfold bind, modify, gets, ret.
    repeat (case_match; cbn in *; simplify_eq; try done). }
  constructor; rewrite ?Hc, ?Hq, ?Hm, ?disconnect_attempts; done.
Qed.

Lemma sound_step (s : State) (ev : event) : sound s -> sound (step s ev).
Proof.
  intros H. destruct ev as [opcode payload|t|cmd args timeout nonce
                           |opcode data|processed o| |].
  - by apply keeps_handleMessage.
  - destruct H as [Hwf Hst]. split; [|by apply fire_timer_steady].
    exact (wf_step JSON_stringify JSON_parse Date_toString s (ETimer t) Hwf).
  - by apply keeps_sendCommand.
  - by apply keeps_send.
  - destruct H as [Hwf Hst]. split; [|by apply setActivity_resume_steady].
    exact (wf_step JSON_stringify JSON_parse Date_toString s
             (ESetActivityDone processed o) Hwf).
  - destruct H as [Hwf Hst]. split; [|by apply socket_close_steady].
    exact (wf_step JSON_stringify JSON_parse Date_toString s EClose Hwf).
  - destruct H as [Hwf Hst]. split; [|by apply disconnect_steady].
    exact (wf_step JSON_stringify JSON_parse Date_toString s EDisconnect Hwf).
Qed.

Lemma keeps_socket_connect (sock : nat) (path : string) :
  keeps sound (socket_connect sock path).
Proof.
  intros s [Hwf [S1 S2 S3]].
  unfold socket_connect, log, emit. unfold bind, modify. cbn -[Z.max].
  split.
  - eapply wf_ext; [|done]. unfold correlator.
    by destruct (debug s) eqn:Hd; cbn; rewrite ?Hd.
  - destruct (debug s) eqn:Hd; cbn -[Z.max]; rewrite ?Hd;
      (constructor; cbn -[Z.max]; [by eexists | lia | done]).
Qed.

Lemma keeps_connect (tryConnect : string -> Attempt) (paths : list string) :
  keeps sound (connect tryConnect paths).
Proof.
  unfold connect. apply keeps_bind; [apply keeps_gets|]. intros [|].
  - apply keeps_log.
  - generalize (@None Error).
    induction paths as [|path rest IH]; intros lastError; cbn [connect_loop].
    + apply keeps_throw.
    + destruct (tryConnect path).
      * apply keeps_socket_connect.
      * apply keeps_bind; [apply keeps_log | intros _; apply IH].
Qed.

Lemma keeps_socket_error (error : Error) : keeps sound (socket_error error).
Proof.
  unfold socket_error. apply keeps_bind; [apply keeps_log|].
  intros _. apply keeps_emit.
Qed.

Lemma keeps_startHeartbeat : keeps sound startHeartbeat.
Proof.
  intros s [[W1 W2 W3 W4 W5 W6 W7] Hst].
  destruct (startHeartbeat_fields s)
    as (_ & Hh & Ht & Hnt & Hp & Hpr & Hnp & Hsc & _ & Hq & Hs & Htr & _).
  split.
  - constructor; rewrite ?Hh, ?Ht, ?Hnt, ?Hp, ?Hpr, ?Hnp, ?Hsc; try done.
    + intros t x H. destruct (decide (t = nextTimer s)); [lia|].
      rewrite lookup_insert_ne in H by done. apply W1 in H. lia.
    + intros t n c p d H. destruct (decide (t = nextTimer s)) as [->|].
      * by rewrite lookup_insert_eq in H.
      * rewrite lookup_insert_ne in H by done. eauto.
    + intros n cb H. destruct (W3 _ _ H) as (c & d & Hc). exists c, d.
      rewrite lookup_insert_ne; [done|]. apply W1 in Hc. lia.
    + intros t1 t2 n1 c1 d1 n2 c2 d2 p H1 H2.
      destruct (decide (t1 = nextTimer s)) as [->|N1];
        [by rewrite lookup_insert_eq in H1|].
      destruct (decide (t2 = nextTimer s)) as [->|N2];
        [by rewrite lookup_insert_eq in H2|].
      rewrite lookup_insert_ne in H1, H2 by done. eauto.
    + intros t [= <-]. split; [lia|]. intros n c p d.
      by rewrite lookup_insert_eq.
  - unfold session in Hs. eapply steady_frame; eauto; congruence.
Qed.

Lemma keeps_handshake : keeps sound handshake.
Proof.
  unfold handshake. apply keeps_bind; [apply keeps_gets|]. intros cid.
  destruct (negb _); [apply keeps_throw|].
  apply keeps_bind; [apply keeps_gets|]. intros message.
  apply keeps_bind; [apply keeps_send|]. intros _.
  apply keeps_startHeartbeat.
Qed.

Lemma keeps_sendHandshake : keeps sound (sendHandshake JSON_stringify).
Proof.
  unfold sendHandshake. apply keeps_bind; [apply keeps_gets|].
  intros message. apply keeps_send.
Qed.

Lemma keeps_sendAuthorize (nonce : value) :
  keeps sound (sendAuthorize JSON_stringify nonce).
Proof.
  unfold sendAuthorize. apply keeps_bind; [apply keeps_gets|].
  intros message. apply keeps_send.
Qed.

Lemma keeps_authenticate_begin (accessToken : option string)
  (nonce : string) :
  keeps sound (authenticate_begin JSON_stringify accessToken nonce).
Proof.
  unfold authenticate_begin. destruct (has_token accessToken).
  - apply keeps_sendCommand.
  - apply keeps_bind; [apply keeps_gets|]. intros cid.
    apply keeps_sendCommand.
Qed.

Lemma keeps_set_authenticated (b : bool) :
  keeps sound (modify (set_authenticated b)).
Proof. intros s H. by eapply sound_frame. Qed.

Lemma keeps_authenticate_settled (accessToken : option string)
  (o : Settlement) :
  keeps sound (authenticate_settled Date_toString accessToken o).
Proof.
  unfold authenticate_settled. apply keeps_bind.
  - destruct (has_token accessToken); destruct o as [response|error];
      try apply keeps_ret; try apply keeps_throw; try apply keeps_log.
    apply keeps_bind; [apply keeps_log|]. intros _.
    destruct (_ || _); [|apply keeps_log].
    apply keeps_bind; [apply keeps_gets|]. intros e. apply keeps_throw.
  - intros _. apply keeps_bind; [apply keeps_set_authenticated|].
    intros _. apply keeps_emit.
Qed.

Lemma sound_processQueue (fuel : nat) (s : State)
  (r : completion unit * State) :
  sound s -> processQueue fuel s = Some r -> sound r.2.
Proof.
  revert s. induction fuel as [|fuel IH]; intros s H Hr.
  - destruct (messageQueue s) as [|[o d] rest] eqn:E.
    + rewrite processQueue_empty in Hr by done. by simplify_eq.
    + simpl in Hr. by rewrite E in Hr.
  - destruct (messageQueue s) as [|[o d] rest] eqn:E.
    + rewrite processQueue_empty in Hr by done. by simplify_eq.
    + rewrite (processQueue_step _ _ _ o d rest) in Hr by done.
      assert (H0 : sound (set_messageQueue rest s)).
      { eapply sound_frame; [done|done..|].
        intros Ha. destruct H as [_ [_ _ S3]]. rewrite (S3 Ha) in E. done. }
      pose proof (keeps_send o d _ H0) as H1.
      destruct (send o d (set_messageQueue rest s)) as [[[]|e] s1].
      * by eapply IH.
      * by simplify_eq.
Qed.

Lemma sound_authenticate_resume (fuel : nat) (accessToken : option string)
  (o : Settlement) (s : State) (r : completion unit * State) :
  sound s ->
  authenticate_resume JSON_stringify Date_toString fuel accessToken o s
  = Some r ->
  sound r.2.
Proof.
  intros H. unfold authenticate_resume.
  pose proof (keeps_authenticate_settled accessToken o s H) as H1.
  destruct (authenticate_settled Date_toString accessToken o s)
    as [[[]|e] s1]; cbn [snd] in H1.
  - by apply sound_processQueue.
  - intros ?. by simplify_eq.
Qed.

Lemma keeps_processActivity (activity : Activity) :
  keeps sound (processActivity activity).
Proof.
  intros s H. destruct (processActivity_fields s activity)
    as (Ht & Hk & Hs & Hq & _).
  by eapply sound_views.
Qed.

Lemma keeps_setActivity_begin (activity : Activity) (nonce : string) :
  keeps sound (setActivity_begin JSON_stringify pid activity nonce).
Proof.
  unfold setActivity_begin.
  apply keeps_bind; [apply keeps_processActivity|]. intros processed.
  apply keeps_bind; [apply keeps_gets|]. intros store.
  apply keeps_bind; [apply keeps_sendCommand|]. intros p. apply keeps_ret.
Qed.

Lemma keeps_setActivity_resume (processed : Activity) (o : Settlement) :
  keeps sound (setActivity_resume processed o).
Proof.
  intros s H.
  exact (sound_step s (ESetActivityDone processed o) H).
Qed.

Lemma keeps_clearActivity_resume (o : Settlement) :
  keeps sound (clearActivity_resume o).
Proof.
  unfold clearActivity_resume. destruct o as [response|error];
    [|apply keeps_throw].
  apply keeps_bind; [|intros _; apply keeps_emit].
  intros s H. by eapply sound_frame.
Qed.

Lemma keeps_reconnect_failed (e : Error) : keeps sound (reconnect_failed e).
Proof.
  unfold reconnect_failed. apply keeps_bind; [apply keeps_log|].
  intros _. apply keeps_ret.
Qed.

Lemma keeps_reconnect_activity (nonce : string) :
  keeps sound (reconnect_activity JSON_stringify pid nonce).
Proof.
  unfold reconnect_activity. apply keeps_bind; [apply keeps_gets|].
  intros [activity|]; [|apply keeps_ret].
  apply keeps_bind; [apply keeps_setActivity_begin|]. intros r.
  apply keeps_ret.
Qed.

Lemma keeps_clear_reconnect (t : nat) (s : State) (d : Z) :
  timers s !! t = Some (TReconnect d) ->
  sound s -> sound (clearTimeout t s).2.
Proof.
  intros Ht [[W1 W2 W3 W4 W5 W6 W7] Hst]. unfold clearTimeout, modify.
  cbn [snd]. split.
  - constructor; cbn; try done.
    + intros t0 x H. apply lookup_delete_Some in H as [_ H]. eauto.
    + intros t0 n c p d0 H. apply lookup_delete_Some in H as [_ H]. eauto.
    + intros n cb H. destruct (W3 _ _ H) as (c & d0 & Hc). exists c, d0.
      rewrite lookup_delete_ne; [done|]. intros Heq.
      rewrite <- Heq in Hc. congruence.
    + intros t1 t2 n1 c1 d1 n2 c2 d2 p H1 H2.
      apply lookup_delete_Some in H1 as [_ H1].
      apply lookup_delete_Some in H2 as [_ H2]. eauto.
    + intros t0 H. destruct (W5 t0 H) as [Hlt Hno]. split; [done|].
      intros n c p d0 H0. apply lookup_delete_Some in H0 as [_ H0].
      by apply Hno in H0.
  - by eapply steady_frame.
Qed.

Lemma keeps_reconnect_attempt (tryConnect : string -> Attempt)
  (paths : list string) (nonce : string) :
  keeps sound (reconnect_attempt JSON_stringify pid tryConnect paths nonce).
Proof.
  unfold reconnect_attempt.
  apply keeps_try_catch; [|apply keeps_reconnect_failed].
  apply keeps_bind; [apply keeps_connect|]. intros _.
  apply keeps_bind; [apply keeps_handshake|]. intros _.
  apply keeps_bind; [apply keeps_gets|]. intros [|].
  - apply keeps_bind; [apply keeps_authenticate_begin|]. intros p.
    apply keeps_ret.
  - apply keeps_reconnect_activity.
Qed.

Lemma keeps_fire_reconnect (t : nat) (tryConnect : string -> Attempt)
  (paths : list string) (nonce : string) :
  keeps sound (fire_reconnect JSON_stringify pid t tryConnect paths nonce).
Proof.
  intros s H. unfold fire_reconnect. rewrite bind_eq. cbn [gets].
  destruct (timers s !! t) as [[n c p d|d|]|] eqn:Ht; try done.
  rewrite bind_eq.
  pose proof (keeps_clear_reconnect t s d Ht H) as H1.
  destruct (clearTimeout t s) as [[[]|e] s1]; [|done].
  by apply keeps_reconnect_attempt.
Qed.

Lemma sound_reconnect_authenticated (fuel : nat) (o : Settlement)
  (nonce : string) (s : State) (r : completion Awaited * State) :
  sound s ->
  reconnect_authenticated JSON_stringify Date_toString pid fuel o nonce s
  = Some r ->
  sound r.2.
Proof.
  intros H. unfold reconnect_authenticated.
  destruct (authenticate_resume JSON_stringify Date_toString fuel None o s)
    as [[[[]|e] s1]|] eqn:E; [| |done]; intros ?; simplify_eq;
    pose proof (sound_authenticate_resume _ _ _ _ _ H E) as H1.
  - apply keeps_try_catch;
      [apply keeps_reconnect_activity | apply keeps_reconnect_failed | done].
  - by apply keeps_reconnect_failed.
Qed.

Lemma keeps_reconnect_activity_set (processed : Activity) (o : Settlement) :
  keeps sound (reconnect_activity_set processed o).
Proof.
  unfold reconnect_activity_set.
  apply keeps_try_catch; [|apply keeps_reconnect_failed].
  apply keeps_bind; [apply keeps_setActivity_resume|]. intros _.
  apply keeps_ret.
Qed.

Lemma sound_perform (s s' : State) (a : action) :
  sound s -> perform s a = Some s' -> sound s'.
Proof.
  intros H. destruct a; cbn [perform].
  - intros [= <-]. by apply sound_step.
  - intros [= <-]. by apply keeps_connect.
  - intros [= <-]. by apply keeps_socket_connect.
  - intros [= <-]. by apply keeps_log.
  - intros [= <-]. by apply keeps_socket_error.
  - intros [= <-]. by apply keeps_handshake.
  - intros [= <-]. by apply keeps_sendHandshake.
  - intros [= <-]. by apply keeps_sendAuthorize.
  - intros [= <-]. by apply keeps_authenticate_begin.
  - intros Hp. apply fmap_Some in Hp as (r & Hr & ->).
    by eapply sound_authenticate_resume.
  - intros [= <-]. by apply keeps_setActivity_begin.
  - intros [= <-]. unfold clearActivity_begin. by apply keeps_sendCommand.
  - intros [= <-]. by apply keeps_clearActivity_resume.
  - intros [= <-]. by apply keeps_fire_reconnect.
  - intros Hp. apply fmap_Some in Hp as (r & Hr & ->).
    by eapply sound_reconnect_authenticated.
  - intros [= <-]. by apply keeps_reconnect_activity_set.
Qed.

Lemma sound_perform_all (acts : list action) (s s' : State) :
  sound s -> perform_all s acts = Some s' -> sound s'.
Proof.
  revert s. induction acts as [|a acts IH]; intros s H; cbn.
  - intros ?. by simplify_eq.
  - destruct (perform s a) as [s1|] eqn:E; [|done].
    apply IH. by eapply sound_perform.
Qed.

Lemma sound_constructor (cid : option string) (dbg ar : option bool)
  (rd mx : option Z) (listener : bool) :
  sound (constructor cid dbg ar rd mx listener).
Proof.
  split; [apply wf_constructor|].
  unfold constructor, log, modify. cbn -[Z.max].
  destruct (default false dbg); constructor; cbn -[Z.max]; try done; lia.
Qed.

(** On a client that holds a socket whenever it is connected, [send]
    never reads from a null socket. *)
Lemma send_has_socket (s : State) (opcode : Z) (data : value) :
  (connected s = true -> is_Some (socket s)) ->
  (send opcode data s).1 <> Thrown (JS.cannot_read "write" "null").
Proof.
  intros Hs. unfold send, write_u32, socket_write, log.
  destruct (connected s) eqn:Hc; cbn [negb].
  - destruct (Hs eq_refl) as [k Hk].
    block_cases; try (by intros [=]); congruence.
  - destruct (autoReconnect s); cbn; intros [=].
Qed.

(** X28: what holds of a client at every moment of its life.  In every
    state reached from [new DiscordIPC(options)] by any sequence of its
    blocks (API calls up to their [await], their continuations, socket
    and timer callbacks, in any order and with any arguments): a
    connected client holds a socket, so that [send] never fails on a
    null socket; the attempt counter lies between 0 and
    [maxReconnectAttempts] (and is 0 when that option is negative); and a
    client that does not reconnect has an empty queue, what was queued
    being dropped by [disconnect()]. *)
Theorem reached_client_is_steady (start : State) (acts : list action)
  (s : State) :
  reached start acts s ->
  (connected s = true -> is_Some (socket s))
  /\ 0 <= reconnectAttempts s <= Z.max 0 (maxReconnectAttempts s)
  /\ (autoReconnect s = false -> messageQueue s = [])
  /\ (forall opcode data,
        (send opcode data s).1 <> Thrown (JS.cannot_read "write" "null")).
Proof.
  intros (cid & dbg & ar & rd & mx & listener & -> & Hrun).
  destruct (sound_perform_all acts _ s
              (sound_constructor cid dbg ar rd mx listener) Hrun)
    as [_ [S1 S2 S3]].
  repeat split; try done; try apply S2.
  intros opcode data. by apply send_has_socket.
Qed.

(** X29: the bookkeeping of the correlator is consistent at every moment
    of the client's life.  In every state reached from
    [new DiscordIPC(options)] by any sequence of its blocks, every entry
    of the pending map has its own timeout timer armed, carrying the same
    nonce and promise, so that this timer, when it fires, removes the
    entry and leaves the promise settled; no two armed timers reject the
    same promise; the heartbeat handle is not the timer of a command; and
    every timer and promise that is referred to has been created. *)
Theorem reached_client_is_well_formed (start : State)
  (acts : list action) (s : State) :
  reached start acts s ->
  well_formed s
  /\ (forall n cb,
        pendingResponses s !! n = Some cb ->
        exists c d,
          timers s !! cb_timeoutId cb
          = Some (TCommandTimeout n c (cb_promise cb) d)
          /\ (fire_timer (cb_timeoutId cb) s).1 = Normal tt
          /\ pendingResponses (fire_timer (cb_timeoutId cb) s).2 !! n = None
          /\ is_Some (promises (fire_timer (cb_timeoutId cb) s).2
                       !! cb_promise cb)).
Proof.
  intros (cid & dbg & ar & rd & mx & listener & -> & Hrun).
  destruct (sound_perform_all acts _ s
              (sound_constructor cid dbg ar rd mx listener) Hrun)
    as [Hwf _].
  split; [done|]. intros n cb Hcb.
  destruct (wf_pending s Hwf n cb Hcb) as (c & d & Ht).
  exists c, d. split; [done|].
  destruct (fire_timer_timeout s _ _ _ _ _ Ht)
    as (H1 & _ & _ & _ & _ & _ & H7).
  split; [|split].
  - unfold fire_timer. rewrite Ht. unfold command_timeout, clearTimeout,
      settle, bind, modify. done.
  - rewrite H1. apply lookup_delete_eq.
  - rewrite H7. unfold settled_with.
    destruct (promises s !! cb_promise cb) eqn:E; [by rewrite E|].
    rewrite lookup_insert_eq. by eexists.
Qed.

End BlockInvariants.


(** ** The rest of the client at concrete inputs *)

Section Trials.

Import Sample Cases.

Lemma fresh_well_formed : well_formed fresh.
Proof. apply wf_constructor. Qed.

Lemma connect_first_accepting_witness :
  connected fresh = false
  /\ Forall (refuses second_accepts) ["/tmp/discord-ipc-0"]
  /\ second_accepts "/tmp/discord-ipc-1" = Accepted 7
  /\ (let r := connect second_accepts
                 (["/tmp/discord-ipc-0"]
                  ++ "/tmp/discord-ipc-1" :: ["/tmp/discord-ipc-2"]) fresh in
      r.1 = Normal tt
      /\ connected r.2 = true
      /\ socket r.2 = Some 7%nat
      /\ reconnectAttempts r.2 = 0
      /\ emitted r.2 = emitted fresh ++ [NConnect]
      /\ console r.2
         = console fresh
           ++ (if debug fresh
               then refusal_lines second_accepts ["/tmp/discord-ipc-0"]
                    ++ [(LInfo, "Connected to Discord via "
                                +:+ "/tmp/discord-ipc-1")]
               else [])
      /\ authenticated r.2 = authenticated fresh
      /\ currentActivity r.2 = currentActivity fresh
      /\ messageQueue r.2 = messageQueue fresh
      /\ written r.2 = written fresh
      /\ correlator r.2 = correlator fresh
      /\ heap r.2 = heap fresh).
Proof.
  assert (H1 : connected fresh = false) by reflexivity.
  assert (H2 : Forall (refuses second_accepts) ["/tmp/discord-ipc-0"])
    by (repeat constructor; eexists; reflexivity).
  assert (H3 : second_accepts "/tmp/discord-ipc-1" = Accepted 7)
    by reflexivity.
  do 3 (split; [assumption|]).
  exact (connect_takes_first_accepting_path second_accepts fresh
           ["/tmp/discord-ipc-0"] ["/tmp/discord-ipc-2"]
           "/tmp/discord-ipc-1" 7 H1 H2 H3).
Defined.

Lemma unsolicited_frames_witness :
  parse (Buf.toString (payload_of ready_frame)) = Normal ready_frame
  /\ JS.get ready_frame "nonce" = Normal VUndefined
  /\ pending_key VUndefined online = None
  /\ JS.get ready_frame "cmd" = Normal (VStr "DISPATCH")
  /\ JS.get ready_frame "evt" = Normal (VStr "READY")
  /\ JS.get ready_frame "data" = Normal (VObj [("v", VNum 1)])
  /\ correlator (deliver stringify parse date_text 1 (payload_of ready_frame)
                   online)
     = correlator online
  /\ emitted (deliver stringify parse date_text 1 (payload_of ready_frame)
                online)
     = emitted online ++ [NReady (VObj [("v", VNum 1)])].
Proof.
  assert (H1 : parse (Buf.toString (payload_of ready_frame))
               = Normal ready_frame) by (vm_compute; reflexivity).
  assert (H2 : JS.get ready_frame "nonce" = Normal VUndefined)
    by reflexivity.
  assert (H3 : pending_key VUndefined online = None) by reflexivity.
  assert (H4 : JS.get ready_frame "cmd" = Normal (VStr "DISPATCH"))
    by reflexivity.
  assert (H5 : JS.get ready_frame "evt" = Normal (VStr "READY"))
    by reflexivity.
  assert (H6 : JS.get ready_frame "data" = Normal (VObj [("v", VNum 1)]))
    by reflexivity.
  do 6 (split; [assumption|]).
  destruct (unsolicited_frames_are_routed stringify parse date_text online 1
              (payload_of ready_frame) ready_frame VUndefined
              (VStr "DISPATCH") (VStr "READY") (VObj [("v", VNum 1)])
              H1 H2 H3 H4 H5 H6)
    as (Hk & _ & Hd).
  split; [exact Hk|].
  exact (proj1 (Hd eq_refl) eq_refl).
Defined.

Lemma dispatch_error_witness :
  parse (Buf.toString (payload_of bare_error)) = Normal bare_error
  /\ JS.get bare_error "nonce" = Normal VUndefined
  /\ pending_key VUndefined deaf = None
  /\ JS.get bare_error "cmd" = Normal (VStr "DISPATCH")
  /\ JS.get bare_error "evt" = Normal (VStr "ERROR")
  /\ JS.get bare_error "data" = Normal VUndefined
  /\ (let r := handleMessage stringify parse date_text 1
                 (payload_of bare_error) deaf in
      r.1 = Normal tt
      /\ emitted r.2 = emitted deaf
      /\ console r.2
         = console deaf
           ++ (if debug deaf
               then [(LInfo, "Received: "
                             +:+ stringify_text stringify bare_error);
                     (LError, "Failed to parse message: "
                              +:+ err_message
                                    (JS.cannot_read "message" "undefined"))]
               else [])).
Proof.
  assert (H1 : parse (Buf.toString (payload_of bare_error))
               = Normal bare_error) by (vm_compute; reflexivity).
  assert (H2 : JS.get bare_error "nonce" = Normal VUndefined)
    by reflexivity.
  assert (H3 : pending_key VUndefined deaf = None) by reflexivity.
  assert (H4 : JS.get bare_error "cmd" = Normal (VStr "DISPATCH"))
    by reflexivity.
  assert (H5 : JS.get bare_error "evt" = Normal (VStr "ERROR"))
    by reflexivity.
  assert (H6 : JS.get bare_error "data" = Normal VUndefined)
    by reflexivity.
  do 6 (split; [assumption|]).
  destruct (dispatch_error_is_contained stringify parse date_text deaf 1
              (payload_of bare_error) bare_error VUndefined VUndefined
              H1 H2 H3 H4 H5 H6)
    as (_ & Hthrown & Hread).
  exact (Hthrown _ (Hread eq_refl)).
Defined.

Lemma timed_out_command_witness :
  well_formed fresh
  /\ connected fresh = false
  /\ autoReconnect fresh = true
  /\ (let message :=
        VObj [("cmd", VStr "GET_USER"); ("nonce", VStr "n-1");
              ("args", user_args)] in
      let s1 := (sendCommand stringify "GET_USER" user_args 100 "n-1"
                   fresh).2 in
      let s2 := (fire_timer (nextTimer fresh) s1).2 in
      messageQueue s1 = messageQueue fresh ++ [(1, message)]
      /\ promises s1 !! nextPromise fresh = None
      /\ pendingResponses s1 !! "n-1"
         = Some (mkCallback (nextTimer fresh) (nextPromise fresh))
      /\ promises s2 !! nextPromise fresh
         = Some (Rejected (timed_out "GET_USER"))
      /\ pendingResponses s2 !! "n-1" = None
      /\ messageQueue s2 = messageQueue fresh ++ [(1, message)]
      /\ written s2 = written fresh).
Proof.
  assert (H1 : well_formed fresh) by exact fresh_well_formed.
  assert (H2 : connected fresh = false) by reflexivity.
  assert (H3 : autoReconnect fresh = true) by reflexivity.
  do 3 (split; [assumption|]).
  exact (timed_out_command_stays_queued stringify fresh "GET_USER" "n-1"
           user_args 100 H1 H2 H3).
Defined.

Lemma second_handshake_witness :
  (handshake stringify online).1 = Normal tt
  /\ (handshake stringify (handshake stringify online).2).1 = Normal tt
  /\ (let s1 := (handshake stringify online).2 in
      let s2 := (handshake stringify s1).2 in
      let s3 := (disconnect s2).2 in
      heartbeatInterval s1 = Some (nextTimer online)
      /\ heartbeatInterval s2 = Some (S (nextTimer online))
      /\ timers s2 !! nextTimer online = Some THeartbeat
      /\ timers s2 !! S (nextTimer online) = Some THeartbeat
      /\ heartbeatInterval s3 = None
      /\ timers s3 !! S (nextTimer online) = None
      /\ timers s3 !! nextTimer online = Some THeartbeat).
Proof.
  assert (H1 : (handshake stringify online).1 = Normal tt)
    by (vm_compute; reflexivity).
  assert (H2 : (handshake stringify (handshake stringify online).2).1
               = Normal tt)
    by (vm_compute; reflexivity).
  do 2 (split; [assumption|]).
  exact (second_handshake_orphans_heartbeat stringify online H1 H2).
Defined.

Lemma sendAuthorize_reply_witness :
  pendingResponses online !! "n-1" = None
  /\ parse (Buf.toString (payload_of authorize_reply)) = Normal authorize_reply
  /\ JS.get authorize_reply "nonce" = Normal (VStr "n-1")
  /\ JS.get authorize_reply "cmd" = Normal (VStr "AUTHORIZE")
  /\ JS.is_str (VStr "AUTHORIZE") "DISPATCH" = false
  /\ (let s1 := (sendAuthorize stringify (VStr "n-1") online).2 in
      let s2 := deliver stringify parse date_text 1
                  (payload_of authorize_reply) s1 in
      sendAuthorize stringify (VStr "n-1") online
      = send stringify 1 (authorize_message (VStr "n-1") online) online
      /\ correlator s1 = correlator online
      /\ correlator s2 = correlator online
      /\ emitted s2 = emitted online ++ [NMessage authorize_reply]).
Proof.
  assert (H1 : pendingResponses online !! "n-1" = None) by reflexivity.
  assert (H2 : parse (Buf.toString (payload_of authorize_reply))
               = Normal authorize_reply) by (vm_compute; reflexivity).
  assert (H3 : JS.get authorize_reply "nonce" = Normal (VStr "n-1"))
    by reflexivity.
  assert (H4 : JS.get authorize_reply "cmd" = Normal (VStr "AUTHORIZE"))
    by reflexivity.
  assert (H5 : JS.is_str (VStr "AUTHORIZE") "DISPATCH" = false)
    by reflexivity.
  do 5 (split; [assumption|]).
  exact (sendAuthorize_reply_is_unsolicited stringify parse date_text online
           "n-1" 1 (payload_of authorize_reply) authorize_reply
           (VStr "AUTHORIZE") H1 H2 H3 H4 H5).
Defined.

Lemma authenticate_with_token_witness :
  "secret" <> EmptyString
  /\ (authenticate_begin stringify (Some "secret") "n-1" online).1
     = Normal (nextPromise online)
  /\ timers (authenticate_begin stringify (Some "secret") "n-1" online).2
       !! nextTimer online
     = Some (TCommandTimeout "n-1" "AUTHENTICATE" (nextPromise online) 10000)
  /\ (forall (s' : State) (error : Error) (fuel : nat),
        authenticate_resume stringify date_text fuel (Some "secret")
          (Rejected error) s'
        = Some (Thrown error, s')).
Proof.
  assert (H1 : "secret" <> EmptyString) by discriminate.
  split; [assumption|].
  destruct (authenticate_with_token_propagates stringify date_text online
              "secret" "n-1" H1)
    as (Ha & Hb & _ & Hd & _).
  split; [exact Ha|]. split; [exact Hb | exact Hd].
Defined.

Lemma flush_in_order_witness :
  connected parked = true
  /\ is_Some (socket parked)
  /\ Forall (fun x => is_Some (encoded stringify x)) (messageQueue parked)
  /\ length (messageQueue parked) = 2%nat
  /\ exists s',
       (forall fuel, (length (messageQueue parked) <= fuel)%nat ->
          processQueue stringify fuel parked = Some (Normal tt, s'))
       /\ messageQueue s' = []
       /\ written s'
          = written parked ++ omap (encoded stringify) (messageQueue parked)
       /\ length (written s')
          = (length (written parked) + length (messageQueue parked))%nat
       /\ transport s' = transport parked
       /\ correlator s' = correlator parked
       /\ session s' = session parked.
Proof.
  assert (H1 : connected parked = true) by (vm_compute; reflexivity).
  assert (H2 : is_Some (socket parked))
    by (exists 3%nat; vm_compute; reflexivity).
  assert (Hq : messageQueue parked
               = [(1, VObj [("cmd", VStr "SUBSCRIBE")]); (0, VNull)])
    by (vm_compute; reflexivity).
  assert (H3 : Forall (fun x => is_Some (encoded stringify x))
                 (messageQueue parked)).
  { rewrite Hq. repeat constructor; vm_compute; eexists; reflexivity. }
  assert (H4 : length (messageQueue parked) = 2%nat)
    by (vm_compute; reflexivity).
  do 4 (split; [assumption|]).
  exact (flush_writes_queue_in_order stringify parked H1 H2 H3).
Defined.

Lemma processActivity_result_witness :
  let processed :=
    mkActivity [("details", VStr "In a match");
                ("application_id", VStr "1234")] (Some 0%nat) in
  (processActivity playing started).1 = Normal processed
  /\ (let s' := (processActivity playing started).2 in
      act_stamps processed = act_stamps playing
      /\ JS.lookup_field "application_id" (act_fields processed)
         = (if JS.truthy (JS.lookup_field "application_id"
                            (act_fields playing))
            then JS.lookup_field "application_id" (act_fields playing)
            else clientId_value started)
      /\ (forall stamps, stamps_of (heap started) playing = Some stamps ->
            exists stamps',
              stamps_of (heap s') processed = Some stamps'
              /\ stamps_settled stamps'
              /\ forall k,
                   JS.lookup_field k stamps'
                   = if is_stamp_key k
                     then seconds (JS.lookup_field k stamps)
                     else JS.lookup_field k stamps))
  /\ stamps_of (heap started) playing = Some [("start", VDate 1700000000500)]
  /\ seconds (VDate 1700000000500) = VNum 1700000000.
Proof.
  intros processed.
  assert (H1 : (processActivity playing started).1 = Normal processed)
    by (vm_compute; reflexivity).
  split; [assumption|].
  destruct (processActivity_result started playing processed H1)
    as (Ha & Hb & _ & Hd & _).
  split; [|split; reflexivity].
  split; [exact Ha|]. split; [exact Hb | exact Hd].
Defined.

Lemma processActivity_idempotent_witness :
  let processed :=
    mkActivity [("details", VStr "In a match");
                ("application_id", VStr "1234")] (Some 0%nat) in
  (processActivity playing started).1 = Normal processed
  /\ (let s' := (processActivity playing started).2 in
      processActivity processed s' = (Normal processed, s')).
Proof.
  intros processed.
  assert (H1 : (processActivity playing started).1 = Normal processed)
    by (vm_compute; reflexivity).
  split; [assumption|].
  exact (processActivity_idempotent started playing processed H1).
Defined.

Lemma rejected_activity_witness :
  let e := mkError KError "Maximum 2 buttons allowed" in
  (processActivity crowded started).1 = Thrown e
  /\ act_stamps crowded = Some 0%nat
  /\ heap started !! 0%nat = Some [("start", VDate 1700000000500)]
  /\ convert_stamp "start" [("start", VDate 1700000000500)]
     = Normal [("start", VNum 1700000000)]
  /\ convert_stamp "end" [("start", VNum 1700000000)]
     = Normal [("start", VNum 1700000000)]
  /\ (let b := setActivity_begin stringify 77 crowded "n-1" started in
      b.1 = Thrown e
      /\ correlator b.2 = correlator started
      /\ written b.2 = written started
      /\ messageQueue b.2 = messageQueue started
      /\ session b.2 = session started
      /\ transport b.2 = transport started
      /\ heap b.2 !! 0%nat = Some [("start", VNum 1700000000)]).
Proof.
  intros e.
  assert (H1 : (processActivity crowded started).1 = Thrown e)
    by (vm_compute; reflexivity).
  assert (H2 : act_stamps crowded = Some 0%nat) by reflexivity.
  assert (H3 : heap started !! 0%nat = Some [("start", VDate 1700000000500)])
    by (vm_compute; reflexivity).
  assert (H4 : convert_stamp "start" [("start", VDate 1700000000500)]
               = Normal [("start", VNum 1700000000)])
    by (vm_compute; reflexivity).
  assert (H5 : convert_stamp "end" [("start", VNum 1700000000)]
               = Normal [("start", VNum 1700000000)])
    by (vm_compute; reflexivity).
  do 5 (split; [assumption|]).
  destruct (rejected_activity_is_not_sent stringify 77 started crowded "n-1"
              e H1)
    as (Ha & Hb & Hc & Hd & He & Hf & _ & Hh).
  do 6 (split; [assumption|]).
  exact (proj1 (Hh 0%nat _ _ _ H2 H3 H4 H5)).
Defined.

Lemma receive_first_frame_witness :
  connected online = true
  /\ socket online = Some 3%nat
  /\ first_frame three_chunks = Some (1, payload_of user_reply)
  /\ (let r := receive_feed parse (Some 3%nat) three_chunks
                 (receive online) in
      r.1 = Normal tt
      /\ rc_promise r.2
         = match first_frame three_chunks with
           | Some (_, payload) =>
               Some (Resolved (received_value parse (Buf.toString payload)))
           | None => None
           end
      /\ rc_socket r.2
         = match first_frame three_chunks with
           | Some _ => None
           | None => Some 3%nat
           end)
  /\ received_value parse (Buf.toString (payload_of user_reply)) = user_reply.
Proof.
  assert (H1 : connected online = true) by reflexivity.
  assert (H2 : socket online = Some 3%nat) by reflexivity.
  assert (H3 : first_frame three_chunks = Some (1, payload_of user_reply))
    by (vm_compute; reflexivity).
  do 3 (split; [assumption|]).
  destruct (receive_resolves_with_first_frame parse online 3 three_chunks
              H1 H2)
    as (Ha & Hb & Hc & _).
  split; [|vm_compute; reflexivity].
  split; [exact Ha|]. split; [exact Hb | exact Hc].
Defined.


Lemma failed_reconnect_witness :
  let s := (socket_close online).2 in
  timers s !! 0%nat = Some (TReconnect 1000)
  /\ connected s = false
  /\ Forall (refuses nobody_home) candidates
  /\ (let r := fire_reconnect stringify 77 0 nobody_home candidates "n-1" s in
      r.1 = Normal AwaitNothing
      /\ timers r.2 = delete 0%nat (timers s)
      /\ nextTimer r.2 = nextTimer s
      /\ reconnectAttempts r.2 = reconnectAttempts s
      /\ connected r.2 = false
      /\ emitted r.2 = emitted s
      /\ messageQueue r.2 = messageQueue s
      /\ written r.2 = written s).
Proof.
  intros s.
  assert (H1 : timers s !! 0%nat = Some (TReconnect 1000))
    by (vm_compute; reflexivity).
  assert (H2 : connected s = false) by (vm_compute; reflexivity).
  assert (H3 : Forall (refuses nobody_home) candidates)
    by (repeat constructor; eexists; reflexivity).
  split; [exact H1|]. split; [exact H2|]. split; [exact H3|].
  destruct (failed_reconnect_is_not_retried stringify 77 s 0 1000
              nobody_home candidates "n-1" H1 H2 H3)
    as (Ha & Hb & Hc & Hd & He & _ & Hg & Hh & Hi & _).
  exact (conj Ha (conj Hb (conj Hc (conj Hd (conj He (conj Hg
           (conj Hh Hi))))))).
Defined.

Lemma built_activity_witness :
  Forall ActivityBuilder.typed built_calls
  /\ length (buttons_added built_calls) = 3%nat
  /\ (let built := ActivityBuilder.build (ActivityBuilder.after built_calls) in
      let given := hand_over 0 built online in
      exists processed,
        (processActivity given.1 given.2).1 = Normal processed).
Proof.
  assert (H1 : Forall ActivityBuilder.typed built_calls)
    by (repeat constructor).
  assert (H2 : length (buttons_added built_calls) = 3%nat) by reflexivity.
  do 2 (split; [assumption|]).
  exact (built_activity_is_accepted built_calls 0 online H1).
Defined.

Lemma story_reaches_lived :
  reached stringify parse date_text 77 fresh story lived.
Proof.
  exists (Some "1234"), (Some true), None, (Some 1000), None, true.
  split; [reflexivity | vm_compute; reflexivity].
Qed.

Lemma reached_steady_witness :
  reached stringify parse date_text 77 fresh story lived
  /\ connected lived = false
  /\ reconnectAttempts lived = 1
  /\ authenticated lived = false
  /\ (connected lived = true -> is_Some (socket lived))
  /\ 0 <= reconnectAttempts lived <= Z.max 0 (maxReconnectAttempts lived)
  /\ (autoReconnect lived = false -> messageQueue lived = [])
  /\ (forall opcode data,
        (send stringify opcode data lived).1
        <> Thrown (JS.cannot_read "write" "null")).
Proof.
  assert (H1 : reached stringify parse date_text 77 fresh story lived)
    by exact story_reaches_lived.
  split; [assumption|]. do 3 (split; [vm_compute; reflexivity|]).
  exact (reached_client_is_steady stringify parse date_text 77 fresh story
           lived H1).
Defined.

Lemma reached_well_formed_witness :
  reached stringify parse date_text 77 fresh story lived
  /\ pendingResponses lived !! "n-2" = Some (mkCallback 2 1)
  /\ well_formed lived
  /\ (forall n cb,
        pendingResponses lived !! n = Some cb ->
        exists c d,
          timers lived !! cb_timeoutId cb
          = Some (TCommandTimeout n c (cb_promise cb) d)
          /\ (fire_timer (cb_timeoutId cb) lived).1 = Normal tt
          /\ pendingResponses (fire_timer (cb_timeoutId cb) lived).2 !! n
             = None
          /\ is_Some (promises (fire_timer (cb_timeoutId cb) lived).2
                        !! cb_promise cb)).
Proof.
  assert (H1 : reached stringify parse date_text 77 fresh story lived)
    by exact story_reaches_lived.
  split; [assumption|]. split; [vm_compute; reflexivity|].
  exact (reached_client_is_well_formed stringify parse date_text 77 fresh
           story lived H1).
Defined.

End Trials.
